(** * Point-set alignment engine of Vitrine3D: a shallow embedding

    The functions [computeCentroid], [computeOptimalRotation] and
    [computeRigidTransformFromPoints] of the alignment test suite are
    transcribed below, statement by statement.

    Modelling choices.
    - A JavaScript [number] is read in two ways.  In the first part of
      the file it is a real number: the arithmetic operators,
      [Math.sqrt] and the comparisons are the exact ones of [R], and
      where the program divides by zero the quotient is kept as the term
      [_ / 0].  This reading carries the statements that hold for every
      input: what the functions compute when no operation rounds.  In
      the module [Binary64] it is an IEEE 754 binary64 value, bit for
      bit; this reading evaluates the functions on concrete inputs and
      carries the statements about rounding, overflow and NaN.
    - A statement over the reals that is meant of the running program
      bounds the magnitude of its inputs and asks for agreement within a
      tolerance, not for equality, wherever the binary64 run rounds; the
      rounding itself is not analysed by the proofs.
    - A call completes normally with a value or abruptly with a thrown
      exception ([completion]).  Reading a property of [undefined] (the
      value of an out-of-range array read) throws [TypeError].
    - The array literals [h], [n] and [q] have a fixed size and are only
      read at constant indices; they are records with one field per cell.
    - [sourcePoints[i]] and the other reads at a loop index go through
      [nth_error]. *)

From Stdlib Require Import Reals Lra Lia Psatz RNsatz List ZArith.
From Stdlib Require String Ascii.
From Stdlib Require Strings.Byte.
From Stdlib Require Import Floats.SpecFloat.
Import ListNotations.

Open Scope R_scope.

(** ** Completions *)

Inductive exn : Type :=
| TypeError.

Inductive completion (A : Type) : Type :=
| Return (a : A)
| Throw (e : exn).

Arguments Return {A} a.
Arguments Throw {A} e.

Definition bind {A B : Type} (c : completion A) (k : A -> completion B)
  : completion B :=
  match c with
  | Return a => k a
  | Throw e => Throw e
  end.

Notation "x <- c ;; k" := (bind c (fun x => k))
  (at level 61, c at next level, right associativity).
Notation "' p <- c ;; k" := (bind c (fun p => k))
  (at level 61, p pattern, c at next level, right associativity).

(** [for (let i = start; i < start + count; i++) body]: the body may throw. *)
Fixpoint for_loop {S : Type} (count i : nat)
  (body : nat -> S -> completion S) (s : S) : completion S :=
  match count with
  | O => Return s
  | Datatypes.S c => s' <- body i s ;; for_loop c (Datatypes.S i) body s'
  end.

(** ** Data *)

(** [interface Point3D { x: number; y: number; z: number }].  A
    [THREE.Vector3] is used by the program only through the same three
    fields. *)
Record Point3D : Type := mkPoint3D { x : R; y : R; z : R }.

Definition Vector3 : Type := Point3D.

(** [p.x] where [p] is the result of an array read. *)
Definition deref (o : option Point3D) : completion Point3D :=
  match o with
  | Some p => Return p
  | None => Throw TypeError
  end.

(** The body of a loop that reads two arrays at its index [i], takes the
    fields of both elements and updates the loop state [s] with [f]. *)
Definition indexed_body {St : Type} (f : St -> Point3D -> Point3D -> St)
  (l1 l2 : list Point3D) (i : nat) (s : St) : completion St :=
  a <- deref (nth_error l1 i) ;;
  b <- deref (nth_error l2 i) ;;
  Return (f s a b).

(** The 3x3 array [h]. *)
Record Array3x3 : Type := mkArray3x3 {
  h00 : R; h01 : R; h02 : R;
  h10 : R; h11 : R; h12 : R;
  h20 : R; h21 : R; h22 : R }.

(** The 4x4 array [n]. *)
Record Array4x4 : Type := mkArray4x4 {
  a00 : R; a01 : R; a02 : R; a03 : R;
  a10 : R; a11 : R; a12 : R; a13 : R;
  a20 : R; a21 : R; a22 : R; a23 : R;
  a30 : R; a31 : R; a32 : R; a33 : R }.

(** The 4-element array [q]. *)
Record Array4 : Type := mkArray4 { q0 : R; q1 : R; q2 : R; q3 : R }.

(** ** three.js *)

(** Modelled from the spec: three.js is a dependency and not part of the
    sources.  A [Matrix4] is a 4x4 homogeneous matrix (spec, section 3);
    [m_rc] is the entry of row [r] and column [c], the order in which
    [Matrix4.set] takes its arguments. *)
Record Matrix4 : Type := mkMatrix4 {
  m11 : R; m12 : R; m13 : R; m14 : R;
  m21 : R; m22 : R; m23 : R; m24 : R;
  m31 : R; m32 : R; m33 : R; m34 : R;
  m41 : R; m42 : R; m43 : R; m44 : R }.

Module THREE.

(** Modelled from the spec: [new THREE.Matrix4()] is the identity. *)
Definition identity : Matrix4 :=
  mkMatrix4 1 0 0 0
            0 1 0 0
            0 0 1 0
            0 0 0 1.

(** Modelled from the spec: [makeScale(x, y, z)], the scaling matrix. *)
Definition makeScale (sx sy sz : R) : Matrix4 :=
  mkMatrix4 sx 0 0 0
            0 sy 0 0
            0 0 sz 0
            0 0 0 1.

(** Modelled from the spec: [makeTranslation(x, y, z)], the translation
    matrix. *)
Definition makeTranslation (tx ty tz : R) : Matrix4 :=
  mkMatrix4 1 0 0 tx
            0 1 0 ty
            0 0 1 tz
            0 0 0 1.

(** Modelled from the spec: [a.multiply(b)] is the matrix product
    [a * b] ("matrix multiplication in that order", section 4.5). *)
Definition multiply (a b : Matrix4) : Matrix4 :=
  mkMatrix4
    (m11 a * m11 b + m12 a * m21 b + m13 a * m31 b + m14 a * m41 b)
    (m11 a * m12 b + m12 a * m22 b + m13 a * m32 b + m14 a * m42 b)
    (m11 a * m13 b + m12 a * m23 b + m13 a * m33 b + m14 a * m43 b)
    (m11 a * m14 b + m12 a * m24 b + m13 a * m34 b + m14 a * m44 b)
    (m21 a * m11 b + m22 a * m21 b + m23 a * m31 b + m24 a * m41 b)
    (m21 a * m12 b + m22 a * m22 b + m23 a * m32 b + m24 a * m42 b)
    (m21 a * m13 b + m22 a * m23 b + m23 a * m33 b + m24 a * m43 b)
    (m21 a * m14 b + m22 a * m24 b + m23 a * m34 b + m24 a * m44 b)
    (m31 a * m11 b + m32 a * m21 b + m33 a * m31 b + m34 a * m41 b)
    (m31 a * m12 b + m32 a * m22 b + m33 a * m32 b + m34 a * m42 b)
    (m31 a * m13 b + m32 a * m23 b + m33 a * m33 b + m34 a * m43 b)
    (m31 a * m14 b + m32 a * m24 b + m33 a * m34 b + m34 a * m44 b)
    (m41 a * m11 b + m42 a * m21 b + m43 a * m31 b + m44 a * m41 b)
    (m41 a * m12 b + m42 a * m22 b + m43 a * m32 b + m44 a * m42 b)
    (m41 a * m13 b + m42 a * m23 b + m43 a * m33 b + m44 a * m43 b)
    (m41 a * m14 b + m42 a * m24 b + m43 a * m34 b + m44 a * m44 b).

(** Modelled from the spec: [r.copy(m)] overwrites [r] with [m]. *)
Definition copy (m : Matrix4) : Matrix4 := m.

(** Modelled from the spec: [m.transpose()]. *)
Definition transpose (m : Matrix4) : Matrix4 :=
  mkMatrix4 (m11 m) (m21 m) (m31 m) (m41 m)
            (m12 m) (m22 m) (m32 m) (m42 m)
            (m13 m) (m23 m) (m33 m) (m43 m)
            (m14 m) (m24 m) (m34 m) (m44 m).

(** Modelled from the spec: [v.applyMatrix4(m)] multiplies the column
    vector [(x, y, z, 1)] by [m] and divides by the resulting fourth
    coordinate. *)
Definition applyMatrix4 (v : Vector3) (m : Matrix4) : Vector3 :=
  let w := 1 / (m41 m * x v + m42 m * y v + m43 m * z v + m44 m) in
  mkPoint3D ((m11 m * x v + m12 m * y v + m13 m * z v + m14 m) * w)
            ((m21 m * x v + m22 m * y v + m23 m * z v + m24 m) * w)
            ((m31 m * x v + m32 m * y v + m33 m * z v + m34 m) * w).

(** Modelled from the spec: [v.multiplyScalar(s)]. *)
Definition multiplyScalar (v : Vector3) (s : R) : Vector3 :=
  mkPoint3D (x v * s) (y v * s) (z v * s).

(** Modelled from the spec: [m.determinant()], here the Laplace
    expansion along the bottom row. *)
Definition determinant (m : Matrix4) : R :=
  let n11 := m11 m in let n12 := m12 m in
  let n13 := m13 m in let n14 := m14 m in
  let n21 := m21 m in let n22 := m22 m in
  let n23 := m23 m in let n24 := m24 m in
  let n31 := m31 m in let n32 := m32 m in
  let n33 := m33 m in let n34 := m34 m in
  m41 m * (n14 * n23 * n32 - n13 * n24 * n32 - n14 * n22 * n33
           + n12 * n24 * n33 + n13 * n22 * n34 - n12 * n23 * n34)
  + m42 m * (n11 * n23 * n34 - n11 * n24 * n33 + n14 * n21 * n33
             - n13 * n21 * n34 + n13 * n24 * n31 - n14 * n23 * n31)
  + m43 m * (n11 * n24 * n32 - n11 * n22 * n34 - n14 * n21 * n32
             + n12 * n21 * n34 + n14 * n22 * n31 - n12 * n24 * n31)
  + m44 m * (- n13 * n22 * n31 - n11 * n23 * n32 + n11 * n22 * n33
             + n13 * n21 * n32 - n12 * n21 * n33 + n12 * n23 * n31).

End THREE.

(** ** computeCentroid *)

(** The body of [for (const p of points)]. *)
Definition centroid_step (acc : R * R * R) (p : Point3D) : R * R * R :=
  let '(cx, cy, cz) := acc in (cx + x p, cy + y p, cz + z p).

Definition computeCentroid (points : list Point3D) : completion Point3D :=
  let '(cx, cy, cz) := fold_left centroid_step points (0, 0, 0) in
  let n := INR (length points) in
  Return (mkPoint3D (cx / n) (cy / n) (cz / n)).

(** ** computeOptimalRotation *)

(** One round of the loop that accumulates the covariance matrix [h]. *)
Definition covariance_step (sourceCentroid targetCentroid : Point3D)
  (h : Array3x3) (s t : Point3D) : Array3x3 :=
  let sx := x s - x sourceCentroid in
  let sy := y s - y sourceCentroid in
  let sz := z s - z sourceCentroid in
  let tx := x t - x targetCentroid in
  let ty := y t - y targetCentroid in
  let tz := z t - z targetCentroid in
  mkArray3x3
    (h00 h + sx * tx) (h01 h + sx * ty) (h02 h + sx * tz)
    (h10 h + sy * tx) (h11 h + sy * ty) (h12 h + sy * tz)
    (h20 h + sz * tx) (h21 h + sz * ty) (h22 h + sz * tz).

Definition zero3x3 : Array3x3 := mkArray3x3 0 0 0 0 0 0 0 0 0.

(** [for (let i = 0; i < sourcePoints.length; i++)]: [s] and [t] are read
    at index [i], their fields throw when the read gave [undefined]. *)
Definition covariance_loop (sourcePoints targetPoints : list Point3D)
  (sourceCentroid targetCentroid : Point3D) : completion Array3x3 :=
  for_loop (length sourcePoints) 0
    (indexed_body (covariance_step sourceCentroid targetCentroid)
       sourcePoints targetPoints)
    zero3x3.

(** The 4x4 matrix [n] of the quaternion-based solution. *)
Definition horn_matrix (h : Array3x3) : Array4x4 :=
  let n11 := h00 h in let n12 := h01 h in let n13 := h02 h in
  let n21 := h10 h in let n22 := h11 h in let n23 := h12 h in
  let n31 := h20 h in let n32 := h21 h in let n33 := h22 h in
  mkArray4x4
    (n11 + n22 + n33) (n23 - n32) (n31 - n13) (n12 - n21)
    (n23 - n32) (n11 - n22 - n33) (n12 + n21) (n31 + n13)
    (n31 - n13) (n12 + n21) (- n11 + n22 - n33) (n23 + n32)
    (n12 - n21) (n31 + n13) (n23 + n32) (- n11 - n22 + n33).

(** [newQ], the product of [n] and [q]. *)
Definition apply4 (n : Array4x4) (q : Array4) : Array4 :=
  mkArray4
    (a00 n * q0 q + a01 n * q1 q + a02 n * q2 q + a03 n * q3 q)
    (a10 n * q0 q + a11 n * q1 q + a12 n * q2 q + a13 n * q3 q)
    (a20 n * q0 q + a21 n * q1 q + a22 n * q2 q + a23 n * q3 q)
    (a30 n * q0 q + a31 n * q1 q + a32 n * q2 q + a33 n * q3 q).

(** [len], the Euclidean length of [newQ]. *)
Definition length4 (newQ : Array4) : R :=
  sqrt (q0 newQ * q0 newQ + q1 newQ * q1 newQ
        + q2 newQ * q2 newQ + q3 newQ * q3 newQ).

(** The numerical floor [1e-10] of both guards. *)
Definition floor : R := 1e-10.

(** [for (let iter = 0; iter < 50; iter++)] with its [break]: [iters]
    rounds remain. *)
Fixpoint power_iteration (n : Array4x4) (iters : nat) (q : Array4) : Array4 :=
  match iters with
  | O => q
  | S k =>
      let newQ := apply4 n q in
      let len := length4 newQ in
      if Rlt_dec len floor then q
      else power_iteration n k
             (mkArray4 (q0 newQ / len) (q1 newQ / len)
                       (q2 newQ / len) (q3 newQ / len))
  end.

(** [rotMatrix.set(...)] on the quaternion [(qw, qx, qy, qz)]. *)
Definition rotation_of_quaternion (q : Array4) : Matrix4 :=
  let qw := q0 q in let qx := q1 q in let qy := q2 q in let qz := q3 q in
  mkMatrix4
    (1 - 2 * qy * qy - 2 * qz * qz) (2 * qx * qy - 2 * qz * qw)
    (2 * qx * qz + 2 * qy * qw) 0
    (2 * qx * qy + 2 * qz * qw) (1 - 2 * qx * qx - 2 * qz * qz)
    (2 * qy * qz - 2 * qx * qw) 0
    (2 * qx * qz - 2 * qy * qw) (2 * qy * qz + 2 * qx * qw)
    (1 - 2 * qx * qx - 2 * qy * qy) 0
    0 0 0 1.

(** The initial quaternion guess [[1, 0, 0, 0]]. *)
Definition initial_guess : Array4 := mkArray4 1 0 0 0.

Definition computeOptimalRotation (sourcePoints targetPoints : list Point3D)
  (sourceCentroid targetCentroid : Point3D) : completion Matrix4 :=
  h <- covariance_loop sourcePoints targetPoints
         sourceCentroid targetCentroid ;;
  let n := horn_matrix h in
  let q := power_iteration n 50 initial_guess in
  let rotMatrix := rotation_of_quaternion q in
  Return rotMatrix.

(** ** computeRigidTransformFromPoints *)

(** [v => ({ x: v.x, y: v.y, z: v.z })]. *)
Definition to_plain (v : Vector3) : Point3D := mkPoint3D (x v) (y v) (z v).

(** One round of the loop that accumulates both spreads. *)
Definition spread_step (srcCentroid dstCentroid : Point3D)
  (acc : R * R) (s d : Point3D) : R * R :=
  let '(srcSpreadSq, dstSpreadSq) := acc in
  let sdx := x s - x srcCentroid in
  let sdy := y s - y srcCentroid in
  let sdz := z s - z srcCentroid in
  let ddx := x d - x dstCentroid in
  let ddy := y d - y dstCentroid in
  let ddz := z d - z dstCentroid in
  (srcSpreadSq + (sdx * sdx + sdy * sdy + sdz * sdz),
   dstSpreadSq + (ddx * ddx + ddy * ddy + ddz * ddz)).

(** [for (let i = 0; i < srcObjs.length; i++)]. *)
Definition spread_loop (srcObjs dstObjs : list Point3D)
  (srcCentroid dstCentroid : Point3D) : completion (R * R) :=
  for_loop (length srcObjs) 0
    (indexed_body (spread_step srcCentroid dstCentroid) srcObjs dstObjs)
    (0, 0).

(** [let scale = 1; if (srcSpreadSq > 1e-10) scale = Math.sqrt(...)]. *)
Definition estimate_scale (srcSpreadSq dstSpreadSq : R) : R :=
  if Rgt_dec srcSpreadSq floor then sqrt (dstSpreadSq / srcSpreadSq) else 1.

(** The translation [dstCentroid - scale * R * srcCentroid]. *)
Definition estimate_translation (rotMatrix : Matrix4) (scale : R)
  (srcCentroid dstCentroid : Point3D) : Vector3 :=
  let rotatedSrcCentroid :=
    THREE.multiplyScalar
      (THREE.applyMatrix4
         (mkPoint3D (x srcCentroid) (y srcCentroid) (z srcCentroid))
         rotMatrix)
      scale in
  mkPoint3D (x dstCentroid - x rotatedSrcCentroid)
            (y dstCentroid - y rotatedSrcCentroid)
            (z dstCentroid - z rotatedSrcCentroid).

(** [result.copy(transMat).multiply(scaleMat).multiply(rotMatrix)]. *)
Definition compose_transform (translation : Vector3) (scale : R)
  (rotMatrix : Matrix4) : Matrix4 :=
  let result := THREE.identity in
  let scaleMat := THREE.makeScale scale scale scale in
  let transMat :=
    THREE.makeTranslation (x translation) (y translation) (z translation) in
  THREE.multiply (THREE.multiply (THREE.copy transMat) scaleMat) rotMatrix.

(** The rotation, the scale and the translation that the function
    computes before it builds the final matrix. *)
Definition alignment_parameters (srcPts dstPts : list Vector3)
  : completion (Matrix4 * R * Vector3) :=
  let srcObjs := map to_plain srcPts in
  let dstObjs := map to_plain dstPts in
  srcCentroid <- computeCentroid srcObjs ;;
  dstCentroid <- computeCentroid dstObjs ;;
  rotMatrix <- computeOptimalRotation srcObjs dstObjs
                 srcCentroid dstCentroid ;;
  ' (srcSpreadSq, dstSpreadSq) <-
      spread_loop srcObjs dstObjs srcCentroid dstCentroid ;;
  let scale := estimate_scale srcSpreadSq dstSpreadSq in
  let translation :=
    estimate_translation rotMatrix scale srcCentroid dstCentroid in
  Return (rotMatrix, scale, translation).

Definition computeRigidTransformFromPoints (srcPts dstPts : list Vector3)
  : completion Matrix4 :=
  ' (rotMatrix, scale, translation) <- alignment_parameters srcPts dstPts ;;
  Return (compose_transform translation scale rotMatrix).

(** ** Notions used by the statements *)

(** The upper-left 3x3 block of a homogeneous matrix. *)
Definition upper3x3 (m : Matrix4) : Array3x3 :=
  mkArray3x3 (m11 m) (m12 m) (m13 m)
             (m21 m) (m22 m) (m23 m)
             (m31 m) (m32 m) (m33 m).

Definition identity3x3 : Array3x3 := mkArray3x3 1 0 0 0 1 0 0 0 1.

Definition transpose3x3 (a : Array3x3) : Array3x3 :=
  mkArray3x3 (h00 a) (h10 a) (h20 a)
             (h01 a) (h11 a) (h21 a)
             (h02 a) (h12 a) (h22 a).

Definition mul3x3 (a b : Array3x3) : Array3x3 :=
  mkArray3x3
    (h00 a * h00 b + h01 a * h10 b + h02 a * h20 b)
    (h00 a * h01 b + h01 a * h11 b + h02 a * h21 b)
    (h00 a * h02 b + h01 a * h12 b + h02 a * h22 b)
    (h10 a * h00 b + h11 a * h10 b + h12 a * h20 b)
    (h10 a * h01 b + h11 a * h11 b + h12 a * h21 b)
    (h10 a * h02 b + h11 a * h12 b + h12 a * h22 b)
    (h20 a * h00 b + h21 a * h10 b + h22 a * h20 b)
    (h20 a * h01 b + h21 a * h11 b + h22 a * h21 b)
    (h20 a * h02 b + h21 a * h12 b + h22 a * h22 b).

Definition det3x3 (a : Array3x3) : R :=
  h00 a * (h11 a * h22 a - h12 a * h21 a)
  - h01 a * (h10 a * h22 a - h12 a * h20 a)
  + h02 a * (h10 a * h21 a - h11 a * h20 a).



(** The bottom row of a homogeneous transform is [(0, 0, 0, 1)]. *)
Definition affine (m : Matrix4) : Prop :=
  m41 m = 0 /\ m42 m = 0 /\ m43 m = 0 /\ m44 m = 1.

(** Squared length of a quaternion. *)
Definition norm2 (q : Array4) : R :=
  q0 q * q0 q + q1 q * q1 q + q2 q * q2 q + q3 q * q3 q.

(** The sum of squared centered coordinates of a point list. *)
Definition spread (c : Point3D) (pts : list Point3D) : R :=
  fold_left
    (fun acc p =>
       acc + ((x p - x c) * (x p - x c) + (y p - y c) * (y p - y c)
              + (z p - z c) * (z p - z c)))
    pts 0.

(** The arithmetic mean of a point list, coordinate by coordinate. *)
Definition mean (pts : list Point3D) : Point3D :=
  let '(cx, cy, cz) := fold_left centroid_step pts (0, 0, 0) in
  mkPoint3D (cx / INR (length pts)) (cy / INR (length pts))
            (cz / INR (length pts)).

(** The covariance matrix of index-linked lists, without the array reads. *)
Definition covariance (sc tc : Point3D) (src tgt : list Point3D) : Array3x3 :=
  fold_left (fun h st => covariance_step sc tc h (fst st) (snd st))
    (combine src tgt) zero3x3.

(** The rotation that [computeOptimalRotation] returns when it returns. *)
Definition rotation_of (sc tc : Point3D) (src tgt : list Point3D) : Matrix4 :=
  rotation_of_quaternion
    (power_iteration (horn_matrix (covariance sc tc src tgt)) 50
       initial_guess).

(** Destination [d] is source [s] scaled by [k] and moved by [t]. *)
Definition scaled_translated (k : R) (t s d : Point3D) : Prop :=
  x d = k * x s + x t /\ y d = k * y s + y t /\ z d = k * z s + z t.

(** Coordinate-wise closeness of two points. *)
Definition close (eps : R) (p r : Point3D) : Prop :=
  Rabs (x p - x r) < eps /\ Rabs (y p - y r) < eps /\ Rabs (z p - z r) < eps.

(** The sum of one coordinate over a point list. *)
Definition total (c : Point3D -> R) (pts : list Point3D) : R :=
  fold_right (fun p acc => c p + acc) 0 pts.



(** The function rejects its input: it completes by throwing. *)
Definition rejects {A : Type} (c : completion A) : Prop :=
  exists e : exn, c = Throw e.

(** The returned matrix sends every source point to within [eps] of its
    destination point. *)
Definition reproduces (eps : R) (srcPts dstPts : list Vector3) : Prop :=
  exists M : Matrix4,
    computeRigidTransformFromPoints srcPts dstPts = Return M
    /\ Forall2 (fun s d => close eps (THREE.applyMatrix4 s M) d)
         srcPts dstPts.





(** The scenario of the rotation about Z: the unit basis vectors, the
    same vectors turned by 90 degrees about Z, and the origin that is
    passed for both centroids. *)
Definition basis : list Point3D :=
  [mkPoint3D 1 0 0; mkPoint3D 0 1 0; mkPoint3D 0 0 1].

Definition basis_z90 : list Point3D :=
  [mkPoint3D 0 1 0; mkPoint3D (-1) 0 0; mkPoint3D 0 0 1].

Definition origin : Point3D := mkPoint3D 0 0 0.

(** The matrix [n] of that scenario. *)
Definition z90_matrix : Array4x4 :=
  mkArray4x4 1 0 0 2
             0 (-1) 0 0
             0 0 (-1) 0
             2 0 0 1.

(** The quaternion [(a, 0, 0, b)] scaled to unit length. *)
Definition wz_quaternion (a b : R) : Array4 :=
  mkArray4 (a / sqrt (a * a + b * b)) 0 0 (b / sqrt (a * a + b * b)).

(** The integer vectors [(a, 0, 0, b)] that the rounds of the power
    iteration go through in that scenario, before scaling. *)
Definition z90_step (ab : Z * Z) : Z * Z :=
  (fst ab + 2 * snd ab, 2 * fst ab + snd ab)%Z.

Fixpoint z90_orbit (k : nat) (ab : Z * Z) : Z * Z :=
  match k with
  | O => ab
  | S k' => z90_orbit k' (z90_step ab)
  end.

(** The matrix [n] of the same scenario when the centroids passed are
    those of the two lists, [(1/3, 1/3, 1/3)] and [(-1/3, 1/3, 1/3)]. *)
Definition z90_centered_matrix : Array4x4 :=
  mkArray4x4 (2 / 3) 0 (2 / 3) (4 / 3)
             0 0 0 0
             (2 / 3) 0 (- 4 / 3) (- 2 / 3)
             (4 / 3) 0 (- 2 / 3) (2 / 3).

(** The two unit quaternions between which the power iteration on
    [z90_centered_matrix] alternates. *)
Definition odd_round : Array4 :=
  mkArray4 (1 / sqrt 6) 0 (1 / sqrt 6) (2 / sqrt 6).

Definition even_round : Array4 :=
  mkArray4 (2 / sqrt 6) 0 (- 1 / sqrt 6) (1 / sqrt 6).

(** Point [p'] is point [p] moved by [a]. *)
Definition moved (a p p' : Point3D) : Prop :=
  x p' = x p + x a /\ y p' = y p + y a /\ z p' = z p + z a.


(** The 3x3 matrix [k * I]. *)
Definition scalar3x3 (k : R) : Array3x3 := mkArray3x3 k 0 0 0 k 0 0 0 k.



(** Two 3x3 arrays agree within [eps], entry by entry. *)
Definition within3x3 (eps : R) (a b : Array3x3) : Prop :=
  Rabs (h00 a - h00 b) < eps /\ Rabs (h01 a - h01 b) < eps
  /\ Rabs (h02 a - h02 b) < eps
  /\ Rabs (h10 a - h10 b) < eps /\ Rabs (h11 a - h11 b) < eps
  /\ Rabs (h12 a - h12 b) < eps
  /\ Rabs (h20 a - h20 b) < eps /\ Rabs (h21 a - h21 b) < eps
  /\ Rabs (h22 a - h22 b) < eps.

(** [R * R^T] is within [eps] of the identity on the rotation block. *)
Definition orthonormal_within (eps : R) (m : Matrix4) : Prop :=
  within3x3 eps (mul3x3 (upper3x3 m) (transpose3x3 (upper3x3 m)))
    identity3x3.

(** The determinant of the rotation block is within [eps] of [+1]. *)
Definition proper_within (eps : R) (m : Matrix4) : Prop :=
  Rabs (det3x3 (upper3x3 m) - 1) < eps.





(** * The SIP compliance validator

    [validateSIP] and [toManifestCompliance] of the SIP validator module,
    with the tables they read.

    - [CollectedMetadata] is declared in a module that is not part of
      the sources; the record below has one field per value that
      [FIELD_VALUE_MAP] reads, named after its path.  On such a record no
      accessor throws, so the [catch] of [resolveFieldValue] is not
      reached.
    - [String.prototype.trim], [String(number)], the chain of regular
      expression replacements of [getFieldLabel], the list of fields of a
      profile ([getFieldsForProfile], imported) and the clock are
      parameters.  A rule's [pattern.test] and [validate] are functions
      from strings to booleans.
    - The tables are plain objects: a lookup is modelled on their own
      keys, and the statements exclude field ids that name a property
      inherited from [Object.prototype].
    - [log.info] only writes to the console and is left out. *)

Module SIP.

Import String.
Local Open Scope string_scope.

Inductive MetadataProfile : Type := basic | standard | archival.

Inductive SIPSeverity : Type := error | warning.

Inductive SIPCategory : Type := presence | format.

Record SIPFinding : Type := mkSIPFinding {
  fieldId : string;
  label : string;
  severity : SIPSeverity;
  category : SIPCategory;
  message : string }.

(** ['pass' | 'warnings' | 'override']. *)
Inductive ComplianceStatus : Type := Pass | Warnings | Override.

Record SIPValidationResult : Type := mkSIPValidationResult {
  profile : MetadataProfile;
  score : Z;
  errors : list SIPFinding;
  warnings : list SIPFinding;
  passCount : nat;
  totalChecked : nat;
  status : ComplianceStatus }.

Record ManifestCompliance : Type := mkManifestCompliance {
  mc_profile : MetadataProfile;
  mc_status : ComplianceStatus;
  mc_score : Z;
  checked_at : string;
  mc_errors : list string;
  mc_warnings : list string;
  overridden : bool }.

(** [{ pattern?: RegExp; validate?: (v) => boolean; message: string }]. *)
Record ValidationRule : Type := mkValidationRule {
  pattern : option (string -> bool);
  validate : option (string -> bool);
  rule_message : string }.

(** The values of [CollectedMetadata] that the accessors read. *)
Record CollectedMetadata : Type := mkCollectedMetadata {
  project_title : string;
  project_description : string;
  project_tags : list string;
  project_license : string;
  provenance_captureDate : string;
  provenance_captureDevice : string;
  provenance_operator : string;
  provenance_operatorOrcid : string;
  provenance_location : string;
  provenance_deviceSerial : string;
  provenance_processingNotes : string;
  provenance_conventions : string;
  qualityMetrics_tier : string;
  qualityMetrics_accuracyGrade : string;
  qualityMetrics_captureResolution_value : option R;
  qualityMetrics_scaleVerification : string;
  splatMetadata_createdBy : string;
  meshMetadata_createdBy : string;
  pointcloudMetadata_createdBy : string;
  archivalRecord_title : string;
  archivalRecord_creation_creator : string;
  archivalRecord_creation_dateCreated : string;
  archivalRecord_physicalDescription_medium : string;
  archivalRecord_provenance : string;
  archivalRecord_rights_copyrightStatus : string;
  archivalRecord_coverage_spatial_locationName : string;
  archivalRecord_coverage_spatial_coordinates_0 : option R;
  archivalRecord_coverage_spatial_coordinates_1 : option R;
  archivalRecord_physicalDescription_condition : string;
  archivalRecord_rights_creditLine : string;
  archivalRecord_context_description : string;
  materialStandard_workflow : string;
  materialStandard_colorSpace : string;
  preservation_renderingRequirements : string }.

(** [table[key]] on the own keys of an object literal. *)
Fixpoint lookup {V : Type} (key : string) (table : list (string * V))
  : option V :=
  match table with
  | nil => None
  | (k, v) :: rest => if String.eqb key k then Some v else lookup key rest
  end.

(** [key in table] on the own keys of an object literal. *)
Definition has_key {V : Type} (key : string) (table : list (string * V))
  : bool :=
  match lookup key table with
  | Some _ => true
  | None => false
  end.

(** The property names that every object inherits. *)
Definition inherited_names : list string :=
  "constructor" :: "__proto__" :: "hasOwnProperty" :: "isPrototypeOf"
  :: "propertyIsEnumerable" :: "toLocaleString" :: "toString"
  :: "valueOf" :: "__defineGetter__" :: "__defineSetter__"
  :: "__lookupGetter__" :: "__lookupSetter__" :: nil.

Definition own_id (id : string) : bool :=
  negb (existsb (String.eqb id) inherited_names).

Definition REQUIRED_FIELDS (p : MetadataProfile) : list (string * string) :=
  match p with
  | basic =>
      ("meta-title", "Title")
      :: ("meta-operator", "Scan Operator")
      :: ("meta-capture-date", "Capture Date") :: nil
  | standard =>
      ("meta-title", "Title")
      :: ("meta-operator", "Scan Operator")
      :: ("meta-capture-date", "Capture Date")
      :: ("meta-description", "Description")
      :: ("meta-capture-device", "Capture Device")
      :: ("meta-quality-tier", "Quality Tier") :: nil
  | archival =>
      ("meta-title", "Title")
      :: ("meta-operator", "Scan Operator")
      :: ("meta-capture-date", "Capture Date")
      :: ("meta-description", "Description")
      :: ("meta-capture-device", "Capture Device")
      :: ("meta-quality-tier", "Quality Tier")
      :: ("meta-archival-title", "Catalog Title")
      :: ("meta-archival-copyright", "Original Object Copyright")
      :: ("meta-pres-render-req", "Rendering Requirements") :: nil
  end.

Definition FIELD_LABELS : list (string * string) :=
  ("meta-title", "Title")
  :: ("meta-description", "Description")
  :: ("meta-tags", "Tags")
  :: ("meta-license", "License")
  :: ("meta-capture-date", "Capture Date")
  :: ("meta-capture-device", "Capture Device")
  :: ("meta-operator", "Scan Operator")
  :: ("meta-location", "Location")
  :: ("meta-device-serial", "Device Serial")
  :: ("meta-operator-orcid", "Operator ORCID")
  :: ("meta-processing-notes", "Processing Notes")
  :: ("meta-conventions", "Conventions")
  :: ("meta-quality-tier", "Quality Tier")
  :: ("meta-quality-accuracy", "Accuracy Grade")
  :: ("meta-quality-res-value", "Capture Resolution")
  :: ("meta-quality-scale-verify", "Scale Verification")
  :: ("meta-splat-created-by", "Splat Created By")
  :: ("meta-mesh-created-by", "Mesh Created By")
  :: ("meta-pointcloud-created-by", "Point Cloud Created By")
  :: ("meta-archival-title", "Catalog Title")
  :: ("meta-archival-creator", "Creator")
  :: ("meta-archival-date-created", "Date Created")
  :: ("meta-archival-medium", "Medium")
  :: ("meta-archival-provenance", "Provenance")
  :: ("meta-archival-copyright", "Original Object Copyright")
  :: ("meta-coverage-location", "Subject Location")
  :: ("meta-coverage-lat", "Latitude")
  :: ("meta-coverage-lon", "Longitude")
  :: ("meta-archival-condition", "Condition")
  :: ("meta-archival-credit", "Credit Line")
  :: ("meta-archival-context-desc", "Context Description")
  :: ("meta-material-workflow", "Material Workflow")
  :: ("meta-material-colorspace", "Color Space")
  :: ("meta-pres-render-req", "Rendering Requirements") :: nil.

(** [tags.join(', ')]. *)
Definition join_tags (tags : list string) : string := concat ", " tags.

Section Validator.

(** [String.prototype.trim]. *)
Variable trim : string -> string.

(** [String(n)] on a number. *)
Variable number_to_string : R -> string.

(** [fieldId.replace(/^meta-/, '').replace(/-/g, ' ')
    .replace(/\b\w/g, c => c.toUpperCase())]. *)
Variable derived_label : string -> string.

(** [getFieldsForProfile], imported from the metadata profile module. *)
Variable getFieldsForProfile : MetadataProfile -> list string.

(** [new Date().toISOString()]. *)
Variable now : string.

(** [String(v ?? '')]. *)
Definition string_of_nullable (v : option R) : string :=
  match v with
  | Some n => number_to_string n
  | None => ""
  end.

Definition FIELD_VALUE_MAP : list (string * (CollectedMetadata -> string)) :=
  ("meta-title", project_title)
  :: ("meta-description", project_description)
  :: ("meta-tags", fun m => join_tags (project_tags m))
  :: ("meta-license", project_license)
  :: ("meta-capture-date", provenance_captureDate)
  :: ("meta-capture-device", provenance_captureDevice)
  :: ("meta-operator", provenance_operator)
  :: ("meta-operator-orcid", provenance_operatorOrcid)
  :: ("meta-location", provenance_location)
  :: ("meta-device-serial", provenance_deviceSerial)
  :: ("meta-processing-notes", provenance_processingNotes)
  :: ("meta-conventions", provenance_conventions)
  :: ("meta-quality-tier", qualityMetrics_tier)
  :: ("meta-quality-accuracy", qualityMetrics_accuracyGrade)
  :: ("meta-quality-res-value",
      fun m => string_of_nullable (qualityMetrics_captureResolution_value m))
  :: ("meta-quality-scale-verify", qualityMetrics_scaleVerification)
  :: ("meta-splat-created-by", splatMetadata_createdBy)
  :: ("meta-mesh-created-by", meshMetadata_createdBy)
  :: ("meta-pointcloud-created-by", pointcloudMetadata_createdBy)
  :: ("meta-archival-title", archivalRecord_title)
  :: ("meta-archival-creator", archivalRecord_creation_creator)
  :: ("meta-archival-date-created", archivalRecord_creation_dateCreated)
  :: ("meta-archival-medium", archivalRecord_physicalDescription_medium)
  :: ("meta-archival-provenance", archivalRecord_provenance)
  :: ("meta-archival-copyright", archivalRecord_rights_copyrightStatus)
  :: ("meta-coverage-location", archivalRecord_coverage_spatial_locationName)
  :: ("meta-coverage-lat",
      fun m =>
        string_of_nullable (archivalRecord_coverage_spatial_coordinates_0 m))
  :: ("meta-coverage-lon",
      fun m =>
        string_of_nullable (archivalRecord_coverage_spatial_coordinates_1 m))
  :: ("meta-archival-condition", archivalRecord_physicalDescription_condition)
  :: ("meta-archival-credit", archivalRecord_rights_creditLine)
  :: ("meta-archival-context-desc", archivalRecord_context_description)
  :: ("meta-material-workflow", materialStandard_workflow)
  :: ("meta-material-colorspace", materialStandard_colorSpace)
  :: ("meta-pres-render-req", preservation_renderingRequirements) :: nil.

Definition resolveFieldValue (fieldId : string) (metadata : CollectedMetadata)
  : string :=
  match lookup fieldId FIELD_VALUE_MAP with
  | None => ""
  | Some accessor => accessor metadata
  end.

Definition getFieldLabel (fieldId : string) : string :=
  match lookup fieldId FIELD_LABELS with
  | Some l => l
  | None => derived_label fieldId
  end.

(** [!value || value === 'Not specified']. *)
Definition is_empty (value : string) : bool :=
  String.eqb value "" || String.eqb value "Not specified".

(** [isValid] for a value and the rule found for its field. *)
Definition rule_accepts (rule : ValidationRule) (value : string) : bool :=
  match pattern rule with
  | Some test => test value
  | None =>
      match validate rule with
      | Some check => check value
      | None => true
      end
  end.

(** The body of [for (const fieldId of fields)] on the three
    accumulators [errors], [warnings] and [passCount]. *)
Definition field_step (metadata : CollectedMetadata)
  (required : list (string * string))
  (formatRules : list (string * ValidationRule))
  (acc : list SIPFinding * list SIPFinding * nat) (fieldId : string)
  : list SIPFinding * list SIPFinding * nat :=
  let '(errors, warnings, passCount) := acc in
  let value := trim (resolveFieldValue fieldId metadata) in
  let isEmpty := is_empty value in
  let label := getFieldLabel fieldId in
  let isRequired := has_key fieldId required in
  if isEmpty then
    if isRequired then
      (List.app errors
         (mkSIPFinding fieldId label error presence
            "Required field is empty" :: nil),
       warnings, passCount)
    else
      (errors,
       List.app warnings
         (mkSIPFinding fieldId label warning presence
            "Recommended field is empty" :: nil),
       passCount)
  else
    match lookup fieldId formatRules with
    | Some rule =>
        if negb (rule_accepts rule value) then
          (List.app errors
             (mkSIPFinding fieldId label error format (rule_message rule)
              :: nil),
           warnings, passCount)
        else (errors, warnings, S passCount)
    | None => (errors, warnings, S passCount)
    end.

(** Finding [f] is what a round of the loop pushes on [errors] for the
    field [fieldId]: the presence error of a required field whose value
    is empty, or the format error of a field whose value is not empty
    and is rejected by its rule. *)
Definition explains_error (metadata : CollectedMetadata)
  (required : list (string * string))
  (formatRules : list (string * ValidationRule))
  (fieldId : string) (f : SIPFinding) : Prop :=
  let value := trim (resolveFieldValue fieldId metadata) in
  (is_empty value = true
   /\ has_key fieldId required = true
   /\ f = mkSIPFinding fieldId (getFieldLabel fieldId) error presence
            "Required field is empty")
  \/ (is_empty value = false
      /\ exists rule : ValidationRule,
          lookup fieldId formatRules = Some rule
          /\ rule_accepts rule value = false
          /\ f = mkSIPFinding fieldId (getFieldLabel fieldId) error format
                   (rule_message rule)).

(** [Math.round]: the nearest integer, a tie going up.  The quotient
    that [validateSIP] rounds is taken over the reals here; the binary64
    product can fall on the other side of a tie (see [Binary64.score]). *)
Definition Math_round (v : R) : Z := (up (v + / 2) - 1)%Z.

Definition validateSIP (metadata : CollectedMetadata)
  (profile : MetadataProfile)
  (formatRules : list (string * ValidationRule)) : SIPValidationResult :=
  let fields := getFieldsForProfile profile in
  let required := REQUIRED_FIELDS profile in
  let '(errors, warnings, passCount) :=
    fold_left (field_step metadata required formatRules) fields
      (nil, nil, O) in
  let totalChecked := List.length fields in
  let score :=
    if (0 <? totalChecked)%nat
    then Math_round (INR passCount / INR totalChecked * 100)
    else 100%Z in
  let status :=
    if (0 <? List.length errors)%nat then Warnings
    else if (0 <? List.length warnings)%nat then Warnings
    else Pass in
  mkSIPValidationResult profile score errors warnings passCount
    totalChecked status.

(** [`${f.label}: ${f.message}`]. *)
Definition finding_line (f : SIPFinding) : string :=
  append (label f) (append ": " (message f)).

Definition toManifestCompliance (result : SIPValidationResult)
  (overridden : bool) : ManifestCompliance :=
  mkManifestCompliance
    (profile result)
    (if overridden then Override else status result)
    (score result)
    now
    (map finding_line (errors result))
    (map finding_line (warnings result))
    overridden.

End Validator.

(** Metadata with every value empty, and the eight field ids that the
    test suite lists for the basic profile. *)
Definition empty_metadata : CollectedMetadata :=
  mkCollectedMetadata "" "" nil "" "" "" "" "" "" "" "" "" "" "" None ""
    "" "" "" "" "" "" "" "" "" "" None None "" "" "" "" "" "".

Definition basic_fields : list string :=
  "meta-title" :: "meta-description" :: "meta-tags" :: "meta-license"
  :: "meta-capture-date" :: "meta-capture-device" :: "meta-operator"
  :: "meta-location" :: nil.

End SIP.

(** * The kiosk file: an HTML page followed by a ZIP archive

    [buildPolyglotFile] and [findZipBoundary] of the kiosk viewer.  A
    [Uint8Array] is a list of bytes; an index is an integer, and a read
    outside the array gives [undefined] ([None]).  [TextEncoder.encode]
    of the page is a parameter; the marker is ASCII, so its encoding is
    the list of its character codes. *)

Module Kiosk.

Import String.StringSyntax.
Local Open Scope string_scope.
Local Open Scope bool_scope.

(** [bytes[i]]. *)
Definition read (bytes : list Byte.byte) (i : Z) : option Byte.byte :=
  if (i <? 0)%Z then None else nth_error bytes (Z.to_nat i).

(** [a === b] on two reads. *)
Definition strict_eq (a b : option Byte.byte) : bool :=
  match a, b with
  | Some v, Some w => Byte.eqb v w
  | None, None => true
  | _, _ => false
  end.

(** [bytes[i] === c] for a byte constant [c]. *)
Definition is_byte (bytes : list Byte.byte) (i : Z) (c : Byte.byte) : bool :=
  strict_eq (read bytes i) (Some c).

(** [bytes.length]. *)
Definition len (bytes : list Byte.byte) : Z := Z.of_nat (length bytes).

(** [new TextEncoder().encode('<!-- KIOSK_ZIP_BOUNDARY -->')]. *)
Definition marker : list Byte.byte :=
  Eval cbv in String.list_byte_of_string "<!-- KIOSK_ZIP_BOUNDARY -->".

(** [for (let j = 0; j < marker.length; j++)
       if (bytes[i + j] !== marker[j]) continue outer;]
    with [count] rounds left: [true] when the loop ends without a
    mismatch. *)
Fixpoint marker_loop (bytes : list Byte.byte) (i : Z) (count : nat) (j : Z)
  : bool :=
  match count with
  | O => true
  | S c =>
      if negb (strict_eq (read bytes (i + j)) (read marker j)) then false
      else marker_loop bytes i c (j + 1)
  end.

(** [for (let i = 0; i < bytes.length - marker.length; i++)] with
    [count] rounds left: the value of [pos] after the loop. *)
Fixpoint search_marker (bytes : list Byte.byte) (count : nat) (i : Z) : Z :=
  match count with
  | O => (-1)%Z
  | S c =>
      if marker_loop bytes i (length marker) 0 then (i + len marker)%Z
      else search_marker bytes c (i + 1)
  end.

(** [while (pos < bytes.length && (bytes[pos] === 10 || bytes[pos] === 13
    || bytes[pos] === 32)) pos++]. *)
Fixpoint skip_whitespace (bytes : list Byte.byte) (fuel : nat) (pos : Z) : Z :=
  match fuel with
  | O => pos
  | S f =>
      if (pos <? len bytes)%Z
         && (is_byte bytes pos Byte.x0a || is_byte bytes pos Byte.x0d
             || is_byte bytes pos Byte.x20)
      then skip_whitespace bytes f (pos + 1)
      else pos
  end.

(** The local file header magic [PK\x03\x04] at [j]. *)
Definition header_at (bytes : list Byte.byte) (j : Z) : bool :=
  is_byte bytes j Byte.x50 && is_byte bytes (j + 1) Byte.x4b
  && is_byte bytes (j + 2) Byte.x03 && is_byte bytes (j + 3) Byte.x04.

(** The end-of-central-directory magic [PK\x05\x06] at [i]. *)
Definition eocd_at (bytes : list Byte.byte) (i : Z) : bool :=
  is_byte bytes i Byte.x50 && is_byte bytes (i + 1) Byte.x4b
  && is_byte bytes (i + 2) Byte.x05 && is_byte bytes (i + 3) Byte.x06.

(** [for (let j = 0; j < i; j++) if (header at j) return j;] with
    [count] rounds left. *)
Fixpoint first_header (bytes : list Byte.byte) (count : nat) (j : Z)
  : option Z :=
  match count with
  | O => None
  | S c => if header_at bytes j then Some j else first_header bytes c (j + 1)
  end.

(** [for (let i = bytes.length - 22; i >= 0; i--)] with [count] rounds
    left; [-1] when the loop ends. *)
Fixpoint scan_eocd (bytes : list Byte.byte) (count : nat) (i : Z) : Z :=
  match count with
  | O => (-1)%Z
  | S c =>
      if eocd_at bytes i then
        match first_header bytes (Z.to_nat i) 0 with
        | Some j => j
        | None => scan_eocd bytes c (i - 1)
        end
      else scan_eocd bytes c (i - 1)
  end.

Definition findZipBoundary (bytes : list Byte.byte) : Z :=
  let pos :=
    search_marker bytes (Z.to_nat (len bytes - len marker)) 0 in
  let found :=
    if negb (pos =? -1)%Z then
      let pos := skip_whitespace bytes (length bytes) pos in
      if (pos + 3 <? len bytes)%Z && header_at bytes pos then Some pos
      else None
    else None in
  match found with
  | Some pos => pos
  | None => scan_eocd bytes (Z.to_nat (len bytes - 22 + 1)) (len bytes - 22)
  end.

(** [new Blob([combined], { type: 'text/html' })]. *)
Record Blob : Type := mkBlob { content : list Byte.byte; type : String.string }.

Section Polyglot.

(** [new TextEncoder().encode(html)]. *)
Variable encode : String.string -> list Byte.byte.

Definition buildPolyglotFile (html : String.string)
  (zipData : list Byte.byte) : Blob :=
  let htmlBytes := encode html in
  let combined := htmlBytes ++ zipData in
  mkBlob combined "text/html".

End Polyglot.

(** [fileBytes.slice(zipStart)] for [zipStart >= 0]. *)
Definition slice (bytes : list Byte.byte) (start : Z) : list Byte.byte :=
  skipn (Z.to_nat start) bytes.

(** The bytes of [part] stand in [bytes] at offset [i]. *)
Definition occurs_at (part bytes : list Byte.byte) (i : Z) : Prop :=
  (0 <= i)%Z /\ firstn (length part) (skipn (Z.to_nat i) bytes) = part.

(** [10], [13] or [32]. *)
Definition whitespace (b : Byte.byte) : Prop :=
  b = Byte.x0a \/ b = Byte.x0d \/ b = Byte.x20.

Definition header_magic : list Byte.byte :=
  Byte.x50 :: Byte.x4b :: Byte.x03 :: Byte.x04 :: nil.

Definition eocd_magic : list Byte.byte :=
  Byte.x50 :: Byte.x4b :: Byte.x05 :: Byte.x06 :: nil.

(** The smallest file in which the marker is followed by an archive: the
    marker and a local file header magic. *)
Definition marker_then_header : list Byte.byte := marker ++ header_magic.

(** [TextEncoder.encode] on a page of ASCII characters: one byte per
    character. *)
Definition encode_ascii (html : String.string) : list Byte.byte :=
  String.list_byte_of_string html.

(** The end of a generated page: the embedded script, which holds the
    marker as a string literal, and the closing marker. *)
Definition sample_page : String.string :=
  "<script type='module'>
function findZipBoundary(bytes) {
    const marker = new TextEncoder().encode('<!-- KIOSK_ZIP_BOUNDARY -->');
}
</script>
</body>
</html>
<!-- KIOSK_ZIP_BOUNDARY -->".

(** An archive without entries' data: a local file header magic and an
    end-of-central-directory record of 22 bytes. *)
Definition minimal_archive : list Byte.byte :=
  header_magic ++ eocd_magic ++ repeat Byte.x00 18.

End Kiosk.

(** * Share links

    [formatVec3], [addAlignmentParams] and [buildShareUrl] of the share
    dialog.  A [URLSearchParams] is the ordered list of its name-value
    pairs; [set] overwrites the first pair of that name and drops the
    others, or appends.  The number formatting
    [String(parseFloat(n.toFixed(4)))] and the serialisation
    [params.toString()] are parameters.  An optional string is [None]
    when it is [undefined] or [null]; it is truthy when it is present and
    not empty. *)

Module Share.

Import String.StringSyntax.
Local Open Scope string_scope.
Local Open Scope bool_scope.

(** [{ position: {x, y, z}; rotation: {x, y, z}; scale?: number }]. *)
Record Transform : Type := mkTransform {
  position : Point3D;
  rotation : Point3D;
  scale : option R }.

Record ShareState : Type := mkShareState {
  archiveUrl : option String.string;
  splatUrl : option String.string;
  modelUrl : option String.string;
  pointcloudUrl : option String.string;
  state_displayMode : option String.string;
  splatTransform : option Transform;
  modelTransform : option Transform;
  pointcloudTransform : option Transform }.

Record ShareOptions : Type := mkShareOptions {
  displayMode : String.string;
  controlsPanel : String.string;
  toolbar : String.string;
  sidebar : String.string }.

Definition URLSearchParams : Type := list (String.string * String.string).

(** [if (s)] on an optional string. *)
Definition truthy (s : option String.string) : bool :=
  match s with
  | Some v => negb (String.eqb v "")
  | None => false
  end.

(** [params.set(name, value)]. *)
Fixpoint set (name value : String.string) (params : URLSearchParams)
  : URLSearchParams :=
  match params with
  | nil => (name, value) :: nil
  | (n, v) :: rest =>
      if String.eqb n name
      then (name, value)
           :: filter (fun p => negb (String.eqb (fst p) name)) rest
      else (n, v) :: set name value rest
  end.

(** [params.get(name)]: the value of the first pair of that name. *)
Fixpoint get (name : String.string) (params : URLSearchParams)
  : option String.string :=
  match params with
  | nil => None
  | (n, v) :: rest => if String.eqb n name then Some v else get name rest
  end.

(** [n !== 0]. *)
Definition nonzero (n : R) : bool :=
  if Req_dec_T n 0 then false else true.

Section Formatting.

(** [String(parseFloat(n.toFixed(4)))]. *)
Variable format4 : R -> String.string.

(** [params.toString()]. *)
Variable serialize : URLSearchParams -> String.string.

Definition formatVec3 (arr : list R) : String.string :=
  String.concat "," (map format4 arr).

(** One of the three blocks of [addAlignmentParams], with the names of
    its position, rotation and scale parameters. *)
Definition add_transform (kp kr ks : String.string) (t : Transform)
  (params : URLSearchParams) : URLSearchParams :=
  let pos := x (position t) :: y (position t) :: z (position t) :: nil in
  let rot := x (rotation t) :: y (rotation t) :: z (rotation t) :: nil in
  let params :=
    if nonzero (x (position t)) || nonzero (y (position t))
       || nonzero (z (position t))
    then set kp (formatVec3 pos) params else params in
  let params :=
    if nonzero (x (rotation t)) || nonzero (y (rotation t))
       || nonzero (z (rotation t))
    then set kr (formatVec3 rot) params else params in
  match scale t with
  | Some s =>
      if (if Req_dec_T s 1 then false else true)
      then set ks (format4 s) params else params
  | None => params
  end.

Definition addAlignmentParams (params : URLSearchParams) (state : ShareState)
  : URLSearchParams :=
  let params :=
    match splatTransform state with
    | Some t => add_transform "sp" "sr" "ss" t params
    | None => params
    end in
  let params :=
    match modelTransform state with
    | Some t => add_transform "mp" "mr" "ms" t params
    | None => params
    end in
  match pointcloudTransform state with
  | Some t => add_transform "pp" "pr" "ps" t params
  | None => params
  end.

(** The parameters that [buildShareUrl] has set when it serialises. *)
Definition share_params (state : ShareState) (options : ShareOptions)
  (includeAlignment : bool) : URLSearchParams :=
  let params : URLSearchParams := nil in
  let params :=
    if truthy (archiveUrl state) then
      match archiveUrl state with
      | Some url => set "archive" url params
      | None => params
      end
    else
      let params :=
        match splatUrl state with
        | Some url => if truthy (Some url) then set "splat" url params
                      else params
        | None => params
        end in
      let params :=
        match modelUrl state with
        | Some url => if truthy (Some url) then set "model" url params
                      else params
        | None => params
        end in
      match pointcloudUrl state with
      | Some url => if truthy (Some url) then set "pointcloud" url params
                    else params
      | None => params
      end in
  let params := set "mode" (displayMode options) params in
  let params :=
    if negb (String.eqb (controlsPanel options) "full")
    then set "controls" (controlsPanel options) params else params in
  let params :=
    if negb (String.eqb (toolbar options) "show")
    then set "toolbar" (toolbar options) params else params in
  let params :=
    if negb (String.eqb (sidebar options) "closed")
    then set "sidebar" (sidebar options) params else params in
  if includeAlignment && negb (truthy (archiveUrl state))
  then addAlignmentParams params state else params.

Definition buildShareUrl (baseUrl : String.string) (state : ShareState)
  (options : ShareOptions) (includeAlignment : bool) : String.string :=
  String.append baseUrl
    (String.append "?"
       (serialize (share_params state options includeAlignment))).

End Formatting.

(** The names that a link to an archive may carry. *)
Definition archive_names : list String.string :=
  "archive" :: "mode" :: "controls" :: "toolbar" :: "sidebar" :: nil.

(** The transform holds nothing to share: no offset, no turn, and a
    scale that is absent or 1. *)
Definition untouched (t : option Transform) : Prop :=
  match t with
  | None => True
  | Some t =>
      x (position t) = 0 /\ y (position t) = 0 /\ z (position t) = 0
      /\ x (rotation t) = 0 /\ y (rotation t) = 0 /\ z (rotation t) = 0
      /\ (scale t = None \/ scale t = Some 1)
  end.

(** [params.toString()] for names and values that need no escaping. *)
Definition plain_query (params : URLSearchParams) : String.string :=
  String.concat "&"
    (map (fun p => String.append (fst p) (String.append "=" (snd p))) params).

(** A state that only names an archive, and the default options of the
    test suite. *)
Definition archive_only (url : String.string) : ShareState :=
  mkShareState (Some url) None None None None None None None.

Definition default_options : ShareOptions :=
  mkShareOptions "both" "full" "show" "closed".

End Share.

(** * The alignment functions in binary64

    The same three functions once more, with a JavaScript [number] read
    as what it is: an IEEE 754 binary64 value.  [spec_float] is the
    specification of binary floating-point arithmetic of the standard
    library, taken at precision 53 and maximal exponent 1024; every
    operation rounds to nearest, ties to even, overflows to an infinity
    and propagates NaN, as the operators of JavaScript and [Math.sqrt]
    do.  The definitions follow the source statement by statement and in
    its order of evaluation, so that they can be run on concrete inputs;
    they are what the statements about rounding, overflow and NaN are
    about. *)

Module Binary64.

Definition number : Type := spec_float.

Definition add : number -> number -> number := SFadd 53 1024.
Definition sub : number -> number -> number := SFsub 53 1024.
Definition mul : number -> number -> number := SFmul 53 1024.
Definition div : number -> number -> number := SFdiv 53 1024.
Definition sqrt : number -> number := SFsqrt 53 1024.
Definition neg : number -> number := SFopp.
Definition abs : number -> number := SFabs.

(** [a < b] and [a > b]: false when an operand is NaN. *)
Definition lt (a b : number) : bool := SFltb a b.
Definition gt (a b : number) : bool := SFltb b a.

(** [a === b] on numbers: false on NaN, true on [0] and [-0]. *)
Definition strict_eq (a b : number) : bool := SFeqb a b.

(** An integer literal, and an integer such as [points.length] used as
    a number: exact below [2^53], rounded to nearest above. *)
Definition of_Z (n : Z) : number := binary_normalize 53 1024 n 0 false.

(** The decimal literal [m / 10^k] for [|m| < 2^53] and [k <= 22]: both
    operands are exact and the quotient is rounded once, which gives the
    double nearest to the decimal. *)
Definition decimal (m : Z) (k : nat) : number :=
  div (of_Z m) (of_Z (10 ^ Z.of_nat k)).

Definition NaN : number := S754_nan.

Definition is_nan (a : number) : bool :=
  match a with
  | S754_nan => true
  | _ => false
  end.

Declare Scope b64_scope.
Delimit Scope b64_scope with b64.
Local Infix "+" := add : b64_scope.
Local Infix "-" := sub : b64_scope.
Local Infix "*" := mul : b64_scope.
Local Infix "/" := div : b64_scope.
Local Notation "- a" := (neg a) : b64_scope.
Local Notation "0" := (of_Z 0) : b64_scope.
Local Notation "1" := (of_Z 1) : b64_scope.
Local Notation "2" := (of_Z 2) : b64_scope.
Local Open Scope b64_scope.

Record Point3D : Type := mkPoint3D { x : number; y : number; z : number }.

Definition Vector3 : Type := Point3D.

Definition deref (o : option Point3D) : completion Point3D :=
  match o with
  | Some p => Return p
  | None => Throw TypeError
  end.

Definition indexed_body {St : Type} (f : St -> Point3D -> Point3D -> St)
  (l1 l2 : list Point3D) (i : nat) (s : St) : completion St :=
  a <- deref (nth_error l1 i) ;;
  b <- deref (nth_error l2 i) ;;
  Return (f s a b).

Record Array3x3 : Type := mkArray3x3 {
  h00 : number; h01 : number; h02 : number;
  h10 : number; h11 : number; h12 : number;
  h20 : number; h21 : number; h22 : number }.

Record Array4x4 : Type := mkArray4x4 {
  a00 : number; a01 : number; a02 : number; a03 : number;
  a10 : number; a11 : number; a12 : number; a13 : number;
  a20 : number; a21 : number; a22 : number; a23 : number;
  a30 : number; a31 : number; a32 : number; a33 : number }.

Record Array4 : Type := mkArray4 {
  q0 : number; q1 : number; q2 : number; q3 : number }.

(** Modelled from the spec: three.js is a dependency and not part of the
    sources; [m_rc] is the entry of row [r] and column [c]. *)
Record Matrix4 : Type := mkMatrix4 {
  m11 : number; m12 : number; m13 : number; m14 : number;
  m21 : number; m22 : number; m23 : number; m24 : number;
  m31 : number; m32 : number; m33 : number; m34 : number;
  m41 : number; m42 : number; m43 : number; m44 : number }.

Module THREE.

(** Modelled from the spec: [new THREE.Matrix4()] is the identity. *)
Definition identity : Matrix4 :=
  mkMatrix4 1 0 0 0
            0 1 0 0
            0 0 1 0
            0 0 0 1.

(** Modelled from the spec: [makeScale(x, y, z)]. *)
Definition makeScale (sx sy sz : number) : Matrix4 :=
  mkMatrix4 sx 0 0 0
            0 sy 0 0
            0 0 sz 0
            0 0 0 1.

(** Modelled from the spec: [makeTranslation(x, y, z)]. *)
Definition makeTranslation (tx ty tz : number) : Matrix4 :=
  mkMatrix4 1 0 0 tx
            0 1 0 ty
            0 0 1 tz
            0 0 0 1.

(** Modelled from the spec: [a.multiply(b)], the matrix product [a * b];
    each entry is the sum of its four products, added from left to
    right. *)
Definition multiply (a b : Matrix4) : Matrix4 :=
  mkMatrix4
    (m11 a * m11 b + m12 a * m21 b + m13 a * m31 b + m14 a * m41 b)
    (m11 a * m12 b + m12 a * m22 b + m13 a * m32 b + m14 a * m42 b)
    (m11 a * m13 b + m12 a * m23 b + m13 a * m33 b + m14 a * m43 b)
    (m11 a * m14 b + m12 a * m24 b + m13 a * m34 b + m14 a * m44 b)
    (m21 a * m11 b + m22 a * m21 b + m23 a * m31 b + m24 a * m41 b)
    (m21 a * m12 b + m22 a * m22 b + m23 a * m32 b + m24 a * m42 b)
    (m21 a * m13 b + m22 a * m23 b + m23 a * m33 b + m24 a * m43 b)
    (m21 a * m14 b + m22 a * m24 b + m23 a * m34 b + m24 a * m44 b)
    (m31 a * m11 b + m32 a * m21 b + m33 a * m31 b + m34 a * m41 b)
    (m31 a * m12 b + m32 a * m22 b + m33 a * m32 b + m34 a * m42 b)
    (m31 a * m13 b + m32 a * m23 b + m33 a * m33 b + m34 a * m43 b)
    (m31 a * m14 b + m32 a * m24 b + m33 a * m34 b + m34 a * m44 b)
    (m41 a * m11 b + m42 a * m21 b + m43 a * m31 b + m44 a * m41 b)
    (m41 a * m12 b + m42 a * m22 b + m43 a * m32 b + m44 a * m42 b)
    (m41 a * m13 b + m42 a * m23 b + m43 a * m33 b + m44 a * m43 b)
    (m41 a * m14 b + m42 a * m24 b + m43 a * m34 b + m44 a * m44 b).

(** Modelled from the spec: [r.copy(m)] overwrites [r] with [m]. *)
Definition copy (m : Matrix4) : Matrix4 := m.

(** Modelled from the spec: [m.transpose()]. *)
Definition transpose (m : Matrix4) : Matrix4 :=
  mkMatrix4 (m11 m) (m21 m) (m31 m) (m41 m)
            (m12 m) (m22 m) (m32 m) (m42 m)
            (m13 m) (m23 m) (m33 m) (m43 m)
            (m14 m) (m24 m) (m34 m) (m44 m).

(** Modelled from the spec: [v.applyMatrix4(m)] multiplies the column
    vector [(x, y, z, 1)] by [m] and multiplies by the inverse of the
    resulting fourth coordinate. *)
Definition applyMatrix4 (v : Vector3) (m : Matrix4) : Vector3 :=
  let w := 1 / (m41 m * x v + m42 m * y v + m43 m * z v + m44 m) in
  mkPoint3D ((m11 m * x v + m12 m * y v + m13 m * z v + m14 m) * w)
            ((m21 m * x v + m22 m * y v + m23 m * z v + m24 m) * w)
            ((m31 m * x v + m32 m * y v + m33 m * z v + m34 m) * w).

(** Modelled from the spec: [v.multiplyScalar(s)]. *)
Definition multiplyScalar (v : Vector3) (s : number) : Vector3 :=
  mkPoint3D (x v * s) (y v * s) (z v * s).

End THREE.

(** ** computeCentroid *)

Definition centroid_step (acc : number * number * number) (p : Point3D)
  : number * number * number :=
  let '(cx, cy, cz) := acc in (cx + x p, cy + y p, cz + z p).

Definition computeCentroid (points : list Point3D) : completion Point3D :=
  let '(cx, cy, cz) := fold_left centroid_step points (0, 0, 0) in
  let n := of_Z (Z.of_nat (length points)) in
  Return (mkPoint3D (cx / n) (cy / n) (cz / n)).

(** ** computeOptimalRotation *)

Definition covariance_step (sourceCentroid targetCentroid : Point3D)
  (h : Array3x3) (s t : Point3D) : Array3x3 :=
  let sx := x s - x sourceCentroid in
  let sy := y s - y sourceCentroid in
  let sz := z s - z sourceCentroid in
  let tx := x t - x targetCentroid in
  let ty := y t - y targetCentroid in
  let tz := z t - z targetCentroid in
  mkArray3x3
    (h00 h + sx * tx) (h01 h + sx * ty) (h02 h + sx * tz)
    (h10 h + sy * tx) (h11 h + sy * ty) (h12 h + sy * tz)
    (h20 h + sz * tx) (h21 h + sz * ty) (h22 h + sz * tz).

Definition zero3x3 : Array3x3 := mkArray3x3 0 0 0 0 0 0 0 0 0.

Definition covariance_loop (sourcePoints targetPoints : list Point3D)
  (sourceCentroid targetCentroid : Point3D) : completion Array3x3 :=
  for_loop (length sourcePoints) 0
    (indexed_body (covariance_step sourceCentroid targetCentroid)
       sourcePoints targetPoints)
    zero3x3.

Definition horn_matrix (h : Array3x3) : Array4x4 :=
  let n11 := h00 h in let n12 := h01 h in let n13 := h02 h in
  let n21 := h10 h in let n22 := h11 h in let n23 := h12 h in
  let n31 := h20 h in let n32 := h21 h in let n33 := h22 h in
  mkArray4x4
    (n11 + n22 + n33) (n23 - n32) (n31 - n13) (n12 - n21)
    (n23 - n32) (n11 - n22 - n33) (n12 + n21) (n31 + n13)
    (n31 - n13) (n12 + n21) (- n11 + n22 - n33) (n23 + n32)
    (n12 - n21) (n31 + n13) (n23 + n32) (- n11 - n22 + n33).

Definition apply4 (n : Array4x4) (q : Array4) : Array4 :=
  mkArray4
    (a00 n * q0 q + a01 n * q1 q + a02 n * q2 q + a03 n * q3 q)
    (a10 n * q0 q + a11 n * q1 q + a12 n * q2 q + a13 n * q3 q)
    (a20 n * q0 q + a21 n * q1 q + a22 n * q2 q + a23 n * q3 q)
    (a30 n * q0 q + a31 n * q1 q + a32 n * q2 q + a33 n * q3 q).

Definition length4 (newQ : Array4) : number :=
  sqrt (q0 newQ * q0 newQ + q1 newQ * q1 newQ
        + q2 newQ * q2 newQ + q3 newQ * q3 newQ).

(** The literal [1e-10]. *)
Definition floor : number := decimal 1 10.

(** [if (len < 1e-10) break]: a NaN length does not break. *)
Fixpoint power_iteration (n : Array4x4) (iters : nat) (q : Array4) : Array4 :=
  match iters with
  | O => q
  | S k =>
      let newQ := apply4 n q in
      let len := length4 newQ in
      if lt len floor then q
      else power_iteration n k
             (mkArray4 (q0 newQ / len) (q1 newQ / len)
                       (q2 newQ / len) (q3 newQ / len))
  end.

Definition rotation_of_quaternion (q : Array4) : Matrix4 :=
  let qw := q0 q in let qx := q1 q in let qy := q2 q in let qz := q3 q in
  mkMatrix4
    (1 - 2 * qy * qy - 2 * qz * qz) (2 * qx * qy - 2 * qz * qw)
    (2 * qx * qz + 2 * qy * qw) 0
    (2 * qx * qy + 2 * qz * qw) (1 - 2 * qx * qx - 2 * qz * qz)
    (2 * qy * qz - 2 * qx * qw) 0
    (2 * qx * qz - 2 * qy * qw) (2 * qy * qz + 2 * qx * qw)
    (1 - 2 * qx * qx - 2 * qy * qy) 0
    0 0 0 1.

Definition initial_guess : Array4 := mkArray4 1 0 0 0.

Definition computeOptimalRotation (sourcePoints targetPoints : list Point3D)
  (sourceCentroid targetCentroid : Point3D) : completion Matrix4 :=
  h <- covariance_loop sourcePoints targetPoints
         sourceCentroid targetCentroid ;;
  let n := horn_matrix h in
  let q := power_iteration n 50 initial_guess in
  let rotMatrix := rotation_of_quaternion q in
  Return rotMatrix.

(** ** computeRigidTransformFromPoints *)

Definition to_plain (v : Vector3) : Point3D := mkPoint3D (x v) (y v) (z v).

Definition spread_step (srcCentroid dstCentroid : Point3D)
  (acc : number * number) (s d : Point3D) : number * number :=
  let '(srcSpreadSq, dstSpreadSq) := acc in
  let sdx := x s - x srcCentroid in
  let sdy := y s - y srcCentroid in
  let sdz := z s - z srcCentroid in
  let ddx := x d - x dstCentroid in
  let ddy := y d - y dstCentroid in
  let ddz := z d - z dstCentroid in
  (srcSpreadSq + (sdx * sdx + sdy * sdy + sdz * sdz),
   dstSpreadSq + (ddx * ddx + ddy * ddy + ddz * ddz)).

Definition spread_loop (srcObjs dstObjs : list Point3D)
  (srcCentroid dstCentroid : Point3D) : completion (number * number) :=
  for_loop (length srcObjs) 0
    (indexed_body (spread_step srcCentroid dstCentroid) srcObjs dstObjs)
    (0, 0).

(** [let scale = 1; if (srcSpreadSq > 1e-10) scale = Math.sqrt(...)]. *)
Definition estimate_scale (srcSpreadSq dstSpreadSq : number) : number :=
  if gt srcSpreadSq floor then sqrt (dstSpreadSq / srcSpreadSq) else 1.

Definition estimate_translation (rotMatrix : Matrix4) (scale : number)
  (srcCentroid dstCentroid : Point3D) : Vector3 :=
  let rotatedSrcCentroid :=
    THREE.multiplyScalar
      (THREE.applyMatrix4
         (mkPoint3D (x srcCentroid) (y srcCentroid) (z srcCentroid))
         rotMatrix)
      scale in
  mkPoint3D (x dstCentroid - x rotatedSrcCentroid)
            (y dstCentroid - y rotatedSrcCentroid)
            (z dstCentroid - z rotatedSrcCentroid).

Definition compose_transform (translation : Vector3) (scale : number)
  (rotMatrix : Matrix4) : Matrix4 :=
  let result := THREE.identity in
  let scaleMat := THREE.makeScale scale scale scale in
  let transMat :=
    THREE.makeTranslation (x translation) (y translation) (z translation) in
  THREE.multiply (THREE.multiply (THREE.copy transMat) scaleMat) rotMatrix.

(** The rotation, the scale and the translation that the function
    computes before it builds the final matrix, with the two spreads. *)
Definition alignment_parameters (srcPts dstPts : list Vector3)
  : completion (Matrix4 * number * Vector3 * (number * number)) :=
  let srcObjs := map to_plain srcPts in
  let dstObjs := map to_plain dstPts in
  srcCentroid <- computeCentroid srcObjs ;;
  dstCentroid <- computeCentroid dstObjs ;;
  rotMatrix <- computeOptimalRotation srcObjs dstObjs
                 srcCentroid dstCentroid ;;
  ' (srcSpreadSq, dstSpreadSq) <-
      spread_loop srcObjs dstObjs srcCentroid dstCentroid ;;
  let scale := estimate_scale srcSpreadSq dstSpreadSq in
  let translation :=
    estimate_translation rotMatrix scale srcCentroid dstCentroid in
  Return (rotMatrix, scale, translation, (srcSpreadSq, dstSpreadSq)).

Definition computeRigidTransformFromPoints (srcPts dstPts : list Vector3)
  : completion Matrix4 :=
  ' (rotMatrix, scale, translation, _) <-
      alignment_parameters srcPts dstPts ;;
  Return (compose_transform translation scale rotMatrix).

(** ** Notions used by the statements *)

(** [|a - b| < tol]; false when either number is NaN. *)
Definition near (tol a b : number) : bool := lt (abs (a - b)) tol.

Definition close (tol : number) (p r : Point3D) : bool :=
  near tol (x p) (x r) && near tol (y p) (y r) && near tol (z p) (z r).

(** Entry by entry, the matrix is within [tol] of the identity. *)
Definition identity_within (tol : number) (m : Matrix4) : bool :=
  near tol (m11 m) 1 && near tol (m12 m) 0 && near tol (m13 m) 0
  && near tol (m14 m) 0
  && near tol (m21 m) 0 && near tol (m22 m) 1 && near tol (m23 m) 0
  && near tol (m24 m) 0
  && near tol (m31 m) 0 && near tol (m32 m) 0 && near tol (m33 m) 1
  && near tol (m34 m) 0
  && near tol (m41 m) 0 && near tol (m42 m) 0 && near tol (m43 m) 0
  && near tol (m44 m) 1.

(** [R * R^T] is within [tol] of the identity, computed as the test
    helper does: [matrix.clone().multiply(matrix.clone().transpose())]. *)
Definition orthonormal_within (tol : number) (m : Matrix4) : bool :=
  identity_within tol (THREE.multiply m (THREE.transpose m)).

(** The determinant of the rotation block. *)
Definition det3x3 (m : Matrix4) : number :=
  m11 m * (m22 m * m33 m - m23 m * m32 m)
  - m12 m * (m21 m * m33 m - m23 m * m31 m)
  + m13 m * (m21 m * m32 m - m22 m * m31 m).

Definition proper_within (tol : number) (m : Matrix4) : bool :=
  near tol (det3x3 m) 1.


(** The matrix that holds only NaN. *)
Definition nan_matrix : Matrix4 :=
  mkMatrix4 NaN NaN NaN NaN
            NaN NaN NaN NaN
            NaN NaN NaN NaN
            NaN NaN NaN NaN.

(** The tolerances [1e-3] and [1e-4] of the specification. *)
Definition tol3 : number := decimal 1 3.
Definition tol4 : number := decimal 1 4.

Definition origin : Point3D := mkPoint3D 0 0 0.

(** A point on the X axis. *)
Definition on_x (a : number) : Point3D := mkPoint3D a 0 0.














(** The scenario of the rotation about Z. *)
Definition basis : list Point3D :=
  [mkPoint3D 1 0 0; mkPoint3D 0 1 0; mkPoint3D 0 0 1].

Definition basis_z90 : list Point3D :=
  [mkPoint3D 0 1 0; mkPoint3D (neg 1) 0 0; mkPoint3D 0 0 1].

(** [Math.round] on a finite number: the nearest integer, a tie going
    up; NaN and the infinities have no integer value. *)
Definition Math_round (a : number) : option Z :=
  match a with
  | S754_zero _ => Some 0%Z
  | S754_finite s m e =>
      let v := if s then Z.neg m else Z.pos m in
      if (0 <=? e)%Z then Some (v * 2 ^ e)%Z
      else Some ((2 * v + 2 ^ (- e)) / 2 ^ (1 - e))%Z
  | _ => None
  end.

(** [totalChecked > 0 ? Math.round((passCount / totalChecked) * 100) : 100]
    of [validateSIP], on the two counters. *)
Definition score (passCount totalChecked : nat) : option Z :=
  if (0 <? totalChecked)%nat
  then Math_round (of_Z (Z.of_nat passCount) / of_Z (Z.of_nat totalChecked)
                   * of_Z 100)
  else Some 100%Z.

(** The point with the integer coordinates [a], [b] and [c]. *)
Definition point (a b c : Z) : Point3D :=
  mkPoint3D (of_Z a) (of_Z b) (of_Z c).

(** The call returns a matrix that sends every source point to within
    [tol] of its destination point. *)
Definition reproduces (tol : number) (srcPts dstPts : list Vector3) : bool :=
  match computeRigidTransformFromPoints srcPts dstPts with
  | Return M =>
      forallb (fun sd => close tol (THREE.applyMatrix4 (fst sd) M) (snd sd))
        (combine srcPts dstPts)
  | Throw _ => false
  end.

(** The value that a call returns, [None] when it throws. *)
Definition returned {A : Type} (c : completion A) : option A :=
  match c with
  | Return a => Some a
  | Throw _ => None
  end.

End Binary64.



(** ** Loops over index-linked arrays *)

Lemma point_eta (p : Point3D) : mkPoint3D (x p) (y p) (z p) = p.
Proof. destruct p; reflexivity. Qed.

Lemma map_to_plain (pts : list Vector3) : map to_plain pts = pts.
Proof.
  induction pts as [|p pts IH]; simpl; [reflexivity|].
  unfold to_plain at 1. rewrite point_eta, IH. reflexivity.
Qed.

Section IndexedLoops.

Context {St : Type} (f : St -> Point3D -> Point3D -> St).

Lemma for_loop_shift (c i : nat) (body : nat -> St -> completion St) s :
  for_loop c (S i) body s = for_loop c i (fun j => body (S j)) s.
Proof.
  revert i s. induction c as [|c IH]; intros i s; simpl; [reflexivity|].
  destruct (body (S i) s); simpl; [apply IH|reflexivity].
Qed.

(** When the second array is at least as long as the first, no read is
    out of range and the loop is a fold over the paired elements. *)
Lemma for_loop_indexed (l1 l2 : list Point3D) (s : St) :
  (length l1 <= length l2)%nat ->
  for_loop (length l1) 0 (indexed_body f l1 l2) s
  = Return (fold_left (fun s ab => f s (fst ab) (snd ab))
              (combine l1 l2) s).
Proof.
  revert l2 s. induction l1 as [|a l1 IH]; intros l2 s Hlen.
  - reflexivity.
  - destruct l2 as [|b l2]; simpl in Hlen; [lia|].
    simpl. rewrite for_loop_shift. apply IH. lia.
Qed.

(** When the second array is shorter, the read past its end throws. *)
Lemma for_loop_indexed_short (l1 l2 : list Point3D) (s : St) :
  (length l2 < length l1)%nat ->
  for_loop (length l1) 0 (indexed_body f l1 l2) s = Throw TypeError.
Proof.
  revert l2 s. induction l1 as [|a l1 IH]; intros l2 s Hlen.
  - simpl in Hlen. lia.
  - destruct l2 as [|b l2]; simpl in *; [reflexivity|].
    rewrite for_loop_shift. apply IH. lia.
Qed.

End IndexedLoops.

Lemma covariance_loop_eq src tgt sc tc :
  (length src <= length tgt)%nat ->
  covariance_loop src tgt sc tc = Return (covariance sc tc src tgt).
Proof.
  intros Hlen. unfold covariance_loop, covariance.
  apply (for_loop_indexed (covariance_step sc tc) src tgt zero3x3 Hlen).
Qed.

Lemma computeOptimalRotation_eq src tgt sc tc :
  (length src <= length tgt)%nat ->
  computeOptimalRotation src tgt sc tc = Return (rotation_of sc tc src tgt).
Proof.
  intros Hlen. unfold computeOptimalRotation.
  rewrite covariance_loop_eq by assumption. reflexivity.
Qed.

Lemma computeOptimalRotation_throws src tgt sc tc :
  (length tgt < length src)%nat ->
  computeOptimalRotation src tgt sc tc = Throw TypeError.
Proof.
  intros Hlen. unfold computeOptimalRotation, covariance_loop.
  rewrite (for_loop_indexed_short (covariance_step sc tc) src tgt zero3x3 Hlen).
  reflexivity.
Qed.

(** ** Equality of matrices, entry by entry *)

Lemma matrix4_ext (a b : Matrix4) :
  (m11 a = m11 b /\ m12 a = m12 b /\ m13 a = m13 b /\ m14 a = m14 b)
  /\ (m21 a = m21 b /\ m22 a = m22 b /\ m23 a = m23 b /\ m24 a = m24 b)
  /\ (m31 a = m31 b /\ m32 a = m32 b /\ m33 a = m33 b /\ m34 a = m34 b)
  /\ (m41 a = m41 b /\ m42 a = m42 b /\ m43 a = m43 b /\ m44 a = m44 b) ->
  a = b.
Proof.
  destruct a, b. simpl. intros H. decompose [and] H. subst. reflexivity.
Qed.

Lemma point_ext (p r : Point3D) :
  x p = x r /\ y p = y r /\ z p = z r -> p = r.
Proof.
  destruct p, r. simpl. intros (-> & -> & ->). reflexivity.
Qed.

(** ** The power iteration keeps a unit quaternion *)




Lemma power_iteration_break (n : Array4x4) (k : nat) (q : Array4) :
  length4 (apply4 n q) < floor -> power_iteration n (S k) q = q.
Proof.
  intros Hlt. cbn [power_iteration].
  destruct (Rlt_dec (length4 (apply4 n q)) floor); [reflexivity|contradiction].
Qed.

Lemma power_iteration_continue (n : Array4x4) (k : nat) (q : Array4) :
  floor <= length4 (apply4 n q) ->
  power_iteration n (S k) q
  = power_iteration n k
      (mkArray4 (q0 (apply4 n q) / length4 (apply4 n q))
                (q1 (apply4 n q) / length4 (apply4 n q))
                (q2 (apply4 n q) / length4 (apply4 n q))
                (q3 (apply4 n q) / length4 (apply4 n q))).
Proof.
  intros Hge. cbn [power_iteration].
  destruct (Rlt_dec (length4 (apply4 n q)) floor); [lra|reflexivity].
Qed.



(** ** A unit quaternion gives a proper rotation *)

Lemma rotation_of_quaternion_affine (q : Array4) :
  affine (rotation_of_quaternion q).
Proof. repeat split. Qed.




(** ** C1 *)






(** ** Centroids *)

Lemma fold_centroid_step (pts : list Point3D) (a b c : R) :
  fold_left centroid_step pts (a, b, c)
  = (a + total x pts, b + total y pts, c + total z pts).
Proof.
  revert a b c. induction pts as [|p pts IH]; intros a b c; simpl.
  - f_equal; [f_equal|]; ring.
  - rewrite IH. f_equal; [f_equal|]; ring.
Qed.

Lemma mean_eq (pts : list Point3D) :
  mean pts = mkPoint3D (total x pts / INR (length pts))
                       (total y pts / INR (length pts))
                       (total z pts / INR (length pts)).
Proof.
  unfold mean. rewrite fold_centroid_step. f_equal; f_equal; ring.
Qed.

Lemma computeCentroid_eq (pts : list Point3D) :
  computeCentroid pts = Return (mean pts).
Proof.
  unfold computeCentroid, mean.
  destruct (fold_left centroid_step pts (0, 0, 0)) as [[cx cy] cz].
  reflexivity.
Qed.

Lemma INR_length_pos {A : Type} (l : list A) : l <> [] -> 0 < INR (length l).
Proof.
  intros Hne. destruct l as [|a l]; [contradiction|].
  apply lt_0_INR. simpl. lia.
Qed.

Lemma total_scaled_translated (k : R) (t : Point3D) (src dst : list Point3D) :
  Forall2 (scaled_translated k t) src dst ->
  total x dst = k * total x src + INR (length src) * x t
  /\ total y dst = k * total y src + INR (length src) * y t
  /\ total z dst = k * total z src + INR (length src) * z t.
Proof.
  induction 1 as [|s d src dst (Hx & Hy & Hz) _ (IHx & IHy & IHz)].
  - simpl. repeat split; ring.
  - cbn [total fold_right length]. fold (total x src) (total x dst).
    fold (total y src) (total y dst). fold (total z src) (total z dst).
    rewrite S_INR, Hx, Hy, Hz, IHx, IHy, IHz. repeat split; ring.
Qed.

Lemma mean_scaled_translated (k : R) (t : Point3D) (src dst : list Point3D) :
  src <> [] ->
  Forall2 (scaled_translated k t) src dst ->
  scaled_translated k t (mean src) (mean dst).
Proof.
  intros Hne H2.
  destruct (total_scaled_translated k t src dst H2) as (Hx & Hy & Hz).
  pose proof (INR_length_pos src Hne) as Hn.
  rewrite !mean_eq. unfold scaled_translated. simpl.
  rewrite <- (Forall2_length H2), Hx, Hy, Hz.
  repeat split; field; lra.
Qed.



(** ** Covariance of proportional point sets *)






(** ** Spreads *)

Lemma spread_acc (c : Point3D) (pts : list Point3D) (a0 : R) :
  fold_left
    (fun acc p =>
       acc + ((x p - x c) * (x p - x c) + (y p - y c) * (y p - y c)
              + (z p - z c) * (z p - z c))) pts a0
  = a0 + spread c pts.
Proof.
  unfold spread. revert a0. induction pts as [|p pts IH]; intros a0; simpl.
  - ring.
  - rewrite IH. rewrite (IH (0 + _)). ring.
Qed.

Lemma spread_cons (c p : Point3D) (pts : list Point3D) :
  spread c (p :: pts)
  = ((x p - x c) * (x p - x c) + (y p - y c) * (y p - y c)
     + (z p - z c) * (z p - z c)) + spread c pts.
Proof.
  unfold spread at 1. simpl. rewrite spread_acc. ring.
Qed.

Lemma spread_fold_pair (sc dc : Point3D) (src dst : list Point3D) :
  length src = length dst ->
  forall a b,
    fold_left (fun acc sd => spread_step sc dc acc (fst sd) (snd sd))
      (combine src dst) (a, b)
    = (a + spread sc src, b + spread dc dst).
Proof.
  revert dst. induction src as [|s src IH]; intros [|d dst] Hlen a b;
    simpl in Hlen; try discriminate.
  - unfold spread. simpl. f_equal; ring.
  - simpl. rewrite IH by lia. rewrite !spread_cons. f_equal; ring.
Qed.

Lemma spread_loop_eq (src dst : list Point3D) (sc dc : Point3D) :
  length src = length dst ->
  spread_loop src dst sc dc = Return (spread sc src, spread dc dst).
Proof.
  intros Hlen. unfold spread_loop.
  rewrite (for_loop_indexed (spread_step sc dc) src dst (0, 0)) by lia.
  rewrite spread_fold_pair by assumption. f_equal. f_equal; ring.
Qed.

Lemma spread_nonneg (c : Point3D) (pts : list Point3D) : 0 <= spread c pts.
Proof.
  unfold spread.
  assert (H : forall a0, 0 <= a0 ->
            0 <= fold_left
                   (fun acc p =>
                      acc + ((x p - x c) * (x p - x c)
                             + (y p - y c) * (y p - y c)
                             + (z p - z c) * (z p - z c))) pts a0).
  { induction pts as [|p pts IH]; intros a0 Ha; simpl; [assumption|].
    apply IH.
    pose proof (Rle_0_sqr (x p - x c)). pose proof (Rle_0_sqr (y p - y c)).
    pose proof (Rle_0_sqr (z p - z c)). unfold Rsqr in *. lra. }
  apply H. lra.
Qed.


(** ** The function without its array reads *)


Lemma alignment_parameters_eq (srcPts dstPts : list Vector3) :
  length srcPts = length dstPts ->
  alignment_parameters srcPts dstPts
  = Return
      (rotation_of (mean srcPts) (mean dstPts) srcPts dstPts,
       estimate_scale (spread (mean srcPts) srcPts)
                      (spread (mean dstPts) dstPts),
       estimate_translation
         (rotation_of (mean srcPts) (mean dstPts) srcPts dstPts)
         (estimate_scale (spread (mean srcPts) srcPts)
                         (spread (mean dstPts) dstPts))
         (mean srcPts) (mean dstPts)).
Proof.
  intros Hlen. unfold alignment_parameters.
  rewrite !map_to_plain, !computeCentroid_eq. cbn [bind].
  rewrite computeOptimalRotation_eq by (apply Nat.eq_le_incl, Hlen).
  cbn [bind].
  rewrite spread_loop_eq by assumption. reflexivity.
Qed.

Lemma computeRigidTransformFromPoints_eq (srcPts dstPts : list Vector3) :
  length srcPts = length dstPts ->
  computeRigidTransformFromPoints srcPts dstPts
  = Return
      (compose_transform
         (estimate_translation
            (rotation_of (mean srcPts) (mean dstPts) srcPts dstPts)
            (estimate_scale (spread (mean srcPts) srcPts)
                            (spread (mean dstPts) dstPts))
            (mean srcPts) (mean dstPts))
         (estimate_scale (spread (mean srcPts) srcPts)
                         (spread (mean dstPts) dstPts))
         (rotation_of (mean srcPts) (mean dstPts) srcPts dstPts)).
Proof.
  intros Hlen. unfold computeRigidTransformFromPoints.
  rewrite alignment_parameters_eq by assumption. reflexivity.
Qed.

(** ** The composed matrix *)

Lemma multiply_assoc (a b c : Matrix4) :
  THREE.multiply (THREE.multiply a b) c = THREE.multiply a (THREE.multiply b c).
Proof.
  apply matrix4_ext; simpl; repeat split; ring.
Qed.

(** The formula of [determinant] is multiplicative and sends the
    identity to 1; on a homogeneous transform it is the determinant of
    the upper-left block. *)
Lemma determinant_multiply (a b : Matrix4) :
  THREE.determinant (THREE.multiply a b)
  = THREE.determinant a * THREE.determinant b.
Proof.
  destruct a, b. unfold THREE.determinant, THREE.multiply. simpl. ring.
Qed.

Lemma determinant_identity : THREE.determinant THREE.identity = 1.
Proof. unfold THREE.determinant. simpl. ring. Qed.

Lemma determinant_affine (m : Matrix4) :
  affine m -> THREE.determinant m = det3x3 (upper3x3 m).
Proof.
  intros (H1 & H2 & H3 & H4). unfold THREE.determinant, det3x3. simpl.
  rewrite H1, H2, H3, H4. ring.
Qed.

Lemma applyMatrix4_affine (v : Vector3) (m : Matrix4) :
  affine m ->
  THREE.applyMatrix4 v m
  = mkPoint3D (m11 m * x v + m12 m * y v + m13 m * z v + m14 m)
              (m21 m * x v + m22 m * y v + m23 m * z v + m24 m)
              (m31 m * x v + m32 m * y v + m33 m * z v + m34 m).
Proof.
  intros (H1 & H2 & H3 & H4). unfold THREE.applyMatrix4.
  rewrite H1, H2, H3, H4. apply point_ext; simpl. repeat split; field.
Qed.


Lemma affine_multiply (a b : Matrix4) :
  affine a -> affine b -> affine (THREE.multiply a b).
Proof.
  intros (A1 & A2 & A3 & A4) (B1 & B2 & B3 & B4).
  unfold affine. simpl. rewrite A1, A2, A3, A4, B1, B2, B3, B4.
  repeat split; ring.
Qed.

Lemma applyMatrix4_multiply (v : Vector3) (a b : Matrix4) :
  affine a -> affine b ->
  THREE.applyMatrix4 v (THREE.multiply a b)
  = THREE.applyMatrix4 (THREE.applyMatrix4 v b) a.
Proof.
  intros Ha Hb.
  rewrite (applyMatrix4_affine v (THREE.multiply a b))
    by (apply affine_multiply; assumption).
  rewrite (applyMatrix4_affine v b) by assumption.
  rewrite applyMatrix4_affine by assumption.
  destruct Ha as (A1 & A2 & A3 & A4), Hb as (B1 & B2 & B3 & B4).
  apply point_ext; simpl. rewrite B1, B2, B3, B4.
  repeat split; ring.
Qed.

Lemma affine_makeScale (s : R) : affine (THREE.makeScale s s s).
Proof. repeat split. Qed.

Lemma affine_makeTranslation (a b c : R) : affine (THREE.makeTranslation a b c).
Proof. repeat split. Qed.

Lemma affine_rotation_of sc tc src tgt : affine (rotation_of sc tc src tgt).
Proof. apply rotation_of_quaternion_affine. Qed.


Lemma estimate_scale_floor (srcSpreadSq dstSpreadSq : R) :
  srcSpreadSq <= floor -> estimate_scale srcSpreadSq dstSpreadSq = 1.
Proof.
  intros Hle. unfold estimate_scale.
  destruct (Rgt_dec srcSpreadSq floor); [lra|reflexivity].
Qed.



(** A rotation matrix carries no translation: its last column is
    [(0, 0, 0, 1)]. *)
Lemma linear_rotation_of sc tc src tgt :
  m14 (rotation_of sc tc src tgt) = 0
  /\ m24 (rotation_of sc tc src tgt) = 0
  /\ m34 (rotation_of sc tc src tgt) = 0.
Proof. repeat split. Qed.

Lemma estimate_translation_eq (rot : Matrix4) (s : R) (sc dc : Point3D) :
  affine rot ->
  m14 rot = 0 /\ m24 rot = 0 /\ m34 rot = 0 ->
  estimate_translation rot s sc dc
  = mkPoint3D
      (x dc - s * (m11 rot * x sc + m12 rot * y sc + m13 rot * z sc))
      (y dc - s * (m21 rot * x sc + m22 rot * y sc + m23 rot * z sc))
      (z dc - s * (m31 rot * x sc + m32 rot * y sc + m33 rot * z sc)).
Proof.
  intros Hrot (E1 & E2 & E3). unfold estimate_translation.
  rewrite applyMatrix4_affine by assumption.
  apply point_ext; simpl. rewrite E1, E2, E3. repeat split; ring.
Qed.

(** ** C3 *)







(** ** Coincident and single points *)






(** ** C4 *)

(** C4: the matrix that [computeRigidTransformFromPoints] returns is the
    product [T * S * R] of the translation by
    [destCentroid - s * R * sourceCentroid], the uniform scaling by the
    estimated scale [s] and the rotation [R] of [computeOptimalRotation];
    applied to a vector it rotates first, then scales, then translates. *)
Theorem computeRigidTransformFromPoints_composition
  (srcPts dstPts : list Vector3) :
  length srcPts = length dstPts ->
  exists (srcCentroid dstCentroid : Point3D) (rotMatrix : Matrix4)
         (scale : R) (translation : Vector3),
    computeCentroid (map to_plain srcPts) = Return srcCentroid
    /\ computeCentroid (map to_plain dstPts) = Return dstCentroid
    /\ computeOptimalRotation (map to_plain srcPts) (map to_plain dstPts)
         srcCentroid dstCentroid = Return rotMatrix
    /\ alignment_parameters srcPts dstPts
       = Return (rotMatrix, scale, translation)
    /\ x translation
       = x dstCentroid
         - scale * (m11 rotMatrix * x srcCentroid
                    + m12 rotMatrix * y srcCentroid
                    + m13 rotMatrix * z srcCentroid)
    /\ y translation
       = y dstCentroid
         - scale * (m21 rotMatrix * x srcCentroid
                    + m22 rotMatrix * y srcCentroid
                    + m23 rotMatrix * z srcCentroid)
    /\ z translation
       = z dstCentroid
         - scale * (m31 rotMatrix * x srcCentroid
                    + m32 rotMatrix * y srcCentroid
                    + m33 rotMatrix * z srcCentroid)
    /\ computeRigidTransformFromPoints srcPts dstPts
       = Return
           (THREE.multiply
              (THREE.multiply
                 (THREE.makeTranslation
                    (x translation) (y translation) (z translation))
                 (THREE.makeScale scale scale scale))
              rotMatrix)
    /\ forall v : Vector3,
        THREE.applyMatrix4 v
          (THREE.multiply
             (THREE.multiply
                (THREE.makeTranslation
                   (x translation) (y translation) (z translation))
                (THREE.makeScale scale scale scale))
             rotMatrix)
        = THREE.applyMatrix4
            (THREE.applyMatrix4
               (THREE.applyMatrix4 v rotMatrix)
               (THREE.makeScale scale scale scale))
            (THREE.makeTranslation
               (x translation) (y translation) (z translation)).
Proof.
  intros Hlen.
  set (sc := mean srcPts). set (dc := mean dstPts).
  set (rot := rotation_of sc dc srcPts dstPts).
  set (s := estimate_scale (spread sc srcPts) (spread dc dstPts)).
  exists sc, dc, rot, s, (estimate_translation rot s sc dc).
  pose proof (affine_rotation_of sc dc srcPts dstPts) as Hrot. fold rot in Hrot.
  pose proof (computeRigidTransformFromPoints_eq srcPts dstPts Hlen) as HM.
  fold sc dc rot s in HM.
  rewrite !map_to_plain, !computeCentroid_eq.
  split; [reflexivity|]. split; [reflexivity|].
  split; [apply computeOptimalRotation_eq, Nat.eq_le_incl, Hlen|].
  split; [apply alignment_parameters_eq, Hlen|].
  pose proof (linear_rotation_of sc dc srcPts dstPts) as Hlin.
  fold rot in Hlin. clearbody rot s sc dc.
  pose proof (estimate_translation_eq rot s sc dc Hrot Hlin) as Ht.
  rewrite Ht. cbn [x y z].
  split; [reflexivity|]. split; [reflexivity|]. split; [reflexivity|].
  split.
  - rewrite HM, Ht. reflexivity.
  - intros v.
    rewrite applyMatrix4_multiply;
      [|apply affine_multiply;
        [apply affine_makeTranslation|apply affine_makeScale]|assumption].
    rewrite applyMatrix4_multiply;
      [reflexivity|apply affine_makeTranslation|apply affine_makeScale].
Qed.

Lemma computeRigidTransformFromPoints_composition_witness :
  length [mkPoint3D 1 0 0; mkPoint3D 0 1 0; mkPoint3D 0 0 1]
  = length [mkPoint3D 2 3 1; mkPoint3D 1 4 1; mkPoint3D 2 4 2]
  /\ exists M,
      computeRigidTransformFromPoints
        [mkPoint3D 1 0 0; mkPoint3D 0 1 0; mkPoint3D 0 0 1]
        [mkPoint3D 2 3 1; mkPoint3D 1 4 1; mkPoint3D 2 4 2] = Return M.
Proof.
  split; [reflexivity|].
  destruct (computeRigidTransformFromPoints_composition
              [mkPoint3D 1 0 0; mkPoint3D 0 1 0; mkPoint3D 0 0 1]
              [mkPoint3D 2 3 1; mkPoint3D 1 4 1; mkPoint3D 2 4 2]
              eq_refl)
    as (sc & dc & rot & s & t & _ & _ & _ & _ & _ & _ & _ & HM & _).
  eexists. exact HM.
Defined.

(** ** C5 *)






(** ** C6 *)



(** ** C8 *)

(** C8: on equal-length point lists [computeOptimalRotation] and
    [computeRigidTransformFromPoints] return normally: every indexed read
    is in range, a normalisation factor below [1e-10] keeps the previous
    quaternion, and a source spread at or below [1e-10] gives scale 1. *)
Theorem alignment_never_throws (srcPts dstPts : list Point3D) :
  length srcPts = length dstPts ->
  (forall i : nat,
      (i < length srcPts)%nat ->
      exists s t : Point3D,
        nth_error srcPts i = Some s /\ nth_error dstPts i = Some t)
  /\ (forall sourceCentroid targetCentroid : Point3D,
         exists rotMatrix : Matrix4,
           computeOptimalRotation srcPts dstPts
             sourceCentroid targetCentroid = Return rotMatrix)
  /\ (exists M : Matrix4,
         computeRigidTransformFromPoints srcPts dstPts = Return M)
  /\ (forall (n : Array4x4) (k : nat) (q : Array4),
         length4 (apply4 n q) < 1e-10 -> power_iteration n (S k) q = q)
  /\ (forall srcSpreadSq dstSpreadSq : R,
         srcSpreadSq <= 1e-10 -> estimate_scale srcSpreadSq dstSpreadSq = 1).
Proof.
  intros Hlen. split; [|split; [|split; [|split]]].
  - intros i Hi.
    destruct (nth_error srcPts i) as [s|] eqn:Hs;
      [|apply nth_error_None in Hs; lia].
    destruct (nth_error dstPts i) as [t|] eqn:Ht;
      [|apply nth_error_None in Ht; lia].
    exists s, t. split; reflexivity.
  - intros sc tc. eexists. apply computeOptimalRotation_eq. lia.
  - eexists. apply computeRigidTransformFromPoints_eq, Hlen.
  - intros n k q. apply power_iteration_break.
  - apply estimate_scale_floor.
Qed.

Lemma alignment_never_throws_witness :
  length [mkPoint3D 0 0 0; mkPoint3D 1 0 0; mkPoint3D 2 0 0]
  = length [mkPoint3D 0 1 0; mkPoint3D 1 1 0; mkPoint3D 2 1 0]
  /\ exists M : Matrix4,
      computeRigidTransformFromPoints
        [mkPoint3D 0 0 0; mkPoint3D 1 0 0; mkPoint3D 2 0 0]
        [mkPoint3D 0 1 0; mkPoint3D 1 1 0; mkPoint3D 2 1 0] = Return M.
Proof.
  split; [reflexivity|].
  exact (proj1 (proj2 (proj2
           (alignment_never_throws
              [mkPoint3D 0 0 0; mkPoint3D 1 0 0; mkPoint3D 2 0 0]
              [mkPoint3D 0 1 0; mkPoint3D 1 1 0; mkPoint3D 2 1 0]
              eq_refl)))).
Defined.

(** ** C9 *)

(** C9 as stated fails: on the empty list [computeCentroid] does not
    throw. *)
Lemma computeCentroid_empty_not_rejected : ~ rejects (computeCentroid []).
Proof.
  intros (e & He). rewrite computeCentroid_eq in He. discriminate He.
Qed.

(** C9, amended: [computeCentroid] has no guard; on the empty list it
    returns normally the point whose three coordinates are the quotient
    [0 / 0] (NaN in JavaScript), and it throws on no input. *)
Theorem computeCentroid_empty_returns :
  computeCentroid [] = Return (mkPoint3D (0 / 0) (0 / 0) (0 / 0))
  /\ forall points : list Point3D, ~ rejects (computeCentroid points).
Proof.
  split; [reflexivity|].
  intros points (e & He). rewrite computeCentroid_eq in He. discriminate He.
Qed.

(** ** Proportional point sets *)




(** ** C2 *)













(** ** C10 *)







(** ** C7 *)

Lemma array4_ext (p r : Array4) :
  q0 p = q0 r /\ q1 p = q1 r /\ q2 p = q2 r /\ q3 p = q3 r -> p = r.
Proof.
  destruct p, r. simpl. intros (-> & -> & -> & ->). reflexivity.
Qed.

Lemma array3x3_ext (a b : Array3x3) :
  (h00 a = h00 b /\ h01 a = h01 b /\ h02 a = h02 b)
  /\ (h10 a = h10 b /\ h11 a = h11 b /\ h12 a = h12 b)
  /\ (h20 a = h20 b /\ h21 a = h21 b /\ h22 a = h22 b) ->
  a = b.
Proof.
  destruct a, b. simpl. intros H. decompose [and] H. subst. reflexivity.
Qed.

Lemma array4x4_ext (a b : Array4x4) :
  (a00 a = a00 b /\ a01 a = a01 b /\ a02 a = a02 b /\ a03 a = a03 b)
  /\ (a10 a = a10 b /\ a11 a = a11 b /\ a12 a = a12 b /\ a13 a = a13 b)
  /\ (a20 a = a20 b /\ a21 a = a21 b /\ a22 a = a22 b /\ a23 a = a23 b)
  /\ (a30 a = a30 b /\ a31 a = a31 b /\ a32 a = a32 b /\ a33 a = a33 b) ->
  a = b.
Proof.
  destruct a, b. simpl. intros H. decompose [and] H. subst. reflexivity.
Qed.

Lemma covariance_z90 :
  covariance origin origin basis basis_z90 = mkArray3x3 0 1 0 (-1) 0 0 0 0 1.
Proof.
  apply array3x3_ext.
  unfold covariance, covariance_step, origin, basis, basis_z90, zero3x3.
  simpl. repeat split; ring.
Qed.

Lemma horn_matrix_z90 :
  horn_matrix (covariance origin origin basis basis_z90) = z90_matrix.
Proof.
  rewrite covariance_z90. apply array4x4_ext.
  unfold horn_matrix, z90_matrix. simpl. repeat split; ring.
Qed.

Lemma wz_norm_pos (a b : R) :
  0 <= a -> 0 <= b -> 0 < a + b -> 0 < sqrt (a * a + b * b).
Proof.
  intros Ha Hb Hab. apply sqrt_lt_R0.
  pose proof (Rle_0_sqr (a - b)) as Hd.
  assert (Hs : 0 < (a + b) * (a + b)) by (apply Rmult_lt_0_compat; assumption).
  unfold Rsqr in Hd. lra.
Qed.

(** One round on [(a, 0, 0, b)]: no break, and the next quaternion is the
    scaled [(a + 2 b, 0, 0, 2 a + b)]. *)
Lemma z90_round (a b : R) (k : nat) :
  0 <= a -> 0 <= b -> 0 < a + b ->
  power_iteration z90_matrix (S k) (wz_quaternion a b)
  = power_iteration z90_matrix k (wz_quaternion (a + 2 * b) (2 * a + b)).
Proof.
  intros Ha Hb Hab.
  pose proof (wz_norm_pos a b Ha Hb Hab) as Hr.
  assert (Hr' : 0 < sqrt ((a + 2 * b) * (a + 2 * b)
                          + (2 * a + b) * (2 * a + b)))
    by (apply wz_norm_pos; lra).
  pose proof (sqrt_sqrt (a * a + b * b) ltac:(nra)) as Hsq.
  pose proof (sqrt_sqrt ((a + 2 * b) * (a + 2 * b)
                         + (2 * a + b) * (2 * a + b)) ltac:(nra)) as Hsq'.
  set (r := sqrt (a * a + b * b)) in *.
  set (r' := sqrt ((a + 2 * b) * (a + 2 * b)
                   + (2 * a + b) * (2 * a + b))) in *.
  assert (Happ : apply4 z90_matrix (wz_quaternion a b)
                 = mkArray4 ((a + 2 * b) / r) 0 0 ((2 * a + b) / r)).
  { apply array4_ext. unfold wz_quaternion. simpl. fold r.
    repeat split; field; lra. }
  assert (Hlen : length4 (apply4 z90_matrix (wz_quaternion a b)) = r' / r).
  { rewrite Happ. unfold length4. simpl. apply sqrt_lem_1.
    - assert (0 <= (a + 2 * b) / r * ((a + 2 * b) / r)) by nra.
      assert (0 <= (2 * a + b) / r * ((2 * a + b) / r)) by nra.
      lra.
    - apply Rlt_le, Rdiv_lt_0_compat; assumption.
    - replace (r' / r * (r' / r)) with (r' * r' / (r * r)) by (field; lra).
      rewrite Hsq'. field. lra. }
  assert (Hge : r <= r').
  { apply sqrt_le_1_alt. nra. }
  assert (Hone : 1 <= r' / r).
  { apply (Rmult_le_reg_r r); [assumption|].
    replace (r' / r * r) with r' by (field; lra). lra. }
  rewrite power_iteration_continue
    by (rewrite Hlen; unfold floor; lra).
  f_equal. rewrite Hlen, Happ. apply array4_ext.
  unfold wz_quaternion. simpl. fold r'.
  repeat split; field; lra.
Qed.

Lemma z90_rounds (k : nat) :
  forall a b : Z,
    (0 <= a)%Z -> (0 <= b)%Z -> (0 < a + b)%Z ->
    power_iteration z90_matrix k (wz_quaternion (IZR a) (IZR b))
    = wz_quaternion (IZR (fst (z90_orbit k (a, b))))
                    (IZR (snd (z90_orbit k (a, b)))).
Proof.
  induction k as [|k IH]; intros a b Ha Hb Hab; [reflexivity|].
  rewrite z90_round
    by (try apply IZR_le; try (rewrite <- plus_IZR; apply IZR_lt);
        assumption).
  cbn [z90_orbit]. unfold z90_step. cbn [fst snd].
  rewrite <- IH by lia.
  rewrite !plus_IZR, !mult_IZR. reflexivity.
Qed.

Lemma initial_guess_wz : initial_guess = wz_quaternion 1 0.
Proof.
  apply array4_ext. unfold wz_quaternion, initial_guess. simpl.
  replace (1 * 1 + 0 * 0) with 1 by ring. rewrite sqrt_1.
  repeat split; field.
Qed.

(** The image of [(1, 0, 0)] under the rotation of a quaternion
    [(a, 0, 0, b)] scaled to unit length. *)
Lemma rotate_e1_wz (a b : R) :
  0 < a * a + b * b ->
  THREE.applyMatrix4 (mkPoint3D 1 0 0)
    (rotation_of_quaternion (wz_quaternion a b))
  = mkPoint3D ((a * a - b * b) / (a * a + b * b))
              (2 * a * b / (a * a + b * b)) 0.
Proof.
  intros Hn. pose proof (sqrt_sqrt (a * a + b * b) (Rlt_le _ _ Hn)) as Hsq.
  pose proof (sqrt_lt_R0 _ Hn) as Hr.
  rewrite applyMatrix4_affine by apply rotation_of_quaternion_affine.
  unfold wz_quaternion. set (r := sqrt (a * a + b * b)) in *.
  assert (Hrr : 0 < r * r) by (apply Rmult_lt_0_compat; assumption).
  apply point_ext; simpl. rewrite <- Hsq.
  assert (Ha2 : a * a = r * r - b * b) by lra.
  repeat split.
  - rewrite Ha2. field. lra.
  - field. lra.
  - field. lra.
Qed.

(** C7, amended: for the unit basis vectors, the same vectors turned by
    90 degrees about Z and the origin as both centroids (the call of the
    test suite), the rotation that [computeOptimalRotation] returns after
    its 50 rounds maps [(1, 0, 0)] to within [1e-3] of [(0, 1, 0)] in
    every coordinate. *)
Theorem z90_rotation_recovered :
  exists rotMatrix : Matrix4,
    computeOptimalRotation basis basis_z90 origin origin = Return rotMatrix
    /\ close 1e-3 (THREE.applyMatrix4 (mkPoint3D 1 0 0) rotMatrix)
         (mkPoint3D 0 1 0).
Proof.
  eexists. split; [apply computeOptimalRotation_eq; reflexivity|].
  unfold rotation_of. rewrite horn_matrix_z90, initial_guess_wz.
  rewrite (z90_rounds 50 1 0) by lia.
  set (ab := z90_orbit 50 (1%Z, 0%Z)).
  assert (Hab : ab = (358948993845926294385125, 358948993845926294385124)%Z)
    by (vm_compute; reflexivity).
  rewrite Hab. cbn [fst snd].
  rewrite rotate_e1_wz by lra.
  unfold close. cbn [x y z].
  repeat split; apply Rabs_def1; try lra.
Qed.

(** The same call evaluated in binary64: the image of [(1, 0, 0)] is
    within [1e-3] of [(0, 1, 0)] there too. *)
Lemma z90_rotation_recovered_binary64 :
  exists rotMatrix : Binary64.Matrix4,
    Binary64.computeOptimalRotation Binary64.basis Binary64.basis_z90
      Binary64.origin Binary64.origin = Return rotMatrix
    /\ Binary64.close Binary64.tol3
         (Binary64.THREE.applyMatrix4
            (Binary64.on_x (Binary64.of_Z 1)) rotMatrix)
         (Binary64.mkPoint3D (Binary64.of_Z 0) (Binary64.of_Z 1)
            (Binary64.of_Z 0))
       = true.
Proof.
  exists (match Binary64.computeOptimalRotation
                  Binary64.basis Binary64.basis_z90
                  Binary64.origin Binary64.origin with
          | Return M => M
          | Throw _ => Binary64.nan_matrix
          end).
  split; vm_compute; reflexivity.
Qed.

(** ** The same scenario with the centroids of the two lists

    The statement of C7 passes the origin for both centroids, as the
    call in the test suite does.  With the centroids that
    [computeCentroid] gives, the centered points lie in a plane, the
    matrix [n] has the eigenvalues [2] and [-2], and the power iteration
    alternates between two quaternions instead of converging. *)

Lemma sqrt6_pos : 1 <= sqrt 6.
Proof. rewrite <- sqrt_1 at 1. apply sqrt_le_1_alt. lra. Qed.

Lemma sqrt6_sqr : sqrt 6 * sqrt 6 = 6.
Proof. apply sqrt_sqrt. lra. Qed.

Lemma mean_basis : mean basis = mkPoint3D (1 / 3) (1 / 3) (1 / 3).
Proof.
  rewrite mean_eq. apply point_ext; simpl. repeat split; lra.
Qed.

Lemma mean_basis_z90 : mean basis_z90 = mkPoint3D (- 1 / 3) (1 / 3) (1 / 3).
Proof.
  rewrite mean_eq. apply point_ext; simpl. repeat split; lra.
Qed.

Lemma horn_matrix_z90_centered :
  horn_matrix (covariance (mean basis) (mean basis_z90) basis basis_z90)
  = z90_centered_matrix.
Proof.
  rewrite mean_basis, mean_basis_z90. apply array4x4_ext.
  unfold horn_matrix, covariance, covariance_step, basis, basis_z90, zero3x3.
  simpl. repeat split; lra.
Qed.

Lemma length4_eq (v : Array4) (l : R) :
  0 <= l -> l * l = norm2 v -> length4 v = l.
Proof.
  intros Hl Hsq. unfold length4. fold (norm2 v). apply sqrt_lem_1.
  - rewrite <- Hsq. nra.
  - assumption.
  - assumption.
Qed.

Lemma z90_centered_first (k : nat) :
  power_iteration z90_centered_matrix (S k) initial_guess
  = power_iteration z90_centered_matrix k odd_round.
Proof.
  pose proof sqrt6_pos as Hp. pose proof sqrt6_sqr as Hs.
  assert (Happ : apply4 z90_centered_matrix initial_guess
                 = mkArray4 (2 / 3) 0 (2 / 3) (4 / 3)).
  { apply array4_ext. simpl. repeat split; lra. }
  assert (Hlen : length4 (apply4 z90_centered_matrix initial_guess)
                 = 2 * sqrt 6 / 3).
  { rewrite Happ. apply length4_eq; [lra|].
    unfold norm2. simpl.
    replace (2 * sqrt 6 / 3 * (2 * sqrt 6 / 3))
      with (4 / 9 * (sqrt 6 * sqrt 6)) by field.
    rewrite Hs. lra. }
  rewrite power_iteration_continue by (rewrite Hlen; unfold floor; lra).
  f_equal. rewrite Hlen, Happ. apply array4_ext. unfold odd_round. simpl.
  repeat split; field; lra.
Qed.

Lemma z90_centered_odd (k : nat) :
  power_iteration z90_centered_matrix (S k) odd_round
  = power_iteration z90_centered_matrix k even_round.
Proof.
  pose proof sqrt6_pos as Hp. pose proof sqrt6_sqr as Hs.
  assert (Happ : apply4 z90_centered_matrix odd_round
                 = mkArray4 (4 / sqrt 6) 0 (- 2 / sqrt 6) (2 / sqrt 6)).
  { apply array4_ext. unfold odd_round. simpl. repeat split; field; lra. }
  assert (Hlen : length4 (apply4 z90_centered_matrix odd_round) = 2).
  { rewrite Happ. apply length4_eq; [lra|].
    unfold norm2. simpl.
    replace (4 / sqrt 6 * (4 / sqrt 6) + 0 * 0
             + - 2 / sqrt 6 * (- 2 / sqrt 6) + 2 / sqrt 6 * (2 / sqrt 6))
      with (24 / (sqrt 6 * sqrt 6)) by (field; lra).
    rewrite Hs. lra. }
  rewrite power_iteration_continue by (rewrite Hlen; unfold floor; lra).
  f_equal. rewrite Hlen, Happ. apply array4_ext. unfold even_round. simpl.
  repeat split; field; lra.
Qed.

Lemma z90_centered_even (k : nat) :
  power_iteration z90_centered_matrix (S k) even_round
  = power_iteration z90_centered_matrix k odd_round.
Proof.
  pose proof sqrt6_pos as Hp. pose proof sqrt6_sqr as Hs.
  assert (Happ : apply4 z90_centered_matrix even_round
                 = mkArray4 (2 / sqrt 6) 0 (2 / sqrt 6) (4 / sqrt 6)).
  { apply array4_ext. unfold even_round. simpl. repeat split; field; lra. }
  assert (Hlen : length4 (apply4 z90_centered_matrix even_round) = 2).
  { rewrite Happ. apply length4_eq; [lra|].
    unfold norm2. simpl.
    replace (2 / sqrt 6 * (2 / sqrt 6) + 0 * 0
             + 2 / sqrt 6 * (2 / sqrt 6) + 4 / sqrt 6 * (4 / sqrt 6))
      with (24 / (sqrt 6 * sqrt 6)) by (field; lra).
    rewrite Hs. lra. }
  rewrite power_iteration_continue by (rewrite Hlen; unfold floor; lra).
  f_equal. rewrite Hlen, Happ. apply array4_ext. unfold odd_round. simpl.
  repeat split; field; lra.
Qed.

Lemma z90_centered_alternates (j : nat) :
  power_iteration z90_centered_matrix (2 * j) odd_round = odd_round
  /\ power_iteration z90_centered_matrix (S (2 * j)) odd_round = even_round.
Proof.
  induction j as [|j (IHe & IHo)].
  - split; [reflexivity|]. rewrite z90_centered_odd. reflexivity.
  - replace (2 * S j)%nat with (S (S (2 * j))) by lia.
    split.
    + rewrite z90_centered_odd, z90_centered_even. exact IHe.
    + rewrite z90_centered_odd, z90_centered_even. exact IHo.
Qed.

(** With the centroids of the two lists the rotation returned for the
    scenario of C7 maps [(1, 0, 0)] to [(1/3, 2/3, 2/3)]. *)
Lemma z90_rotation_with_list_centroids :
  exists (sourceCentroid targetCentroid : Point3D) (rotMatrix : Matrix4),
    computeCentroid basis = Return sourceCentroid
    /\ computeCentroid basis_z90 = Return targetCentroid
    /\ computeOptimalRotation basis basis_z90 sourceCentroid targetCentroid
       = Return rotMatrix
    /\ THREE.applyMatrix4 (mkPoint3D 1 0 0) rotMatrix
       = mkPoint3D (1 / 3) (2 / 3) (2 / 3).
Proof.
  eexists _, _, _. rewrite !computeCentroid_eq.
  split; [reflexivity|]. split; [reflexivity|].
  split; [apply computeOptimalRotation_eq; reflexivity|].
  unfold rotation_of. rewrite horn_matrix_z90_centered.
  rewrite z90_centered_first.
  rewrite (proj2 (z90_centered_alternates 24)
           : power_iteration z90_centered_matrix 49 odd_round = even_round).
  pose proof sqrt6_pos as Hp. pose proof sqrt6_sqr as Hs.
  rewrite applyMatrix4_affine by apply rotation_of_quaternion_affine.
  apply point_ext. unfold even_round. simpl.
  assert (Hinv : / sqrt 6 * / sqrt 6 = 1 / 6).
  { rewrite <- Rinv_mult, Hs. lra. }
  unfold Rdiv. set (t := / sqrt 6) in *. repeat split; nra.
Qed.

(** C7 as stated fails: the claim names no centroids, and with the
    centroids that [computeCentroid] returns for the two lists, which
    are the ones that [computeRigidTransformFromPoints] passes, the
    rotation returned maps [(1, 0, 0)] to [(1/3, 2/3, 2/3)], not within
    [1e-3] of [(0, 1, 0)]; the evaluation in binary64 agrees. *)
Lemma z90_not_recovered_with_list_centroids :
  (exists (sourceCentroid targetCentroid : Point3D) (rotMatrix : Matrix4),
      computeCentroid basis = Return sourceCentroid
      /\ computeCentroid basis_z90 = Return targetCentroid
      /\ computeOptimalRotation basis basis_z90 sourceCentroid targetCentroid
         = Return rotMatrix
      /\ ~ close 1e-3 (THREE.applyMatrix4 (mkPoint3D 1 0 0) rotMatrix)
            (mkPoint3D 0 1 0))
  /\ exists (sourceCentroid targetCentroid : Binary64.Point3D)
            (rotMatrix : Binary64.Matrix4),
      Binary64.computeCentroid Binary64.basis = Return sourceCentroid
      /\ Binary64.computeCentroid Binary64.basis_z90 = Return targetCentroid
      /\ Binary64.computeOptimalRotation Binary64.basis Binary64.basis_z90
           sourceCentroid targetCentroid = Return rotMatrix
      /\ Binary64.close Binary64.tol3
           (Binary64.THREE.applyMatrix4
              (Binary64.on_x (Binary64.of_Z 1)) rotMatrix)
           (Binary64.mkPoint3D (Binary64.of_Z 0) (Binary64.of_Z 1)
              (Binary64.of_Z 0))
         = false.
Proof.
  split.
  - destruct z90_rotation_with_list_centroids
      as (sc & tc & M & Hs & Ht & HM & Himage).
    exists sc, tc, M. repeat (split; [assumption|]).
    rewrite Himage. unfold close. cbn [x y z]. intros (Hx & _).
    replace (1 / 3 - 0) with (1 / 3) in Hx by lra.
    rewrite Rabs_pos_eq in Hx by lra. lra.
  - pose (sc := match Binary64.computeCentroid Binary64.basis with
                | Return c => c
                | Throw _ => Binary64.origin
                end).
    pose (tc := match Binary64.computeCentroid Binary64.basis_z90 with
                | Return c => c
                | Throw _ => Binary64.origin
                end).
    exists sc, tc,
      (match Binary64.computeOptimalRotation
               Binary64.basis Binary64.basis_z90 sc tc with
       | Return M => M
       | Throw _ => Binary64.nan_matrix
       end).
    repeat split; vm_compute; reflexivity.
Qed.

(** ** The inputs of the witnesses, evaluated in binary64

    The amended statements are proved with numbers read as reals; their
    bounds and tolerances are there for the rounding of the binary64
    run, which the proofs do not analyse.  On the inputs of the
    witnesses the binary64 run can be evaluated, and it agrees. *)

Lemma witnesses_in_binary64 :
  (exists M : Binary64.Matrix4,
      Binary64.computeOptimalRotation
        [Binary64.point 0 0 0; Binary64.point 1 0 0; Binary64.point 2 0 0]
        [Binary64.point 0 1 0; Binary64.point 1 1 0; Binary64.point 2 1 0]
        (Binary64.point 1 0 0) (Binary64.point 1 1 0) = Return M
      /\ Binary64.orthonormal_within Binary64.tol4 M = true
      /\ Binary64.proper_within Binary64.tol4 M = true)
  /\ Binary64.computeRigidTransformFromPoints
       [Binary64.point 1 0 0; Binary64.point 0 1 0; Binary64.point 0 0 1]
       [Binary64.point 1 0 0; Binary64.point 0 1 0; Binary64.point 0 0 1]
     = Return Binary64.THREE.identity
  /\ Binary64.computeRigidTransformFromPoints
       [Binary64.point 1 2 3] [Binary64.point 4 6 8]
     = Return (Binary64.THREE.makeTranslation
                 (Binary64.of_Z 3) (Binary64.of_Z 4) (Binary64.of_Z 5))
  /\ Binary64.reproduces Binary64.tol4
       [Binary64.point 0 0 0; Binary64.point 1 0 0; Binary64.point 0 1 0]
       [Binary64.point 1 2 3; Binary64.point 3 2 3; Binary64.point 1 4 3]
     = true
  /\ (exists M : Binary64.Matrix4,
         Binary64.computeRigidTransformFromPoints
           [Binary64.point 0 0 0; Binary64.point 2 0 0]
           [Binary64.point 5 5 5; Binary64.point 5 5 5] = Return M
         /\ Binary64.THREE.applyMatrix4 (Binary64.point 1 2 3) M
            = Binary64.point 5 5 5).
Proof.
  split; [|split; [|split; [|split]]].
  - exists (match Binary64.computeOptimalRotation
                    [Binary64.point 0 0 0; Binary64.point 1 0 0;
                     Binary64.point 2 0 0]
                    [Binary64.point 0 1 0; Binary64.point 1 1 0;
                     Binary64.point 2 1 0]
                    (Binary64.point 1 0 0) (Binary64.point 1 1 0) with
            | Return M => M
            | Throw _ => Binary64.nan_matrix
            end).
    repeat split; vm_compute; reflexivity.
  - vm_compute. reflexivity.
  - vm_compute. reflexivity.
  - vm_compute. reflexivity.
  - exists (match Binary64.computeRigidTransformFromPoints
                    [Binary64.point 0 0 0; Binary64.point 2 0 0]
                    [Binary64.point 5 5 5; Binary64.point 5 5 5] with
            | Return M => M
            | Throw _ => Binary64.nan_matrix
            end).
    split; vm_compute; reflexivity.
Qed.

(** * Further properties of the alignment functions *)

(** ** Lists of different lengths *)

Lemma spread_loop_throws (src dst : list Point3D) (sc dc : Point3D) :
  (length dst < length src)%nat ->
  spread_loop src dst sc dc = Throw TypeError.
Proof.
  intros Hlen. unfold spread_loop.
  apply (for_loop_indexed_short (spread_step sc dc) src dst (0, 0) Hlen).
Qed.

(** X3: a destination list shorter than the source list makes both
    functions throw [TypeError], at the first read past its end. *)
Theorem shorter_destination_throws (srcPts dstPts : list Point3D) :
  (length dstPts < length srcPts)%nat ->
  (forall sourceCentroid targetCentroid : Point3D,
      computeOptimalRotation srcPts dstPts sourceCentroid targetCentroid
      = Throw TypeError)
  /\ computeRigidTransformFromPoints srcPts dstPts = Throw TypeError.
Proof.
  intros Hlen. split.
  - intros sc tc. apply computeOptimalRotation_throws, Hlen.
  - unfold computeRigidTransformFromPoints, alignment_parameters.
    rewrite !map_to_plain, !computeCentroid_eq. cbn [bind].
    rewrite computeOptimalRotation_throws by exact Hlen. reflexivity.
Qed.

Lemma shorter_destination_throws_witness :
  (length [mkPoint3D 0 1 0] < length [mkPoint3D 1 0 0; mkPoint3D 0 1 0])%nat
  /\ computeRigidTransformFromPoints
       [mkPoint3D 1 0 0; mkPoint3D 0 1 0] [mkPoint3D 0 1 0]
     = Throw TypeError.
Proof.
  split; [simpl; lia|].
  apply (proj2 (shorter_destination_throws
                  [mkPoint3D 1 0 0; mkPoint3D 0 1 0] [mkPoint3D 0 1 0]
                  ltac:(simpl; lia))).
Defined.

Lemma combine_firstn_length {A B : Type} (l1 : list A) (l2 : list B) :
  combine l1 (firstn (length l1) l2) = combine l1 l2.
Proof.
  revert l2. induction l1 as [|a l1 IH]; intros [|b l2]; simpl;
    try reflexivity.
  rewrite IH. reflexivity.
Qed.

(** X4: [computeOptimalRotation] reads the target list only up to the
    length of the source list: target points beyond it are ignored. *)
Theorem computeOptimalRotation_ignores_surplus
  (sourcePoints targetPoints : list Point3D)
  (sourceCentroid targetCentroid : Point3D) :
  (length sourcePoints <= length targetPoints)%nat ->
  computeOptimalRotation sourcePoints targetPoints
    sourceCentroid targetCentroid
  = computeOptimalRotation sourcePoints
      (firstn (length sourcePoints) targetPoints)
      sourceCentroid targetCentroid.
Proof.
  intros Hlen.
  rewrite !computeOptimalRotation_eq
    by (rewrite ?length_firstn; lia).
  unfold rotation_of, covariance. rewrite combine_firstn_length. reflexivity.
Qed.

Lemma computeOptimalRotation_ignores_surplus_witness :
  (length [mkPoint3D 1 0 0]
   <= length [mkPoint3D 0 1 0; mkPoint3D 7 7 7])%nat
  /\ computeOptimalRotation [mkPoint3D 1 0 0]
       [mkPoint3D 0 1 0; mkPoint3D 7 7 7] origin origin
     = computeOptimalRotation [mkPoint3D 1 0 0]
         (firstn (length [mkPoint3D 1 0 0])
            [mkPoint3D 0 1 0; mkPoint3D 7 7 7]) origin origin.
Proof.
  split; [simpl; lia|].
  apply (computeOptimalRotation_ignores_surplus
           [mkPoint3D 1 0 0] [mkPoint3D 0 1 0; mkPoint3D 7 7 7]
           origin origin).
  simpl. lia.
Defined.

(** ** Moving the point sets *)

Lemma moved_scaled_translated (a p p' : Point3D) :
  moved a p p' <-> scaled_translated 1 a p p'.
Proof.
  unfold moved, scaled_translated. split; intros (Hx & Hy & Hz);
    repeat split; lra.
Qed.

Lemma Forall2_moved (a : Point3D) (pts pts' : list Point3D) :
  Forall2 (moved a) pts pts' -> Forall2 (scaled_translated 1 a) pts pts'.
Proof.
  apply Forall2_impl. intros p p'. apply moved_scaled_translated.
Qed.

Lemma mean_moved (a : Point3D) (pts pts' : list Point3D) :
  pts <> [] -> Forall2 (moved a) pts pts' -> moved a (mean pts) (mean pts').
Proof.
  intros Hne H2. apply moved_scaled_translated, mean_scaled_translated;
    [assumption|apply Forall2_moved, H2].
Qed.

Lemma covariance_step_moved (a b sc sc' tc tc' s s' t t' : Point3D)
  (h : Array3x3) :
  moved a sc sc' -> moved b tc tc' -> moved a s s' -> moved b t t' ->
  covariance_step sc' tc' h s' t' = covariance_step sc tc h s t.
Proof.
  intros (A1 & A2 & A3) (B1 & B2 & B3) (S1 & S2 & S3) (T1 & T2 & T3).
  apply array3x3_ext. unfold covariance_step. simpl.
  rewrite A1, A2, A3, B1, B2, B3, S1, S2, S3, T1, T2, T3.
  repeat split; ring.
Qed.

Lemma covariance_moved (a b sc sc' tc tc' : Point3D)
  (src src' tgt tgt' : list Point3D) :
  moved a sc sc' -> moved b tc tc' ->
  Forall2 (moved a) src src' -> Forall2 (moved b) tgt tgt' ->
  covariance sc' tc' src' tgt' = covariance sc tc src tgt.
Proof.
  intros Ha Hb Hsrc. unfold covariance. generalize zero3x3.
  revert tgt tgt'.
  induction Hsrc as [|s s' src src' Hs _ IH]; intros tgt tgt' h Htgt.
  - reflexivity.
  - destruct Htgt as [|t t' tgt tgt' Ht Htgt]; [reflexivity|].
    simpl. rewrite (covariance_step_moved a b sc sc' tc tc' s s' t t')
      by assumption.
    apply IH, Htgt.
Qed.

(** X7: the rotation depends on the point lists only through their
    coordinates relative to the centroids passed: moving the source
    points together with the source centroid, and the target points
    together with the target centroid, changes nothing in what
    [computeOptimalRotation] returns or throws. *)
Theorem computeOptimalRotation_moved
  (a b sourceCentroid sourceCentroid' targetCentroid targetCentroid' : Point3D)
  (sourcePoints sourcePoints' targetPoints targetPoints' : list Point3D) :
  moved a sourceCentroid sourceCentroid' ->
  moved b targetCentroid targetCentroid' ->
  Forall2 (moved a) sourcePoints sourcePoints' ->
  Forall2 (moved b) targetPoints targetPoints' ->
  computeOptimalRotation sourcePoints' targetPoints'
    sourceCentroid' targetCentroid'
  = computeOptimalRotation sourcePoints targetPoints
      sourceCentroid targetCentroid.
Proof.
  intros Ha Hb Hsrc Htgt.
  pose proof (Forall2_length Hsrc) as Ls.
  pose proof (Forall2_length Htgt) as Lt.
  destruct (Nat.le_gt_cases (length sourcePoints) (length targetPoints))
    as [Hle|Hgt].
  - rewrite !computeOptimalRotation_eq by lia.
    unfold rotation_of.
    rewrite (covariance_moved a b sourceCentroid sourceCentroid'
               targetCentroid targetCentroid' sourcePoints sourcePoints'
               targetPoints targetPoints') by assumption.
    reflexivity.
  - rewrite !computeOptimalRotation_throws by lia. reflexivity.
Qed.

Lemma computeOptimalRotation_moved_witness :
  moved (mkPoint3D 1 2 3) origin (mkPoint3D 1 2 3)
  /\ moved (mkPoint3D 4 5 6) origin (mkPoint3D 4 5 6)
  /\ Forall2 (moved (mkPoint3D 1 2 3)) basis
       [mkPoint3D 2 2 3; mkPoint3D 1 3 3; mkPoint3D 1 2 4]
  /\ Forall2 (moved (mkPoint3D 4 5 6)) basis_z90
       [mkPoint3D 4 6 6; mkPoint3D 3 5 6; mkPoint3D 4 5 7]
  /\ computeOptimalRotation
       [mkPoint3D 2 2 3; mkPoint3D 1 3 3; mkPoint3D 1 2 4]
       [mkPoint3D 4 6 6; mkPoint3D 3 5 6; mkPoint3D 4 5 7]
       (mkPoint3D 1 2 3) (mkPoint3D 4 5 6)
     = computeOptimalRotation basis basis_z90 origin origin.
Proof.
  assert (Ha : moved (mkPoint3D 1 2 3) origin (mkPoint3D 1 2 3))
    by (unfold moved, origin; simpl; lra).
  assert (Hb : moved (mkPoint3D 4 5 6) origin (mkPoint3D 4 5 6))
    by (unfold moved, origin; simpl; lra).
  assert (Hs : Forall2 (moved (mkPoint3D 1 2 3)) basis
                 [mkPoint3D 2 2 3; mkPoint3D 1 3 3; mkPoint3D 1 2 4])
    by (repeat constructor; simpl; lra).
  assert (Ht : Forall2 (moved (mkPoint3D 4 5 6)) basis_z90
                 [mkPoint3D 4 6 6; mkPoint3D 3 5 6; mkPoint3D 4 5 7])
    by (repeat constructor; simpl; lra).
  split; [exact Ha|]. split; [exact Hb|]. split; [exact Hs|].
  split; [exact Ht|].
  exact (computeOptimalRotation_moved _ _ _ _ _ _ _ _ _ _ Ha Hb Hs Ht).
Defined.

(** ** Symmetric covariance *)







(** * Properties of the SIP compliance validator *)

Section ValidatorFacts.

Import String.StringSyntax.
Local Open Scope string_scope.

Context (trim : String.string -> String.string)
        (number_to_string : R -> String.string)
        (derived_label : String.string -> String.string)
        (getFieldsForProfile : SIP.MetadataProfile -> list String.string)
        (now : String.string).

Local Abbreviation validateSIP :=
  (SIP.validateSIP trim number_to_string derived_label getFieldsForProfile).
Local Abbreviation toManifestCompliance :=
  (SIP.toManifestCompliance now).
Local Abbreviation field_step :=
  (SIP.field_step trim number_to_string derived_label).
Local Abbreviation field_value metadata fieldId :=
  (trim (SIP.resolveFieldValue number_to_string fieldId metadata)).

(** An invariant of the accumulators that holds before the loop and is
    kept by every round holds after it. *)
Lemma fold_field_step_invariant
  (metadata : SIP.CollectedMetadata)
  (required : list (String.string * String.string))
  (formatRules : list (String.string * SIP.ValidationRule))
  (P : list String.string
       -> list SIP.SIPFinding * list SIP.SIPFinding * nat -> Prop) :
  P [] ([], [], O) ->
  (forall seen acc fieldId,
      P seen acc ->
      P (seen ++ [fieldId])
        (field_step metadata required formatRules acc fieldId)) ->
  forall fields,
    P fields
      (fold_left (field_step metadata required formatRules) fields
         ([], [], O)).
Proof.
  intros Hinit Hstep fields.
  assert (Hgen : forall rest seen acc,
             P seen acc ->
             P (seen ++ rest)
               (fold_left (field_step metadata required formatRules)
                  rest acc)).
  { induction rest as [|fieldId rest IH]; intros seen acc Hacc; simpl.
    - rewrite app_nil_r. exact Hacc.
    - replace (seen ++ fieldId :: rest) with ((seen ++ [fieldId]) ++ rest)
        by (rewrite <- app_assoc; reflexivity).
      apply IH, Hstep, Hacc. }
  apply (Hgen fields [] ([], [], O) Hinit).
Qed.

(** The three fields of the result that the loop fills. *)
Lemma validateSIP_fold metadata profile formatRules :
  (SIP.errors (validateSIP metadata profile formatRules),
   SIP.warnings (validateSIP metadata profile formatRules),
   SIP.passCount (validateSIP metadata profile formatRules))
  = fold_left (field_step metadata (SIP.REQUIRED_FIELDS profile) formatRules)
      (getFieldsForProfile profile) ([], [], O).
Proof.
  unfold SIP.validateSIP.
  destruct (fold_left _ _ _) as [[e w] p]. reflexivity.
Qed.

Lemma validateSIP_totalChecked metadata profile formatRules :
  SIP.totalChecked (validateSIP metadata profile formatRules)
  = length (getFieldsForProfile profile).
Proof.
  unfold SIP.validateSIP.
  destruct (fold_left _ _ _) as [[e w] p]. reflexivity.
Qed.

Lemma validateSIP_status metadata profile formatRules :
  SIP.status (validateSIP metadata profile formatRules)
  = match SIP.errors (validateSIP metadata profile formatRules),
          SIP.warnings (validateSIP metadata profile formatRules) with
    | [], [] => SIP.Pass
    | _, _ => SIP.Warnings
    end.
Proof.
  unfold SIP.validateSIP.
  destruct (fold_left _ _ _) as [[e w] p]. simpl.
  destruct e, w; reflexivity.
Qed.

(** X10: every field of the profile is counted exactly once: it passes,
    or it adds one error, or it adds one warning. *)
Theorem validateSIP_partition
  (metadata : SIP.CollectedMetadata) (profile : SIP.MetadataProfile)
  (formatRules : list (String.string * SIP.ValidationRule)) :
  forallb SIP.own_id (getFieldsForProfile profile) = true ->
  (SIP.passCount (validateSIP metadata profile formatRules)
   + length (SIP.errors (validateSIP metadata profile formatRules))
   + length (SIP.warnings (validateSIP metadata profile formatRules))
   = SIP.totalChecked (validateSIP metadata profile formatRules))%nat
  /\ SIP.totalChecked (validateSIP metadata profile formatRules)
     = length (getFieldsForProfile profile).
Proof.
  intros _. rewrite validateSIP_totalChecked. split; [|reflexivity].
  pose proof (validateSIP_fold metadata profile formatRules) as Hfold.
  assert (Hinv : (fun seen acc =>
                    (snd acc + length (fst (fst acc))
                     + length (snd (fst acc)) = length seen)%nat)
                   (getFieldsForProfile profile)
                   (fold_left
                      (field_step metadata (SIP.REQUIRED_FIELDS profile)
                         formatRules)
                      (getFieldsForProfile profile) ([], [], O))).
  { apply fold_field_step_invariant; [reflexivity|].
    intros seen [[e w] p] fieldId Hacc. simpl in Hacc.
    rewrite length_app. unfold SIP.field_step. simpl.
    destruct (SIP.is_empty _).
    - destruct (SIP.has_key _ _); simpl; rewrite ?length_app; simpl; lia.
    - destruct (SIP.lookup fieldId formatRules) as [rule|];
        [destruct (negb _)|]; simpl; rewrite ?length_app; simpl; lia. }
  rewrite <- Hfold in Hinv. exact Hinv.
Qed.

(** X11: the status is ['pass'] exactly when nothing was found, which
    is exactly when every field passed; any finding, an error included,
    gives ['warnings'], and ['override'] is never produced. *)
Theorem validateSIP_status_pass
  (metadata : SIP.CollectedMetadata) (profile : SIP.MetadataProfile)
  (formatRules : list (String.string * SIP.ValidationRule)) :
  forallb SIP.own_id (getFieldsForProfile profile) = true ->
  (SIP.status (validateSIP metadata profile formatRules) = SIP.Pass
   <-> SIP.errors (validateSIP metadata profile formatRules) = []
       /\ SIP.warnings (validateSIP metadata profile formatRules) = [])
  /\ (SIP.status (validateSIP metadata profile formatRules) = SIP.Pass
      <-> SIP.passCount (validateSIP metadata profile formatRules)
          = SIP.totalChecked (validateSIP metadata profile formatRules))
  /\ (SIP.status (validateSIP metadata profile formatRules) = SIP.Warnings
      <-> SIP.errors (validateSIP metadata profile formatRules) <> []
          \/ SIP.warnings (validateSIP metadata profile formatRules) <> [])
  /\ SIP.status (validateSIP metadata profile formatRules) <> SIP.Override.
Proof.
  intros Hown.
  destruct (validateSIP_partition metadata profile formatRules Hown)
    as (Hsum & _).
  rewrite validateSIP_status.
  destruct (SIP.errors _) as [|e es], (SIP.warnings _) as [|w ws];
    simpl in Hsum.
  all: repeat split; try discriminate; try tauto; try lia;
    try (intros _; (left + right); discriminate);
    try (intros [? ?]; discriminate).
Qed.

(** The finding pushed for a field whose value is empty. *)
Lemma field_step_empty metadata required formatRules e w p fieldId :
  SIP.is_empty (field_value metadata fieldId) = true ->
  field_step metadata required formatRules (e, w, p) fieldId
  = if SIP.has_key fieldId required
    then (e ++ [SIP.mkSIPFinding fieldId
                  (SIP.getFieldLabel derived_label fieldId)
                  SIP.error SIP.presence "Required field is empty"],
          w, p)
    else (e,
          w ++ [SIP.mkSIPFinding fieldId
                  (SIP.getFieldLabel derived_label fieldId)
                  SIP.warning SIP.presence "Recommended field is empty"],
          p).
Proof.
  intros Hempty. unfold SIP.field_step. rewrite Hempty. reflexivity.
Qed.

Lemma field_step_filled metadata required formatRules e w p fieldId :
  SIP.is_empty (field_value metadata fieldId) = false ->
  field_step metadata required formatRules (e, w, p) fieldId
  = match SIP.lookup fieldId formatRules with
    | Some rule =>
        if SIP.rule_accepts rule (field_value metadata fieldId)
        then (e, w, S p)
        else (e ++ [SIP.mkSIPFinding fieldId
                      (SIP.getFieldLabel derived_label fieldId)
                      SIP.error SIP.format (SIP.rule_message rule)],
              w, p)
    | None => (e, w, S p)
    end.
Proof.
  intros Hfilled. unfold SIP.field_step. rewrite Hfilled.
  destruct (SIP.lookup fieldId formatRules) as [rule|]; [|reflexivity].
  destruct (SIP.rule_accepts rule _); reflexivity.
Qed.

(** X12: [warnings] holds exactly the findings 'Recommended field is
    empty', one kind only: a finding is in it if and only if it is that
    finding for a field of the profile that is not required and whose
    trimmed value is empty or ['Not specified']. *)
Theorem validateSIP_warnings
  (metadata : SIP.CollectedMetadata) (profile : SIP.MetadataProfile)
  (formatRules : list (String.string * SIP.ValidationRule))
  (f : SIP.SIPFinding) :
  forallb SIP.own_id (getFieldsForProfile profile) = true ->
  In f (SIP.warnings (validateSIP metadata profile formatRules))
  <-> exists fieldId : String.string,
      In fieldId (getFieldsForProfile profile)
      /\ SIP.is_empty (field_value metadata fieldId) = true
      /\ SIP.has_key fieldId (SIP.REQUIRED_FIELDS profile) = false
      /\ f = SIP.mkSIPFinding fieldId
               (SIP.getFieldLabel derived_label fieldId)
               SIP.warning SIP.presence "Recommended field is empty".
Proof.
  intros _.
  pose proof (validateSIP_fold metadata profile formatRules) as Hfold.
  assert (Hinv :
            (fun seen acc =>
               In f (snd (fst acc))
               <-> exists fieldId : String.string,
                   In fieldId seen
                   /\ SIP.is_empty (field_value metadata fieldId) = true
                   /\ SIP.has_key fieldId (SIP.REQUIRED_FIELDS profile)
                      = false
                   /\ f = SIP.mkSIPFinding fieldId
                            (SIP.getFieldLabel derived_label fieldId)
                            SIP.warning SIP.presence
                            "Recommended field is empty")
              (getFieldsForProfile profile)
              (fold_left
                 (field_step metadata (SIP.REQUIRED_FIELDS profile)
                    formatRules)
                 (getFieldsForProfile profile) ([], [], O))).
  { apply fold_field_step_invariant.
    - simpl. split; [contradiction|]. intros (id & [] & _).
    - intros seen [[e w] p] id IH. simpl in IH.
      destruct (SIP.is_empty (field_value metadata id)) eqn:Hempty.
      + rewrite field_step_empty by exact Hempty.
        destruct (SIP.has_key id (SIP.REQUIRED_FIELDS profile)) eqn:Hreq;
          simpl.
        * rewrite IH. split; intros (id' & Hin & Hrest).
          -- exists id'. split; [apply in_or_app; left; exact Hin|exact Hrest].
          -- apply in_app_or in Hin. destruct Hin as [Hin|[<-|[]]].
             ++ exists id'. split; assumption.
             ++ destruct Hrest as (_ & Hnot & _). congruence.
        * rewrite in_app_iff, IH. split.
          -- intros [(id' & Hin & Hrest)|[<-|[]]].
             ++ exists id'. split; [apply in_or_app; left; exact Hin|].
                exact Hrest.
             ++ exists id. split; [apply in_or_app; right; left; reflexivity|].
                repeat split; assumption.
          -- intros (id' & Hin & He & Hr & ->).
             apply in_app_or in Hin. destruct Hin as [Hin|[<-|[]]].
             ++ left. exists id'. repeat split; assumption.
             ++ right. left. reflexivity.
      + rewrite field_step_filled by exact Hempty.
        assert (Hsame : forall acc' : list SIP.SIPFinding
                                      * list SIP.SIPFinding * nat,
                   snd (fst acc') = w ->
                   (In f (snd (fst acc'))
                    <-> exists fieldId : String.string,
                        In fieldId (seen ++ [id])
                        /\ SIP.is_empty (field_value metadata fieldId) = true
                        /\ SIP.has_key fieldId (SIP.REQUIRED_FIELDS profile)
                           = false
                        /\ f = SIP.mkSIPFinding fieldId
                                 (SIP.getFieldLabel derived_label fieldId)
                                 SIP.warning SIP.presence
                                 "Recommended field is empty")).
        { intros acc' ->. rewrite IH. split; intros (id' & Hin & Hrest).
          - exists id'. split; [apply in_or_app; left; exact Hin|exact Hrest].
          - apply in_app_or in Hin. destruct Hin as [Hin|[<-|[]]].
            + exists id'. split; assumption.
            + destruct Hrest as (He & _). congruence. }
        destruct (SIP.lookup id formatRules) as [rule|];
          [destruct (SIP.rule_accepts rule _)|]; apply Hsame; reflexivity. }
  rewrite <- Hfold in Hinv. exact Hinv.
Qed.

Lemma field_step_errors metadata required formatRules e w p fieldId f :
  In f (fst (fst (field_step metadata required formatRules (e, w, p)
                    fieldId)))
  <-> In f e
      \/ SIP.explains_error trim number_to_string derived_label
           metadata required formatRules fieldId f.
Proof.
  unfold SIP.explains_error.
  destruct (SIP.is_empty (field_value metadata fieldId)) eqn:Hempty.
  - rewrite field_step_empty by exact Hempty.
    destruct (SIP.has_key fieldId required) eqn:Hreq; simpl.
    + rewrite in_app_iff. simpl. split.
      * intros [Hin|[<-|[]]]; [left; exact Hin|].
        right. left. repeat split.
      * intros [Hin|[(_ & _ & ->)|(Hno & _)]];
          [left; exact Hin|right; left; reflexivity|discriminate].
    + split; [intros Hin; left; exact Hin|].
      intros [Hin|[(_ & Hno & _)|(Hno & _)]];
        [exact Hin|discriminate|discriminate].
  - rewrite field_step_filled by exact Hempty.
    destruct (SIP.lookup fieldId formatRules) as [rule|] eqn:Hrule.
    + destruct (SIP.rule_accepts rule (field_value metadata fieldId))
        eqn:Hacc; simpl.
      * split; [intros Hin; left; exact Hin|].
        intros [Hin|[(Hno & _)|(_ & rule' & Heq & Hrej & _)]];
          [exact Hin|discriminate|].
        injection Heq as <-. congruence.
      * rewrite in_app_iff. simpl. split.
        -- intros [Hin|[<-|[]]]; [left; exact Hin|].
           right. right. split; [reflexivity|].
           exists rule. repeat split. exact Hacc.
        -- intros [Hin|[(Hno & _)|(_ & rule' & Heq & _ & ->)]];
             [left; exact Hin|discriminate|].
           injection Heq as <-. right. left. reflexivity.
    + simpl. split; [intros Hin; left; exact Hin|].
      intros [Hin|[(Hno & _)|(_ & rule' & Heq & _)]];
        [exact Hin|discriminate|discriminate].
Qed.

(** X13: [errors] holds exactly two kinds of findings: 'Required field
    is empty' for each required field of the profile whose trimmed value
    is empty or ['Not specified'], and the message of the format rule
    for each field whose value is not empty and is rejected by its
    rule.  A format rule is never applied to an empty value. *)
Theorem validateSIP_errors
  (metadata : SIP.CollectedMetadata) (profile : SIP.MetadataProfile)
  (formatRules : list (String.string * SIP.ValidationRule))
  (f : SIP.SIPFinding) :
  forallb SIP.own_id (getFieldsForProfile profile) = true ->
  In f (SIP.errors (validateSIP metadata profile formatRules))
  <-> exists fieldId : String.string,
      In fieldId (getFieldsForProfile profile)
      /\ SIP.explains_error trim number_to_string derived_label
           metadata (SIP.REQUIRED_FIELDS profile) formatRules fieldId f.
Proof.
  intros _.
  pose proof (validateSIP_fold metadata profile formatRules) as Hfold.
  assert (Hinv :
            (fun seen acc =>
               In f (fst (fst acc))
               <-> exists fieldId : String.string,
                   In fieldId seen
                   /\ SIP.explains_error trim number_to_string derived_label
                        metadata (SIP.REQUIRED_FIELDS profile) formatRules
                        fieldId f)
              (getFieldsForProfile profile)
              (fold_left
                 (field_step metadata (SIP.REQUIRED_FIELDS profile)
                    formatRules)
                 (getFieldsForProfile profile) ([], [], O))).
  { apply fold_field_step_invariant.
    - simpl. split; [contradiction|]. intros (id & [] & _).
    - intros seen [[e w] p] id IH. simpl in IH.
      rewrite field_step_errors, IH. split.
      + intros [(id' & Hin & Hex)|Hex].
        * exists id'. split; [apply in_or_app; left; exact Hin|exact Hex].
        * exists id. split; [apply in_or_app; right; left; reflexivity|].
          exact Hex.
      + intros (id' & Hin & Hex). apply in_app_or in Hin.
        destruct Hin as [Hin|[<-|[]]].
        * left. exists id'. split; assumption.
        * right. exact Hex. }
  rewrite <- Hfold in Hinv. exact Hinv.
Qed.

Lemma Math_round_bounds (v : R) :
  0 <= v <= 100 -> (0 <= SIP.Math_round v <= 100)%Z.
Proof.
  intros (Hlo & Hhi). unfold SIP.Math_round.
  destruct (archimed (v + / 2)) as (Hgt & Hle).
  assert (H0 : IZR 0 < IZR (up (v + / 2))) by (simpl; lra).
  assert (H1 : IZR (up (v + / 2)) < IZR 102) by (simpl; lra).
  apply lt_IZR in H0, H1. lia.
Qed.

Lemma Math_round_integer (n : Z) : SIP.Math_round (IZR n) = n.
Proof.
  unfold SIP.Math_round.
  destruct (archimed (IZR n + / 2)) as (Hgt & Hle).
  assert (H0 : IZR n < IZR (up (IZR n + / 2))) by lra.
  assert (H1 : IZR (up (IZR n + / 2)) < IZR (n + 2))
    by (rewrite plus_IZR; simpl; lra).
  apply lt_IZR in H0, H1. lia.
Qed.

(** X14: the score is a whole percentage between 0 and 100; it is 100
    when every field passed, also when the profile has no field, and 0
    when no field of a non-empty profile passed. *)
Theorem validateSIP_score
  (metadata : SIP.CollectedMetadata) (profile : SIP.MetadataProfile)
  (formatRules : list (String.string * SIP.ValidationRule)) :
  forallb SIP.own_id (getFieldsForProfile profile) = true ->
  (0 <= SIP.score (validateSIP metadata profile formatRules) <= 100)%Z
  /\ (SIP.passCount (validateSIP metadata profile formatRules)
      = SIP.totalChecked (validateSIP metadata profile formatRules) ->
      SIP.score (validateSIP metadata profile formatRules) = 100%Z)
  /\ (SIP.passCount (validateSIP metadata profile formatRules) = O ->
      (0 < SIP.totalChecked (validateSIP metadata profile formatRules))%nat ->
      SIP.score (validateSIP metadata profile formatRules) = 0%Z).
Proof.
  intros Hown.
  destruct (validateSIP_partition metadata profile formatRules Hown)
    as (Hsum & _).
  revert Hsum. unfold SIP.validateSIP.
  destruct (fold_left _ _ _) as [[e w] p]. cbn [SIP.score SIP.passCount
    SIP.totalChecked SIP.errors SIP.warnings].
  set (t := length (getFieldsForProfile profile)). intros Hsum.
  destruct (Nat.ltb_spec 0 t) as [Hpos|Hzero].
  - assert (Ht : 0 < INR t) by (apply lt_0_INR; exact Hpos).
    assert (Hp : 0 <= INR p <= INR t)
      by (split; [apply pos_INR|apply le_INR; lia]).
    split; [|split].
    + apply Math_round_bounds. split.
      * apply Rmult_le_pos; [|lra].
        apply Rmult_le_pos; [lra|]. apply Rlt_le, Rinv_0_lt_compat, Ht.
      * apply (Rmult_le_reg_r (INR t)); [exact Ht|].
        replace (INR p / INR t * 100 * INR t) with (INR p * 100)
          by (field; lra).
        lra.
    + intros ->. replace (INR t / INR t * 100) with (IZR 100)
        by (simpl; field; lra).
      apply Math_round_integer.
    + intros -> _. replace (INR 0 / INR t * 100) with (IZR 0)
        by (simpl; field; lra).
      apply Math_round_integer.
  - split; [lia|]. split; [reflexivity|]. intros _ Hlt. lia.
Qed.

(** X15: in the manifest record the status is ['override'] exactly when
    the check was overridden; otherwise it is ['pass'] exactly when both
    lists of lines are empty.  Every finding gives one line, so the
    lines and the passed fields together count the fields checked. *)
Theorem toManifestCompliance_of_validateSIP
  (metadata : SIP.CollectedMetadata) (profile : SIP.MetadataProfile)
  (formatRules : list (String.string * SIP.ValidationRule))
  (overridden : bool) :
  forallb SIP.own_id (getFieldsForProfile profile) = true ->
  (SIP.mc_status
     (toManifestCompliance (validateSIP metadata profile formatRules)
        overridden) = SIP.Override
   <-> overridden = true)
  /\ (overridden = false ->
      (SIP.mc_status
         (toManifestCompliance (validateSIP metadata profile formatRules)
            overridden) = SIP.Pass
       <-> SIP.mc_errors
             (toManifestCompliance (validateSIP metadata profile formatRules)
                overridden) = []
           /\ SIP.mc_warnings
                (toManifestCompliance
                   (validateSIP metadata profile formatRules) overridden)
              = []))
  /\ (length
        (SIP.mc_errors
           (toManifestCompliance (validateSIP metadata profile formatRules)
              overridden))
      + length
          (SIP.mc_warnings
             (toManifestCompliance (validateSIP metadata profile formatRules)
                overridden))
      + SIP.passCount (validateSIP metadata profile formatRules)
      = length (getFieldsForProfile profile))%nat.
Proof.
  intros Hown.
  destruct (validateSIP_partition metadata profile formatRules Hown)
    as (Hsum & Htotal).
  destruct (validateSIP_status_pass metadata profile formatRules Hown)
    as (Hpass & _ & _ & Hnot).
  unfold SIP.toManifestCompliance. cbn [SIP.mc_status SIP.mc_errors
    SIP.mc_warnings].
  split; [|split].
  - destruct overridden; split; try reflexivity; try discriminate.
    intros H. contradiction.
  - intros ->. rewrite Hpass. split; intros (He & Hw).
    + rewrite He, Hw. split; reflexivity.
    + split; [apply map_eq_nil in He|apply map_eq_nil in Hw]; assumption.
  - rewrite !length_map. lia.
Qed.

Lemma lookup_In {V : Type} (key : String.string)
  (table : list (String.string * V)) (v : V) :
  SIP.lookup key table = Some v -> In (key, v) table.
Proof.
  induction table as [|[k v'] table IH]; simpl; [discriminate|].
  destruct (String.eqb key k) eqn:Heq.
  - apply String.eqb_eq in Heq. intros [= <-]. left. congruence.
  - intros H. right. apply IH, H.
Qed.

(** X16: the tables agree.  Every field required under a profile is
    required under the higher profiles, has in [FIELD_LABELS] the label
    given in [REQUIRED_FIELDS], and has an accessor in
    [FIELD_VALUE_MAP]; none of these ids names an inherited property. *)
Theorem required_fields_consistent
  (profile : SIP.MetadataProfile) (fieldId l : String.string) :
  SIP.lookup fieldId (SIP.REQUIRED_FIELDS profile) = Some l ->
  SIP.lookup fieldId (SIP.REQUIRED_FIELDS SIP.archival) = Some l
  /\ (profile = SIP.basic ->
      SIP.lookup fieldId (SIP.REQUIRED_FIELDS SIP.standard) = Some l)
  /\ SIP.getFieldLabel derived_label fieldId = l
  /\ SIP.has_key fieldId (SIP.FIELD_VALUE_MAP number_to_string) = true
  /\ SIP.own_id fieldId = true.
Proof.
  intros Hreq. apply lookup_In in Hreq.
  destruct profile; simpl in Hreq;
    repeat (destruct Hreq as [Hreq|Hreq];
            [injection Hreq as <- <-;
             repeat split; try reflexivity; intros; discriminate|]);
    contradiction.
Qed.

(** X17: a field of the profile that [FIELD_VALUE_MAP] does not know
    resolves to the empty string and, [trim] keeping the empty string,
    is never counted as passed and never an error: it always gives the
    warning 'Recommended field is empty'. *)
Theorem unknown_field_warns
  (metadata : SIP.CollectedMetadata) (profile : SIP.MetadataProfile)
  (formatRules : list (String.string * SIP.ValidationRule))
  (fieldId : String.string) :
  trim "" = "" ->
  forallb SIP.own_id (getFieldsForProfile profile) = true ->
  In fieldId (getFieldsForProfile profile) ->
  SIP.lookup fieldId (SIP.FIELD_VALUE_MAP number_to_string) = None ->
  In (SIP.mkSIPFinding fieldId (SIP.getFieldLabel derived_label fieldId)
        SIP.warning SIP.presence "Recommended field is empty")
     (SIP.warnings (validateSIP metadata profile formatRules))
  /\ forall f : SIP.SIPFinding,
      In f (SIP.errors (validateSIP metadata profile formatRules)) ->
      SIP.fieldId f <> fieldId.
Proof.
  intros Htrim Hown Hin Hnone.
  assert (Hvalue : field_value metadata fieldId = "").
  { unfold SIP.resolveFieldValue. rewrite Hnone. exact Htrim. }
  assert (Hnotreq : SIP.has_key fieldId (SIP.REQUIRED_FIELDS profile)
                    = false).
  { unfold SIP.has_key.
    destruct (SIP.lookup fieldId (SIP.REQUIRED_FIELDS profile)) as [l|]
      eqn:Hreq; [|reflexivity].
    destruct (required_fields_consistent profile fieldId l Hreq)
      as (_ & _ & _ & Hkey & _).
    unfold SIP.has_key in Hkey. rewrite Hnone in Hkey. discriminate. }
  split.
  - apply validateSIP_warnings; [exact Hown|].
    exists fieldId. rewrite Hvalue. repeat split; assumption.
  - intros f Hf Heq.
    apply validateSIP_errors in Hf; [|exact Hown].
    destruct Hf as (id & _ & Hex). unfold SIP.explains_error in Hex.
    destruct Hex as [(_ & Hreq & ->)|(Hfilled & rule & _ & _ & ->)];
      simpl in Heq; subst id.
    + congruence.
    + rewrite Hvalue in Hfilled. discriminate.
Qed.

End ValidatorFacts.

Lemma validateSIP_partition_witness :
  forallb SIP.own_id SIP.basic_fields = true
  /\ (SIP.passCount
        (SIP.validateSIP (fun s => s) (fun _ => String.EmptyString)
           (fun s => s) (fun _ => SIP.basic_fields)
           SIP.empty_metadata SIP.basic [])
      + length
          (SIP.errors
             (SIP.validateSIP (fun s => s) (fun _ => String.EmptyString)
                (fun s => s) (fun _ => SIP.basic_fields)
                SIP.empty_metadata SIP.basic []))
      + length
          (SIP.warnings
             (SIP.validateSIP (fun s => s) (fun _ => String.EmptyString)
                (fun s => s) (fun _ => SIP.basic_fields)
                SIP.empty_metadata SIP.basic []))
      = 8)%nat.
Proof.
  split; [reflexivity|].
  destruct (validateSIP_partition (fun s => s) (fun _ => String.EmptyString)
              (fun s => s) (fun _ => SIP.basic_fields)
              SIP.empty_metadata SIP.basic [] eq_refl) as (Hsum & Htotal).
  rewrite Hsum, Htotal. reflexivity.
Defined.

Section ValidatorWitnesses.

Import String.StringSyntax.
Local Open Scope string_scope.

Lemma validateSIP_status_pass_witness :
  forallb SIP.own_id SIP.basic_fields = true
  /\ SIP.status
       (SIP.validateSIP (fun s => s) (fun _ => "") (fun s => s)
          (fun _ => SIP.basic_fields) SIP.empty_metadata SIP.basic [])
     <> SIP.Override.
Proof.
  split; [reflexivity|].
  apply (validateSIP_status_pass (fun s => s) (fun _ => "") (fun s => s)
           (fun _ => SIP.basic_fields) SIP.empty_metadata SIP.basic []
           eq_refl).
Defined.

Lemma validateSIP_warnings_witness :
  forallb SIP.own_id SIP.basic_fields = true
  /\ In (SIP.mkSIPFinding "meta-location" "Location" SIP.warning
           SIP.presence "Recommended field is empty")
        (SIP.warnings
           (SIP.validateSIP (fun s => s) (fun _ => "") (fun s => s)
              (fun _ => SIP.basic_fields) SIP.empty_metadata SIP.basic [])).
Proof.
  split; [reflexivity|].
  apply (validateSIP_warnings (fun s => s) (fun _ => "") (fun s => s)
           (fun _ => SIP.basic_fields) SIP.empty_metadata SIP.basic []
           _ eq_refl).
  exists "meta-location". repeat split.
  simpl. tauto.
Defined.

Lemma validateSIP_errors_witness :
  forallb SIP.own_id SIP.basic_fields = true
  /\ In (SIP.mkSIPFinding "meta-title" "Title" SIP.error SIP.presence
           "Required field is empty")
        (SIP.errors
           (SIP.validateSIP (fun s => s) (fun _ => "") (fun s => s)
              (fun _ => SIP.basic_fields) SIP.empty_metadata SIP.basic [])).
Proof.
  split; [reflexivity|].
  apply (validateSIP_errors (fun s => s) (fun _ => "") (fun s => s)
           (fun _ => SIP.basic_fields) SIP.empty_metadata SIP.basic []
           _ eq_refl).
  exists "meta-title". split; [simpl; tauto|].
  left. repeat split.
Defined.

Lemma validateSIP_score_witness :
  forallb SIP.own_id SIP.basic_fields = true
  /\ (0 <= SIP.score
             (SIP.validateSIP (fun s => s) (fun _ => "") (fun s => s)
                (fun _ => SIP.basic_fields) SIP.empty_metadata SIP.basic [])
      <= 100)%Z.
Proof.
  split; [reflexivity|].
  apply (validateSIP_score (fun s => s) (fun _ => "") (fun s => s)
           (fun _ => SIP.basic_fields) SIP.empty_metadata SIP.basic []
           eq_refl).
Defined.

Lemma toManifestCompliance_of_validateSIP_witness :
  forallb SIP.own_id SIP.basic_fields = true
  /\ (SIP.mc_status
        (SIP.toManifestCompliance "2025-01-15T00:00:00.000Z"
           (SIP.validateSIP (fun s => s) (fun _ => "") (fun s => s)
              (fun _ => SIP.basic_fields) SIP.empty_metadata SIP.basic [])
           true) = SIP.Override
      <-> true = true).
Proof.
  split; [reflexivity|].
  apply (toManifestCompliance_of_validateSIP (fun s => s) (fun _ => "")
           (fun s => s) (fun _ => SIP.basic_fields)
           "2025-01-15T00:00:00.000Z" SIP.empty_metadata SIP.basic [] true
           eq_refl).
Defined.

Lemma required_fields_consistent_witness :
  SIP.lookup "meta-operator" (SIP.REQUIRED_FIELDS SIP.basic)
  = Some "Scan Operator"
  /\ SIP.getFieldLabel (fun s => s) "meta-operator" = "Scan Operator".
Proof.
  split; [reflexivity|].
  apply (required_fields_consistent (fun _ => "") (fun s => s) SIP.basic
           "meta-operator" "Scan Operator" eq_refl).
Defined.

Lemma unknown_field_warns_witness :
  (fun s : String.string => s) "" = ""
  /\ forallb SIP.own_id ("meta-title" :: "meta-custom" :: nil) = true
  /\ In "meta-custom" ("meta-title" :: "meta-custom" :: nil)
  /\ SIP.lookup "meta-custom" (SIP.FIELD_VALUE_MAP (fun _ => "")) = None
  /\ In (SIP.mkSIPFinding "meta-custom" "meta-custom" SIP.warning
           SIP.presence "Recommended field is empty")
        (SIP.warnings
           (SIP.validateSIP (fun s => s) (fun _ => "") (fun s => s)
              (fun _ => "meta-title" :: "meta-custom" :: nil)
              SIP.empty_metadata SIP.basic [])).
Proof.
  split; [reflexivity|]. split; [reflexivity|].
  split; [simpl; tauto|]. split; [reflexivity|].
  apply (unknown_field_warns (fun s => s) (fun _ => "") (fun s => s)
           (fun _ => "meta-title" :: "meta-custom" :: nil)
           SIP.empty_metadata SIP.basic [] "meta-custom"
           eq_refl eq_refl (or_intror (or_introl eq_refl)) eq_refl).
Defined.

End ValidatorWitnesses.

(** ** The score in binary64

    For 23 fields passed out of 40 the quotient [23 / 40] is rounded
    down, its product with 100 is [57.49999999999999] and the score of
    the running program is 57, where the exact quotient gives [57.5] and
    58.  For all or none of the fields passed the two agree. *)
Lemma score_tie_in_binary64 :
  Binary64.score 23 40 = Some 57%Z
  /\ SIP.Math_round (INR 23 / INR 40 * 100) = 58%Z
  /\ Binary64.score 40 40 = Some 100%Z
  /\ Binary64.score 0 40 = Some 0%Z.
Proof.
  split; [vm_compute; reflexivity|].
  split; [|split; vm_compute; reflexivity].
  replace (INR 23 / INR 40 * 100) with (IZR 115 / 2).
  - unfold SIP.Math_round.
    replace (IZR 115 / 2 + / 2) with (IZR 58) by (simpl; lra).
    pose proof (archimed (IZR 58)) as (Hgt & Hle).
    assert (Hup : up (IZR 58) = 59%Z).
    { assert (H1 : (58 < up (IZR 58))%Z) by (apply lt_IZR; lra).
      assert (H2 : (up (IZR 58) <= 59)%Z).
      { apply le_IZR. replace (IZR 59) with (IZR 58 + 1) by (simpl; lra).
        lra. }
      lia. }
    rewrite Hup. reflexivity.
  - replace (INR 23) with 23 by (simpl; lra).
    replace (INR 40) with 40 by (simpl; lra). simpl. lra.
Qed.

(** * Properties of the kiosk file boundary *)

Section BoundaryFacts.

Local Open Scope Z_scope.

Lemma read_some (bytes : list Byte.byte) (i : Z) (c : Byte.byte) :
  Kiosk.read bytes i = Some c <->
  0 <= i /\ nth_error bytes (Z.to_nat i) = Some c.
Proof.
  unfold Kiosk.read. destruct (Z.ltb_spec i 0); split.
  - discriminate.
  - intros (Hi & _). lia.
  - intros H'. split; [lia|exact H'].
  - intros (_ & H'). exact H'.
Qed.

Lemma is_byte_true (bytes : list Byte.byte) (i : Z) (c : Byte.byte) :
  Kiosk.is_byte bytes i c = true <-> Kiosk.read bytes i = Some c.
Proof.
  unfold Kiosk.is_byte, Kiosk.strict_eq.
  destruct (Kiosk.read bytes i) as [v|]; split; try discriminate.
  - intros H. apply Byte.byte_dec_bl in H. congruence.
  - intros [= ->]. apply Byte.byte_dec_lb. reflexivity.
Qed.

Lemma read_in_range (bytes : list Byte.byte) (i : Z) (c : Byte.byte) :
  Kiosk.read bytes i = Some c -> 0 <= i < Kiosk.len bytes.
Proof.
  intros H. apply read_some in H. destruct H as (Hi & Hn).
  assert (Hlt : (Z.to_nat i < length bytes)%nat)
    by (apply nth_error_Some; congruence).
  unfold Kiosk.len. lia.
Qed.

Lemma read_app_right (a b : list Byte.byte) (k : Z) :
  0 <= k -> Kiosk.read (a ++ b) (Kiosk.len a + k) = Kiosk.read b k.
Proof.
  intros Hk. unfold Kiosk.read, Kiosk.len.
  destruct (Z.ltb_spec (Z.of_nat (length a) + k) 0); [lia|].
  destruct (Z.ltb_spec k 0); [lia|].
  rewrite nth_error_app2 by lia. f_equal. lia.
Qed.

Lemma read_app_left (a b : list Byte.byte) (k : Z) :
  k < Kiosk.len a -> Kiosk.read (a ++ b) k = Kiosk.read a k.
Proof.
  intros Hk. unfold Kiosk.read, Kiosk.len in *.
  destruct (Z.ltb_spec k 0); [reflexivity|].
  apply nth_error_app1. lia.
Qed.

(** [part] stands at offset [i] exactly when every read agrees. *)
Lemma occurs_at_reads (part bytes : list Byte.byte) (i : Z) :
  Kiosk.occurs_at part bytes i <->
  0 <= i
  /\ forall k, 0 <= k < Kiosk.len part ->
               Kiosk.read bytes (i + k) = Kiosk.read part k.
Proof.
  unfold Kiosk.occurs_at. split; intros (Hi & H); (split; [exact Hi|]).
  - intros k Hk. unfold Kiosk.read, Kiosk.len in *.
    destruct (Z.ltb_spec (i + k) 0); [lia|].
    destruct (Z.ltb_spec k 0); [lia|].
    replace (nth_error part (Z.to_nat k))
      with (nth_error
              (firstn (length part) (skipn (Z.to_nat i) bytes))
              (Z.to_nat k)) by (rewrite H; reflexivity).
    rewrite nth_error_firstn.
    destruct (Nat.ltb_spec (Z.to_nat k) (length part)); [|lia].
    rewrite nth_error_skipn. f_equal. lia.
  - apply nth_error_ext. intros n.
    destruct (Nat.lt_ge_cases n (length part)) as [Hlt|Hge].
    + rewrite nth_error_firstn.
      destruct (Nat.ltb_spec n (length part)); [|lia].
      rewrite nth_error_skipn.
      specialize (H (Z.of_nat n)). unfold Kiosk.read, Kiosk.len in H.
      destruct (Z.ltb_spec (i + Z.of_nat n) 0); [lia|].
      destruct (Z.ltb_spec (Z.of_nat n) 0); [lia|].
      rewrite Nat2Z.id in H. rewrite <- H by lia. f_equal. lia.
    + rewrite (proj2 (nth_error_None part n)) by exact Hge.
      apply nth_error_None. rewrite length_firstn. lia.
Qed.

Lemma strict_eq_some (a : option Byte.byte) (c : Byte.byte) :
  Kiosk.strict_eq a (Some c) = true <-> a = Some c.
Proof.
  unfold Kiosk.strict_eq. destruct a as [v|]; split; try discriminate.
  - intros H. apply Byte.byte_dec_bl in H. congruence.
  - intros [= ->]. apply Byte.byte_dec_lb. reflexivity.
Qed.

Lemma read_defined (bytes : list Byte.byte) (k : Z) :
  0 <= k < Kiosk.len bytes -> exists c, Kiosk.read bytes k = Some c.
Proof.
  intros Hk. unfold Kiosk.read, Kiosk.len in *.
  destruct (Z.ltb_spec k 0); [lia|].
  destruct (nth_error bytes (Z.to_nat k)) as [c|] eqn:Hn.
  - exists c. reflexivity.
  - apply nth_error_None in Hn. lia.
Qed.

Lemma header_at_occurs (bytes : list Byte.byte) (j : Z) :
  Kiosk.header_at bytes j = true <->
  Kiosk.occurs_at Kiosk.header_magic bytes j.
Proof.
  unfold Kiosk.header_at. rewrite !Bool.andb_true_iff, !is_byte_true.
  rewrite occurs_at_reads. split.
  - intros (((H0 & H1) & H2) & H3).
    split; [apply read_some in H0; tauto|].
    intros k Hk. change (Kiosk.len Kiosk.header_magic) with 4 in Hk.
    assert (Hcase : k = 0 \/ k = 1 \/ k = 2 \/ k = 3) by lia.
    destruct Hcase as [-> | [-> | [-> | ->]]]; rewrite ?Z.add_0_r; assumption.
  - intros (Hj & H).
    pose proof (H 0 ltac:(cbv; split; [discriminate|reflexivity])) as H0.
    pose proof (H 1 ltac:(cbv; split; [discriminate|reflexivity])) as H1.
    pose proof (H 2 ltac:(cbv; split; [discriminate|reflexivity])) as H2.
    pose proof (H 3 ltac:(cbv; split; [discriminate|reflexivity])) as H3.
    rewrite Z.add_0_r in H0. repeat split; assumption.
Qed.

Lemma eocd_at_occurs (bytes : list Byte.byte) (i : Z) :
  Kiosk.eocd_at bytes i = true <->
  Kiosk.occurs_at Kiosk.eocd_magic bytes i.
Proof.
  unfold Kiosk.eocd_at. rewrite !Bool.andb_true_iff, !is_byte_true.
  rewrite occurs_at_reads. split.
  - intros (((H0 & H1) & H2) & H3).
    split; [apply read_some in H0; tauto|].
    intros k Hk. change (Kiosk.len Kiosk.eocd_magic) with 4 in Hk.
    assert (Hcase : k = 0 \/ k = 1 \/ k = 2 \/ k = 3) by lia.
    destruct Hcase as [-> | [-> | [-> | ->]]]; rewrite ?Z.add_0_r; assumption.
  - intros (Hj & H).
    pose proof (H 0 ltac:(cbv; split; [discriminate|reflexivity])) as H0.
    pose proof (H 1 ltac:(cbv; split; [discriminate|reflexivity])) as H1.
    pose proof (H 2 ltac:(cbv; split; [discriminate|reflexivity])) as H2.
    pose proof (H 3 ltac:(cbv; split; [discriminate|reflexivity])) as H3.
    rewrite Z.add_0_r in H0. repeat split; assumption.
Qed.

(** A signature that stands at [j] lies inside the array. *)
Lemma occurs_in_range (part bytes : list Byte.byte) (j : Z) :
  part <> [] ->
  Kiosk.occurs_at part bytes j ->
  0 <= j /\ j + Kiosk.len part <= Kiosk.len bytes.
Proof.
  intros Hne Hocc. apply occurs_at_reads in Hocc.
  destruct Hocc as (Hj & H). split; [exact Hj|].
  assert (Hlen : 0 < Kiosk.len part).
  { unfold Kiosk.len. destruct part; [contradiction|simpl; lia]. }
  destruct (read_defined part (Kiosk.len part - 1) ltac:(lia)) as (c & Hc).
  specialize (H (Kiosk.len part - 1) ltac:(lia)). rewrite Hc in H.
  apply read_in_range in H. lia.
Qed.

Lemma marker_loop_spec (bytes : list Byte.byte) (i : Z) (count : nat) :
  forall j,
    Kiosk.marker_loop bytes i count j = true <->
    forall k, j <= k < j + Z.of_nat count ->
              Kiosk.strict_eq (Kiosk.read bytes (i + k))
                (Kiosk.read Kiosk.marker k) = true.
Proof.
  induction count as [|c IH]; intros j.
  - simpl. split; [intros _ k Hk; lia|reflexivity].
  - cbn [Kiosk.marker_loop].
    destruct (Kiosk.strict_eq (Kiosk.read bytes (i + j))
                (Kiosk.read Kiosk.marker j)) eqn:Hj; simpl.
    + rewrite IH. split; intros H k Hk.
      * destruct (Z.eq_dec k j) as [->|Hne]; [exact Hj|]. apply H. lia.
      * apply H. lia.
    + split; [discriminate|]. intros H.
      rewrite (H j ltac:(lia)) in Hj. discriminate.
Qed.

Lemma marker_loop_occurs (bytes : list Byte.byte) (i : Z) :
  0 <= i ->
  Kiosk.marker_loop bytes i (length Kiosk.marker) 0 = true <->
  Kiosk.occurs_at Kiosk.marker bytes i.
Proof.
  intros Hi. rewrite marker_loop_spec, occurs_at_reads.
  fold (Kiosk.len Kiosk.marker). split.
  - intros H. split; [exact Hi|]. intros k Hk.
    destruct (read_defined Kiosk.marker k Hk) as (c & Hc).
    rewrite Hc. apply strict_eq_some. rewrite <- Hc. apply H. lia.
  - intros (_ & H) k Hk.
    destruct (read_defined Kiosk.marker k ltac:(lia)) as (c & Hc).
    rewrite Hc. apply strict_eq_some. rewrite <- Hc. apply H. lia.
Qed.

(** The search stops at the first offset where the marker stands. *)
Lemma search_marker_spec (bytes : list Byte.byte) (count : nat) :
  forall i,
    0 <= i ->
    (Kiosk.search_marker bytes count i = -1
     /\ forall k, i <= k < i + Z.of_nat count ->
                  ~ Kiosk.occurs_at Kiosk.marker bytes k)
    \/ exists i0,
        i <= i0 < i + Z.of_nat count
        /\ Kiosk.search_marker bytes count i = i0 + Kiosk.len Kiosk.marker
        /\ Kiosk.occurs_at Kiosk.marker bytes i0
        /\ forall k, i <= k < i0 -> ~ Kiosk.occurs_at Kiosk.marker bytes k.
Proof.
  induction count as [|c IH]; intros i Hi.
  - left. split; [reflexivity|]. intros k Hk. lia.
  - cbn [Kiosk.search_marker].
    destruct (Kiosk.marker_loop bytes i (length Kiosk.marker) 0) eqn:Hm.
    + right. exists i. split; [lia|]. split; [reflexivity|].
      split; [apply marker_loop_occurs; assumption|]. intros k Hk. lia.
    + assert (Hnot : ~ Kiosk.occurs_at Kiosk.marker bytes i).
      { intros Hocc. apply marker_loop_occurs in Hocc; [|exact Hi].
        congruence. }
      destruct (IH (i + 1) ltac:(lia)) as [(Hr & Hnone)|(i0 & Hi0 & Hr & Ho & Hb)].
      * left. split; [exact Hr|]. intros k Hk.
        destruct (Z.eq_dec k i) as [->|Hne]; [exact Hnot|]. apply Hnone. lia.
      * right. exists i0. split; [lia|]. split; [exact Hr|].
        split; [exact Ho|]. intros k Hk.
        destruct (Z.eq_dec k i) as [->|Hne]; [exact Hnot|]. apply Hb. lia.
Qed.

Lemma first_header_spec (bytes : list Byte.byte) (count : nat) :
  forall j0,
    match Kiosk.first_header bytes count j0 with
    | Some j =>
        j0 <= j < j0 + Z.of_nat count
        /\ Kiosk.header_at bytes j = true
        /\ forall k, j0 <= k < j -> Kiosk.header_at bytes k = false
    | None =>
        forall k, j0 <= k < j0 + Z.of_nat count ->
                  Kiosk.header_at bytes k = false
    end.
Proof.
  induction count as [|c IH]; intros j0.
  - simpl. intros k Hk. lia.
  - cbn [Kiosk.first_header].
    destruct (Kiosk.header_at bytes j0) eqn:Hh.
    + split; [lia|]. split; [exact Hh|]. intros k Hk. lia.
    + specialize (IH (j0 + 1)).
      destruct (Kiosk.first_header bytes c (j0 + 1)) as [j|].
      * destruct IH as (Hj & Hhj & Hb). split; [lia|]. split; [exact Hhj|].
        intros k Hk. destruct (Z.eq_dec k j0) as [->|Hne]; [exact Hh|].
        apply Hb. lia.
      * intros k Hk. destruct (Z.eq_dec k j0) as [->|Hne]; [exact Hh|].
        apply IH. lia.
Qed.

Lemma scan_eocd_spec (bytes : list Byte.byte) (count : nat) :
  forall i,
    (Kiosk.scan_eocd bytes count i = -1
     /\ forall i' j,
         i - Z.of_nat count < i' <= i -> 0 <= j < i' ->
         ~ (Kiosk.eocd_at bytes i' = true /\ Kiosk.header_at bytes j = true))
    \/ (0 <= Kiosk.scan_eocd bytes count i
        /\ Kiosk.header_at bytes (Kiosk.scan_eocd bytes count i) = true
        /\ (forall k, 0 <= k < Kiosk.scan_eocd bytes count i ->
                      Kiosk.header_at bytes k = false)
        /\ exists i',
            i - Z.of_nat count < i' <= i
            /\ Kiosk.scan_eocd bytes count i < i'
            /\ Kiosk.eocd_at bytes i' = true).
Proof.
  induction count as [|c IH]; intros i.
  - left. split; [reflexivity|]. intros i' j Hi'. lia.
  - cbn [Kiosk.scan_eocd].
    assert (Hrec :
              (forall j, 0 <= j < i ->
                         ~ (Kiosk.eocd_at bytes i = true
                            /\ Kiosk.header_at bytes j = true)) ->
              (Kiosk.scan_eocd bytes c (i - 1) = -1
               /\ forall i' j,
                   i - Z.of_nat (S c) < i' <= i -> 0 <= j < i' ->
                   ~ (Kiosk.eocd_at bytes i' = true
                      /\ Kiosk.header_at bytes j = true))
              \/ (0 <= Kiosk.scan_eocd bytes c (i - 1)
                  /\ Kiosk.header_at bytes
                       (Kiosk.scan_eocd bytes c (i - 1)) = true
                  /\ (forall k, 0 <= k < Kiosk.scan_eocd bytes c (i - 1) ->
                                Kiosk.header_at bytes k = false)
                  /\ exists i',
                      i - Z.of_nat (S c) < i' <= i
                      /\ Kiosk.scan_eocd bytes c (i - 1) < i'
                      /\ Kiosk.eocd_at bytes i' = true)).
    { intros Hhere.
      destruct (IH (i - 1)) as [(Hr & Hnone)|(Hr & Hh & Hmin & i' & Hi' & Hlt & He)].
      - left. split; [exact Hr|]. intros i' j Hi' Hj.
        destruct (Z.eq_dec i' i) as [->|Hne]; [apply Hhere; exact Hj|].
        apply Hnone; lia.
      - right. split; [exact Hr|]. split; [exact Hh|]. split; [exact Hmin|].
        exists i'. split; [lia|]. split; assumption. }
    destruct (Kiosk.eocd_at bytes i) eqn:He.
    + pose proof (first_header_spec bytes (Z.to_nat i) 0) as Hfirst.
      assert (Hi : 0 <= i).
      { apply eocd_at_occurs in He. destruct He as (Hi & _). exact Hi. }
      destruct (Kiosk.first_header bytes (Z.to_nat i) 0) as [j|].
      * destruct Hfirst as (Hj & Hh & Hmin).
        right. split; [lia|]. split; [exact Hh|]. split; [exact Hmin|].
        exists i. split; [lia|]. split; [lia|exact He].
      * apply Hrec. intros j Hj (_ & Hh).
        rewrite Hfirst in Hh by lia. discriminate.
    + apply Hrec. intros j Hj (He' & _). discriminate.
Qed.

Lemma skip_whitespace_spec (bytes : list Byte.byte) (fuel : nat) :
  forall pos,
    pos <= Kiosk.skip_whitespace bytes fuel pos
    /\ forall k, pos <= k < Kiosk.skip_whitespace bytes fuel pos ->
                 exists c, Kiosk.read bytes k = Some c /\ Kiosk.whitespace c.
Proof.
  induction fuel as [|f IH]; intros pos.
  - simpl. split; [lia|]. intros k Hk. lia.
  - cbn [Kiosk.skip_whitespace].
    destruct ((pos <? Kiosk.len bytes)
              && (Kiosk.is_byte bytes pos Byte.x0a
                  || Kiosk.is_byte bytes pos Byte.x0d
                  || Kiosk.is_byte bytes pos Byte.x20))%bool eqn:Hc.
    + destruct (IH (pos + 1)) as (Hle & Hws). split; [lia|].
      intros k Hk. destruct (Z.eq_dec k pos) as [->|Hne]; [|apply Hws; lia].
      apply Bool.andb_true_iff in Hc. destruct Hc as (_ & Hc).
      rewrite !Bool.orb_true_iff, !is_byte_true in Hc.
      unfold Kiosk.whitespace.
      destruct Hc as [[Hc|Hc]|Hc]; eexists; (split; [exact Hc|]); auto.
    + split; [lia|]. intros k Hk. lia.
Qed.

(** X18: a result other than [-1] is the offset of a local file header
    magic [PK\x03\x04] that lies inside the array, so the slice taken by
    the caller begins with that magic. *)
Theorem findZipBoundary_sound (bytes : list Byte.byte) :
  Kiosk.findZipBoundary bytes = -1
  \/ (0 <= Kiosk.findZipBoundary bytes
      /\ Kiosk.findZipBoundary bytes + 4 <= Kiosk.len bytes
      /\ Kiosk.occurs_at Kiosk.header_magic bytes
           (Kiosk.findZipBoundary bytes)
      /\ exists rest : list Byte.byte,
          Kiosk.slice bytes (Kiosk.findZipBoundary bytes)
          = Kiosk.header_magic ++ rest).
Proof.
  assert (Hgood : forall r,
             Kiosk.header_at bytes r = true ->
             0 <= r /\ r + 4 <= Kiosk.len bytes
             /\ Kiosk.occurs_at Kiosk.header_magic bytes r
             /\ exists rest : list Byte.byte,
                 Kiosk.slice bytes r = Kiosk.header_magic ++ rest).
  { intros r Hh. apply header_at_occurs in Hh.
    destruct (occurs_in_range Kiosk.header_magic bytes r
                ltac:(discriminate) Hh) as (H0 & H4).
    split; [exact H0|]. split; [exact H4|]. split; [exact Hh|].
    destruct Hh as (_ & Hfirst). unfold Kiosk.slice.
    exists (skipn (length Kiosk.header_magic) (skipn (Z.to_nat r) bytes)).
    rewrite <- Hfirst at 1. symmetry. apply firstn_skipn. }
  unfold Kiosk.findZipBoundary.
  set (pos := Kiosk.search_marker bytes _ 0).
  set (pos' := Kiosk.skip_whitespace bytes (length bytes) pos).
  destruct (scan_eocd_spec bytes (Z.to_nat (Kiosk.len bytes - 22 + 1))
              (Kiosk.len bytes - 22)) as [(Hr & _)|(_ & Hh & _)].
  - destruct (negb (pos =? -1));
      [destruct ((pos' + 3 <? Kiosk.len bytes)
                 && Kiosk.header_at bytes pos')%bool eqn:Hc|].
    + right. apply Hgood. apply Bool.andb_true_iff in Hc. tauto.
    + left. exact Hr.
    + left. exact Hr.
  - destruct (negb (pos =? -1));
      [destruct ((pos' + 3 <? Kiosk.len bytes)
                 && Kiosk.header_at bytes pos')%bool eqn:Hc|].
    + right. apply Hgood. apply Bool.andb_true_iff in Hc. tauto.
    + right. apply Hgood, Hh.
    + right. apply Hgood, Hh.
Qed.

Lemma len_app (a b : list Byte.byte) :
  Kiosk.len (a ++ b) = Kiosk.len a + Kiosk.len b.
Proof. unfold Kiosk.len. rewrite length_app. lia. Qed.

Lemma occurs_at_app_left (part a b : list Byte.byte) (i : Z) :
  part <> [] ->
  Kiosk.occurs_at part a i -> Kiosk.occurs_at part (a ++ b) i.
Proof.
  intros Hne Ho. pose proof (occurs_in_range part a i Hne Ho) as Hr.
  apply occurs_at_reads in Ho. destruct Ho as (Hi & Hread).
  apply occurs_at_reads. split; [exact Hi|].
  intros k Hk. rewrite read_app_left by lia. apply Hread, Hk.
Qed.

Lemma occurs_at_app_right (part a b : list Byte.byte) (i : Z) :
  Kiosk.occurs_at part b i ->
  Kiosk.occurs_at part (a ++ b) (Kiosk.len a + i).
Proof.
  intros Ho. apply occurs_at_reads in Ho. destruct Ho as (Hi & Hread).
  apply occurs_at_reads. split; [unfold Kiosk.len; lia|].
  intros k Hk. rewrite <- Z.add_assoc, read_app_right by lia.
  apply Hread, Hk.
Qed.

(** The four reads of a magic that stands at [j]. *)
Lemma magic_reads (c0 c1 c2 c3 : Byte.byte) (bytes : list Byte.byte) (j : Z) :
  Kiosk.occurs_at [c0; c1; c2; c3] bytes j ->
  Kiosk.read bytes j = Some c0 /\ Kiosk.read bytes (j + 1) = Some c1
  /\ Kiosk.read bytes (j + 2) = Some c2 /\ Kiosk.read bytes (j + 3) = Some c3.
Proof.
  intros Ho. apply occurs_at_reads in Ho. destruct Ho as (Hj & Hread).
  change (Kiosk.len [c0; c1; c2; c3]) with 4 in Hread.
  pose proof (Hread 0 ltac:(lia)) as H0. rewrite Z.add_0_r in H0.
  pose proof (Hread 1 ltac:(lia)) as H1.
  pose proof (Hread 2 ltac:(lia)) as H2.
  pose proof (Hread 3 ltac:(lia)) as H3.
  repeat split; assumption.
Qed.

(** When the page holds no local file header magic and the archive
    begins with one, none starts inside the page in the file made of
    both. *)
Lemma header_not_before_archive (page archive : list Byte.byte) (r : Z) :
  (forall p, ~ Kiosk.occurs_at Kiosk.header_magic page p) ->
  Kiosk.occurs_at Kiosk.header_magic archive 0 ->
  0 <= r < Kiosk.len page ->
  ~ Kiosk.occurs_at Kiosk.header_magic (page ++ archive) r.
Proof.
  intros Hnone Hstart Hr Ho.
  apply magic_reads in Hstart. destruct Hstart as (Z0 & _).
  pose proof (magic_reads _ _ _ _ _ _ Ho) as (R0 & R1 & R2 & R3).
  destruct (Z_lt_le_dec (r + 3) (Kiosk.len page)) as [Hin|Hout].
  - apply (Hnone r). apply occurs_at_reads. split; [lia|].
    intros k Hk. change (Kiosk.len Kiosk.header_magic) with 4 in Hk.
    apply occurs_at_reads in Ho. destruct Ho as (_ & Hread).
    rewrite <- (read_app_left page archive) by lia. apply Hread, Hk.
  - assert (Hcases : r + 1 = Kiosk.len page \/ r + 2 = Kiosk.len page
                     \/ r + 3 = Kiosk.len page) by lia.
    destruct Hcases as [H|[H|H]].
    + rewrite H, <- (Z.add_0_r (Kiosk.len page)), read_app_right, Z0 in R1
        by lia. discriminate R1.
    + rewrite H, <- (Z.add_0_r (Kiosk.len page)), read_app_right, Z0 in R2
        by lia. discriminate R2.
    + rewrite H, <- (Z.add_0_r (Kiosk.len page)), read_app_right, Z0 in R3
        by lia. discriminate R3.
Qed.

(** A scan of the whole array that finds no local file header magic
    shows that none stands anywhere. *)
Lemma no_header_by_scan (bytes : list Byte.byte) :
  Kiosk.first_header bytes (length bytes) 0 = None ->
  forall p, ~ Kiosk.occurs_at Kiosk.header_magic bytes p.
Proof.
  intros Hscan p Ho.
  pose proof (first_header_spec bytes (length bytes) 0) as Hspec.
  rewrite Hscan in Hspec.
  pose proof (occurs_in_range Kiosk.header_magic bytes p
                ltac:(discriminate) Ho) as Hr.
  change (Kiosk.len Kiosk.header_magic) with 4 in Hr.
  apply header_at_occurs in Ho. rewrite Hspec in Ho; [discriminate|].
  unfold Kiosk.len in Hr. lia.
Qed.

(** The boundary of a page followed by an archive. *)
Lemma boundary_at_archive (page archive : list Byte.byte) :
  (exists i0, Kiosk.occurs_at Kiosk.marker page i0) ->
  (forall p, ~ Kiosk.occurs_at Kiosk.header_magic page p) ->
  Kiosk.occurs_at Kiosk.header_magic archive 0 ->
  (exists e, Kiosk.occurs_at Kiosk.eocd_magic archive e
             /\ e + 22 <= Kiosk.len archive) ->
  Kiosk.findZipBoundary (page ++ archive) = Kiosk.len page.
Proof.
  intros (i0 & Hmark) Hnone Hstart (e & Heocd & He).
  set (bytes := page ++ archive).
  assert (Hlp : 0 <= Kiosk.len page) by (unfold Kiosk.len; lia).
  assert (Hlen : Kiosk.len bytes = Kiosk.len page + Kiosk.len archive)
    by apply len_app.
  assert (Hbefore : forall r, 0 <= r < Kiosk.len page ->
                              Kiosk.header_at bytes r = false).
  { intros r Hr. destruct (Kiosk.header_at bytes r) eqn:Hh; [|reflexivity].
    exfalso. apply header_at_occurs in Hh.
    exact (header_not_before_archive page archive r Hnone Hstart Hr Hh). }
  assert (Hhead : Kiosk.header_at bytes (Kiosk.len page) = true).
  { apply header_at_occurs. rewrite <- (Z.add_0_r (Kiosk.len page)).
    apply occurs_at_app_right, Hstart. }
  pose proof (magic_reads _ _ _ _ _ _ Hstart) as (S0 & _ & S2 & _).
  pose proof (magic_reads _ _ _ _ _ _ Heocd) as (_ & _ & E2 & _).
  assert (Hepos : 0 < e).
  { apply occurs_at_reads in Heocd. destruct Heocd as (He0 & _).
    destruct (Z.eq_dec e 0) as [->|]; [|lia].
    rewrite S2 in E2. discriminate E2. }
  assert (Heocd' : Kiosk.eocd_at bytes (Kiosk.len page + e) = true)
    by (apply eocd_at_occurs, occurs_at_app_right, Heocd).
  assert (Hfirst : Kiosk.read bytes (Kiosk.len page) = Some Byte.x50).
  { unfold bytes. rewrite <- (Z.add_0_r (Kiosk.len page)), read_app_right
      by lia. exact S0. }
  unfold Kiosk.findZipBoundary. fold bytes.
  set (pos := Kiosk.search_marker bytes
                (Z.to_nat (Kiosk.len bytes - Kiosk.len Kiosk.marker)) 0).
  set (pos' := Kiosk.skip_whitespace bytes (length bytes) pos).
  destruct (negb (pos =? -1)) eqn:Hpos;
    [destruct ((pos' + 3 <? Kiosk.len bytes)
               && Kiosk.header_at bytes pos')%bool eqn:Hc|].
  - apply Bool.andb_true_iff in Hc. destruct Hc as (_ & Hh).
    destruct (search_marker_spec bytes
                (Z.to_nat (Kiosk.len bytes - Kiosk.len Kiosk.marker)) 0
                ltac:(lia))
      as [(Hr & _)|(i1 & Hi1 & Hr & _ & Hmin)].
    + fold pos in Hr. rewrite Hr in Hpos. discriminate Hpos.
    + fold pos in Hr.
      pose proof (occurs_in_range Kiosk.marker page i0
                    ltac:(discriminate) Hmark) as Hi0.
      assert (Hle : i1 <= i0).
      { destruct (Z_le_gt_dec i1 i0) as [H|H]; [exact H|].
        exfalso. apply (Hmin i0); [lia|].
        apply occurs_at_app_left; [discriminate|exact Hmark]. }
      destruct (skip_whitespace_spec bytes (length bytes) pos)
        as (Hge & Hws).
      fold pos' in Hge, Hws.
      assert (Hm : Kiosk.len Kiosk.marker = 27) by reflexivity.
      assert (Hup : pos' <= Kiosk.len page).
      { destruct (Z_le_gt_dec pos' (Kiosk.len page)) as [H|H]; [exact H|].
        exfalso. destruct (Hws (Kiosk.len page) ltac:(lia)) as (c & Hc & Hw).
        rewrite Hfirst in Hc. injection Hc as <-.
        destruct Hw as [Hw|[Hw|Hw]]; discriminate Hw. }
      destruct (Z_lt_le_dec pos' (Kiosk.len page)) as [Hlt|Hgeq]; [|lia].
      rewrite Hbefore in Hh by lia. discriminate Hh.
  - destruct (scan_eocd_spec bytes (Z.to_nat (Kiosk.len bytes - 22 + 1))
                (Kiosk.len bytes - 22))
      as [(_ & Hno)|(Hr & Hh & Hminh & _)].
    + exfalso. apply (Hno (Kiosk.len page + e) (Kiosk.len page));
        [lia|lia|split; assumption].
    + set (r := Kiosk.scan_eocd bytes (Z.to_nat (Kiosk.len bytes - 22 + 1))
                  (Kiosk.len bytes - 22)) in *.
      destruct (Z.lt_trichotomy r (Kiosk.len page)) as [Hlt|[Heq|Hgt]].
      * rewrite Hbefore in Hh by lia. discriminate Hh.
      * exact Heq.
      * rewrite Hminh in Hhead by lia. discriminate Hhead.
  - destruct (scan_eocd_spec bytes (Z.to_nat (Kiosk.len bytes - 22 + 1))
                (Kiosk.len bytes - 22))
      as [(_ & Hno)|(Hr & Hh & Hminh & _)].
    + exfalso. apply (Hno (Kiosk.len page + e) (Kiosk.len page));
        [lia|lia|split; assumption].
    + set (r := Kiosk.scan_eocd bytes (Z.to_nat (Kiosk.len bytes - 22 + 1))
                  (Kiosk.len bytes - 22)) in *.
      destruct (Z.lt_trichotomy r (Kiosk.len page)) as [Hlt|[Heq|Hgt]].
      * rewrite Hbefore in Hh by lia. discriminate Hh.
      * exact Heq.
      * rewrite Hminh in Hhead by lia. discriminate Hhead.
Qed.

(** X19: the file built by [buildPolyglotFile] gives the archive back,
    also when the page holds the marker more than once, as every
    generated page does (its embedded script names the marker in a
    string literal).  If the marker stands somewhere in the encoded
    page, the page holds no local file header magic, and the archive
    begins with that magic and holds an end-of-central-directory magic
    at least 22 bytes before its end, then [findZipBoundary] returns the
    length of the encoded page and the slice from there is the
    archive. *)
Theorem polyglot_round_trip
  (encode : String.string -> list Byte.byte) (html : String.string)
  (zipData : list Byte.byte) :
  (exists i0, Kiosk.occurs_at Kiosk.marker (encode html) i0) ->
  (forall p, ~ Kiosk.occurs_at Kiosk.header_magic (encode html) p) ->
  Kiosk.occurs_at Kiosk.header_magic zipData 0 ->
  (exists e, Kiosk.occurs_at Kiosk.eocd_magic zipData e
             /\ e + 22 <= Kiosk.len zipData) ->
  Kiosk.findZipBoundary
    (Kiosk.content (Kiosk.buildPolyglotFile encode html zipData))
  = Kiosk.len (encode html)
  /\ Kiosk.slice
       (Kiosk.content (Kiosk.buildPolyglotFile encode html zipData))
       (Kiosk.findZipBoundary
          (Kiosk.content (Kiosk.buildPolyglotFile encode html zipData)))
     = zipData.
Proof.
  intros Hmark Hnone Hstart Heocd.
  unfold Kiosk.buildPolyglotFile. cbn [Kiosk.content].
  pose proof (boundary_at_archive (encode html) zipData
                Hmark Hnone Hstart Heocd) as Hresult.
  split; [exact Hresult|].
  rewrite Hresult. unfold Kiosk.slice, Kiosk.len.
  rewrite Nat2Z.id, skipn_app, skipn_all, Nat.sub_diag. reflexivity.
Qed.

(** X20: where a result comes from.  A result other than [-1] either
    follows the first marker of the file, separated from it by
    whitespace only, or it is the first local file header magic of the
    file and an end-of-central-directory magic stands after it, at least
    22 bytes before the end of the file. *)
Theorem findZipBoundary_origin (bytes : list Byte.byte) :
  0 <= Kiosk.findZipBoundary bytes ->
  (exists i0,
      Kiosk.occurs_at Kiosk.marker bytes i0
      /\ (forall k, 0 <= k < i0 -> ~ Kiosk.occurs_at Kiosk.marker bytes k)
      /\ i0 + Kiosk.len Kiosk.marker <= Kiosk.findZipBoundary bytes
      /\ forall k,
          i0 + Kiosk.len Kiosk.marker <= k < Kiosk.findZipBoundary bytes ->
          exists c, Kiosk.read bytes k = Some c /\ Kiosk.whitespace c)
  \/ ((forall k, 0 <= k < Kiosk.findZipBoundary bytes ->
                 ~ Kiosk.occurs_at Kiosk.header_magic bytes k)
      /\ exists i,
          Kiosk.findZipBoundary bytes < i
          /\ i + 22 <= Kiosk.len bytes
          /\ Kiosk.occurs_at Kiosk.eocd_magic bytes i).
Proof.
  unfold Kiosk.findZipBoundary.
  set (count := Z.to_nat (Kiosk.len bytes - Kiosk.len Kiosk.marker)).
  set (pos := Kiosk.search_marker bytes count 0).
  set (pos' := Kiosk.skip_whitespace bytes (length bytes) pos).
  assert (Hfallback :
            0 <= Kiosk.scan_eocd bytes
                   (Z.to_nat (Kiosk.len bytes - 22 + 1))
                   (Kiosk.len bytes - 22) ->
            (forall k,
                0 <= k < Kiosk.scan_eocd bytes
                           (Z.to_nat (Kiosk.len bytes - 22 + 1))
                           (Kiosk.len bytes - 22) ->
                ~ Kiosk.occurs_at Kiosk.header_magic bytes k)
            /\ exists i,
                Kiosk.scan_eocd bytes
                  (Z.to_nat (Kiosk.len bytes - 22 + 1))
                  (Kiosk.len bytes - 22) < i
                /\ i + 22 <= Kiosk.len bytes
                /\ Kiosk.occurs_at Kiosk.eocd_magic bytes i).
  { intros Hr.
    destruct (scan_eocd_spec bytes (Z.to_nat (Kiosk.len bytes - 22 + 1))
                (Kiosk.len bytes - 22))
      as [(Hneg & _)|(_ & _ & Hmin & i & Hi & Hlt & He)]; [lia|].
    split.
    - intros k Hk Hocc. apply header_at_occurs in Hocc.
      rewrite Hmin in Hocc by exact Hk. discriminate.
    - exists i. split; [exact Hlt|]. split; [lia|].
      apply eocd_at_occurs, He. }
  destruct (negb (pos =? -1)) eqn:Hpos;
    [destruct ((pos' + 3 <? Kiosk.len bytes)
               && Kiosk.header_at bytes pos')%bool eqn:Hc|].
  - intros _. left.
    destruct (search_marker_spec bytes count 0 ltac:(lia))
      as [(Hr & _)|(i0 & Hi0 & Hr & Ho & Hmin)].
    + fold pos in Hr. rewrite Hr in Hpos. discriminate.
    + fold pos in Hr. exists i0. split; [exact Ho|].
      split; [intros k Hk; apply Hmin; lia|].
      destruct (skip_whitespace_spec bytes (length bytes) pos)
        as (Hle & Hws).
      fold pos' in Hle, Hws. rewrite <- Hr.
      split; [exact Hle|exact Hws].
  - intros Hr. right. apply Hfallback, Hr.
  - intros Hr. right. apply Hfallback, Hr.
Qed.

(** X21: a file in which the marker stands nowhere is searched from its
    end: the result is [-1] exactly when no end-of-central-directory
    magic that starts at least 22 bytes before the end of the file has a
    local file header magic before it. *)
Theorem findZipBoundary_without_marker (bytes : list Byte.byte) :
  (forall k, ~ Kiosk.occurs_at Kiosk.marker bytes k) ->
  Kiosk.findZipBoundary bytes = -1
  <-> ~ exists i j,
        0 <= j < i
        /\ i + 22 <= Kiosk.len bytes
        /\ Kiosk.occurs_at Kiosk.eocd_magic bytes i
        /\ Kiosk.occurs_at Kiosk.header_magic bytes j.
Proof.
  intros Hnone. unfold Kiosk.findZipBoundary.
  destruct (search_marker_spec bytes
              (Z.to_nat (Kiosk.len bytes - Kiosk.len Kiosk.marker)) 0
              ltac:(lia))
    as [(Hr & _)|(i0 & _ & _ & Ho & _)]; [|exfalso; exact (Hnone i0 Ho)].
  rewrite Hr. change (-1 =? -1) with true. cbn [negb].
  destruct (scan_eocd_spec bytes (Z.to_nat (Kiosk.len bytes - 22 + 1))
              (Kiosk.len bytes - 22))
    as [(Hs & Hno)|(Hs & Hh & _ & i & Hi & Hlt & He)].
  - split; [|intros _; exact Hs].
    intros _ (i & j & Hj & Hi & He & Hh).
    apply (Hno i j); [lia|exact Hj|].
    split; [apply eocd_at_occurs, He|apply header_at_occurs, Hh].
  - split; [lia|]. intros Hnot. exfalso. apply Hnot.
    exists i, (Kiosk.scan_eocd bytes (Z.to_nat (Kiosk.len bytes - 22 + 1))
                 (Kiosk.len bytes - 22)).
    split; [lia|]. split; [lia|].
    split; [apply eocd_at_occurs, He|apply header_at_occurs, Hh].
Qed.

End BoundaryFacts.

Lemma polyglot_round_trip_witness :
  (exists i0 : Z,
      Kiosk.occurs_at Kiosk.marker
        (Kiosk.encode_ascii Kiosk.sample_page) i0)
  /\ Kiosk.occurs_at Kiosk.header_magic Kiosk.minimal_archive 0%Z
  /\ Kiosk.findZipBoundary
       (Kiosk.content
          (Kiosk.buildPolyglotFile Kiosk.encode_ascii Kiosk.sample_page
             Kiosk.minimal_archive))
     = Kiosk.len (Kiosk.encode_ascii Kiosk.sample_page)
  /\ Kiosk.slice
       (Kiosk.content
          (Kiosk.buildPolyglotFile Kiosk.encode_ascii Kiosk.sample_page
             Kiosk.minimal_archive))
       (Kiosk.findZipBoundary
          (Kiosk.content
             (Kiosk.buildPolyglotFile Kiosk.encode_ascii Kiosk.sample_page
                Kiosk.minimal_archive)))
     = Kiosk.minimal_archive.
Proof.
  assert (Hmark : exists i0 : Z,
             Kiosk.occurs_at Kiosk.marker
               (Kiosk.encode_ascii Kiosk.sample_page) i0).
  { exists 102%Z. split; [lia|vm_compute; reflexivity]. }
  assert (Hstart : Kiosk.occurs_at Kiosk.header_magic
                     Kiosk.minimal_archive 0%Z)
    by (split; [lia|vm_compute; reflexivity]).
  split; [exact Hmark|]. split; [exact Hstart|].
  apply (polyglot_round_trip Kiosk.encode_ascii Kiosk.sample_page
           Kiosk.minimal_archive Hmark).
  - apply no_header_by_scan. vm_compute. reflexivity.
  - exact Hstart.
  - exists 4%Z. split; [split; [lia|vm_compute; reflexivity]|].
    vm_compute. discriminate.
Defined.

Lemma findZipBoundary_origin_witness :
  (0 <= Kiosk.findZipBoundary Kiosk.marker_then_header)%Z
  /\ exists i0 : Z,
      Kiosk.occurs_at Kiosk.marker Kiosk.marker_then_header i0
      /\ (i0 + Kiosk.len Kiosk.marker
          <= Kiosk.findZipBoundary Kiosk.marker_then_header)%Z.
Proof.
  assert (Hr : (0 <= Kiosk.findZipBoundary Kiosk.marker_then_header)%Z)
    by (vm_compute; discriminate).
  split; [exact Hr|].
  destruct (findZipBoundary_origin Kiosk.marker_then_header Hr)
    as [(i0 & Ho & _ & Hle & _)|(_ & i & Hlt & Hi & _)].
  - exists i0. split; [exact Ho|exact Hle].
  - exfalso.
    change (Kiosk.findZipBoundary Kiosk.marker_then_header) with 27%Z in Hlt.
    change (Kiosk.len Kiosk.marker_then_header) with 31%Z in Hi. lia.
Defined.

Lemma findZipBoundary_without_marker_witness :
  (forall k : Z, ~ Kiosk.occurs_at Kiosk.marker Kiosk.minimal_archive k)
  /\ (exists i j : Z,
         (0 <= j < i)%Z
         /\ (i + 22 <= Kiosk.len Kiosk.minimal_archive)%Z
         /\ Kiosk.occurs_at Kiosk.eocd_magic Kiosk.minimal_archive i
         /\ Kiosk.occurs_at Kiosk.header_magic Kiosk.minimal_archive j)
  /\ Kiosk.findZipBoundary Kiosk.minimal_archive <> (-1)%Z
  /\ (forall k : Z,
         ~ Kiosk.occurs_at Kiosk.marker (Kiosk.eocd_magic ++ repeat Byte.x00 22) k)
  /\ Kiosk.findZipBoundary (Kiosk.eocd_magic ++ repeat Byte.x00 22) = (-1)%Z.
Proof.
  assert (Hshort : forall (bytes : list Byte.byte) (k : Z),
             (Kiosk.len bytes < 27)%Z ->
             ~ Kiosk.occurs_at Kiosk.marker bytes k).
  { intros bytes k Hlen Hocc.
    apply (occurs_in_range Kiosk.marker bytes k ltac:(discriminate)) in Hocc.
    change (Kiosk.len Kiosk.marker) with 27%Z in Hocc. lia. }
  assert (Hnone : forall k : Z,
             ~ Kiosk.occurs_at Kiosk.marker Kiosk.minimal_archive k)
    by (intros k; apply Hshort; vm_compute; reflexivity).
  assert (Hnone' : forall k : Z,
             ~ Kiosk.occurs_at Kiosk.marker
                 (Kiosk.eocd_magic ++ repeat Byte.x00 22) k)
    by (intros k; apply Hshort; vm_compute; reflexivity).
  assert (Hpair : exists i j : Z,
             (0 <= j < i)%Z
             /\ (i + 22 <= Kiosk.len Kiosk.minimal_archive)%Z
             /\ Kiosk.occurs_at Kiosk.eocd_magic Kiosk.minimal_archive i
             /\ Kiosk.occurs_at Kiosk.header_magic Kiosk.minimal_archive j).
  { exists 4%Z, 0%Z. split; [lia|]. split; [vm_compute; discriminate|].
    split; (split; [lia|vm_compute; reflexivity]). }
  split; [exact Hnone|]. split; [exact Hpair|].
  split.
  - intros Hminus.
    apply (proj1 (findZipBoundary_without_marker Kiosk.minimal_archive Hnone)
             Hminus).
    exact Hpair.
  - split; [exact Hnone'|].
    apply (findZipBoundary_without_marker _ Hnone').
    intros (i & j & Hj & Hi & He & Hh).
    apply header_at_occurs in Hh.
    assert (Hi' : (i <= 4)%Z).
    { change (Kiosk.len (Kiosk.eocd_magic ++ repeat Byte.x00 22))
        with 26%Z in Hi. lia. }
    assert (Hcases : (j = 0 \/ j = 1 \/ j = 2 \/ j = 3)%Z) by lia.
    destruct Hcases as [-> | [-> | [-> | ->]]]; vm_compute in Hh;
      discriminate Hh.
Defined.

(** * Properties of the share links *)

Section ShareFacts.

Import String.StringSyntax.
Local Open Scope string_scope.
Local Open Scope bool_scope.

Context (format4 : R -> String.string)
        (serialize : Share.URLSearchParams -> String.string).

Local Abbreviation share_params := (Share.share_params format4).
Local Abbreviation buildShareUrl := (Share.buildShareUrl format4 serialize).
Local Abbreviation add_transform := (Share.add_transform format4).
Local Abbreviation addAlignmentParams := (Share.addAlignmentParams format4).

Lemma names_of_filter (name n : String.string) (l : Share.URLSearchParams) :
  In n (map fst (filter (fun p => negb (String.eqb (fst p) name)) l))
  <-> n <> name /\ In n (map fst l).
Proof.
  induction l as [|[k v] l IH]; simpl.
  - tauto.
  - destruct (String.eqb_spec k name) as [->|Hk]; simpl.
    + rewrite IH. split.
      * intros [Hn Hin]. split; [exact Hn|right; exact Hin].
      * intros [Hn [Heq|Hin]]; [congruence|split; assumption].
    + rewrite IH. split.
      * intros [Heq|[Hn Hin]]; [subst n|]; split; auto.
      * intros [Hn [Heq|Hin]]; [left; exact Heq|right; split; assumption].
Qed.

Lemma names_of_set (name value n : String.string)
  (l : Share.URLSearchParams) :
  In n (map fst (Share.set name value l)) <-> n = name \/ In n (map fst l).
Proof.
  induction l as [|[k v] l IH]; simpl.
  - split; [intros [H|[]]; left; congruence|intros [H|[]]; left; congruence].
  - destruct (String.eqb_spec k name) as [->|Hk]; simpl.
    + rewrite names_of_filter. split.
      * intros [H|[_ H]]; [left; congruence|right; right; exact H].
      * intros [H|[H|H]]; [left; congruence|left; exact H|].
        destruct (String.eqb_spec n name) as [->|Hn];
          [left; reflexivity|right; split; assumption].
    + rewrite IH. tauto.
Qed.

Lemma nodup_filter (name : String.string) (l : Share.URLSearchParams) :
  NoDup (map fst l) ->
  NoDup (map fst (filter (fun p => negb (String.eqb (fst p) name)) l)).
Proof.
  induction l as [|[k v] l IH]; simpl; intros Hnd.
  - constructor.
  - inversion Hnd as [|? ? Hnot Hrest]; subst.
    destruct (String.eqb_spec k name) as [->|Hk]; simpl.
    + apply IH, Hrest.
    + constructor; [|apply IH, Hrest].
      rewrite names_of_filter. tauto.
Qed.

Lemma nodup_set (name value : String.string) (l : Share.URLSearchParams) :
  NoDup (map fst l) -> NoDup (map fst (Share.set name value l)).
Proof.
  induction l as [|[k v] l IH]; simpl; intros Hnd.
  - constructor; [intros []|constructor].
  - inversion Hnd as [|? ? Hnot Hrest]; subst.
    destruct (String.eqb_spec k name) as [->|Hk]; simpl.
    + constructor; [|apply nodup_filter, Hrest].
      rewrite names_of_filter. tauto.
    + constructor; [|apply IH, Hrest].
      rewrite names_of_set. intros [H|H]; [exact (Hk H)|exact (Hnot H)].
Qed.

Lemma get_filter (name n : String.string) (l : Share.URLSearchParams) :
  n <> name ->
  Share.get n (filter (fun p => negb (String.eqb (fst p) name)) l)
  = Share.get n l.
Proof.
  intros Hn. induction l as [|[k v] l IH]; simpl; [reflexivity|].
  destruct (String.eqb_spec k name) as [->|Hk]; simpl.
  - destruct (String.eqb_spec name n) as [Heq|_]; [congruence|exact IH].
  - destruct (String.eqb_spec k n); [reflexivity|exact IH].
Qed.

Lemma get_set_same (name value : String.string)
  (l : Share.URLSearchParams) :
  Share.get name (Share.set name value l) = Some value.
Proof.
  induction l as [|[k v] l IH]; simpl.
  - rewrite String.eqb_refl. reflexivity.
  - destruct (String.eqb_spec k name) as [->|Hk]; simpl.
    + rewrite String.eqb_refl. reflexivity.
    + destruct (String.eqb_spec k name); [contradiction|exact IH].
Qed.

Lemma get_set_other (name value n : String.string)
  (l : Share.URLSearchParams) :
  n <> name -> Share.get n (Share.set name value l) = Share.get n l.
Proof.
  intros Hn. induction l as [|[k v] l IH]; simpl.
  - destruct (String.eqb_spec name n); [congruence|reflexivity].
  - destruct (String.eqb_spec k name) as [->|Hk]; simpl.
    + destruct (String.eqb_spec name n); [congruence|].
      apply get_filter, Hn.
    + destruct (String.eqb_spec k n); [reflexivity|exact IH].
Qed.

Lemma nodup_add_transform (kp kr ks : String.string) (t : Share.Transform)
  (l : Share.URLSearchParams) :
  NoDup (map fst l) -> NoDup (map fst (add_transform kp kr ks t l)).
Proof.
  intros Hnd. unfold Share.add_transform.
  repeat match goal with
         | |- context [if ?c then _ else _] => destruct c
         | |- context [match ?c with Some _ => _ | None => _ end] =>
             destruct c
         | |- NoDup (map fst (Share.set _ _ _)) => apply nodup_set
         end; exact Hnd.
Qed.

Lemma get_add_transform (kp kr ks n : String.string) (t : Share.Transform)
  (l : Share.URLSearchParams) :
  n <> kp -> n <> kr -> n <> ks ->
  Share.get n (add_transform kp kr ks t l) = Share.get n l.
Proof.
  intros Hp Hr Hs. unfold Share.add_transform.
  repeat match goal with
         | |- context [if ?c then _ else _] => destruct c
         | |- context [match ?c with Some _ => _ | None => _ end] =>
             destruct c
         end;
    repeat (rewrite get_set_other by assumption); reflexivity.
Qed.

Lemma nodup_addAlignmentParams (state : Share.ShareState)
  (l : Share.URLSearchParams) :
  NoDup (map fst l) -> NoDup (map fst (addAlignmentParams l state)).
Proof.
  intros Hnd. unfold Share.addAlignmentParams.
  destruct (Share.splatTransform state), (Share.modelTransform state),
    (Share.pointcloudTransform state);
    repeat apply nodup_add_transform; exact Hnd.
Qed.

Lemma nonzero_zero : Share.nonzero 0 = false.
Proof.
  unfold Share.nonzero. destruct (Req_dec_T 0 0) as [_|H];
    [reflexivity|exfalso; apply H; reflexivity].
Qed.

Lemma nonzero_of_neq (r : R) : r <> 0 -> Share.nonzero r = true.
Proof.
  intros H. unfold Share.nonzero. destruct (Req_dec_T r 0);
    [contradiction|reflexivity].
Qed.

Lemma add_transform_untouched (kp kr ks : String.string)
  (t : Share.Transform) (l : Share.URLSearchParams) :
  Share.untouched (Some t) -> add_transform kp kr ks t l = l.
Proof.
  intros (Hx & Hy & Hz & Hrx & Hry & Hrz & Hs). unfold Share.add_transform.
  rewrite Hx, Hy, Hz, Hrx, Hry, Hrz, nonzero_zero. simpl.
  destruct Hs as [-> | ->]; [reflexivity|].
  destruct (Req_dec_T 1 1) as [_|H];
    [reflexivity|exfalso; apply H; reflexivity].
Qed.

(** The parameters set before the alignment block. *)
Lemma share_params_without_alignment_nodup (state : Share.ShareState)
  (options : Share.ShareOptions) :
  NoDup (map fst (share_params state options false)).
Proof.
  unfold Share.share_params. rewrite Bool.andb_false_l.
  repeat match goal with
         | |- context [if ?c then _ else _] => destruct c
         | |- context [match ?c with Some _ => _ | None => _ end] =>
             destruct c
         | |- NoDup (map fst (Share.set _ _ _)) => apply nodup_set
         end; constructor.
Qed.

Lemma share_params_alignment (state : Share.ShareState)
  (options : Share.ShareOptions) :
  share_params state options true
  = if Share.truthy (Share.archiveUrl state)
    then share_params state options false
    else addAlignmentParams (share_params state options false) state.
Proof.
  unfold Share.share_params. rewrite Bool.andb_true_l, Bool.andb_false_l.
  destruct (Share.truthy (Share.archiveUrl state)); reflexivity.
Qed.

Lemma get_mode_without_alignment (state : Share.ShareState)
  (options : Share.ShareOptions) :
  Share.get "mode" (share_params state options false)
  = Some (Share.displayMode options).
Proof.
  unfold Share.share_params. rewrite Bool.andb_false_l.
  repeat match goal with
         | |- context [if negb ?c then _ else _] => destruct c; cbn [negb]
         end;
    repeat (rewrite get_set_other by discriminate);
    apply get_set_same.
Qed.

(** X22.  A link to an archive depends on nothing but the archive URL and
    the options: two states with the same non-empty [archiveUrl] give the
    same link whatever their other URLs, their transforms and the
    alignment flag are, and the link carries no parameter besides
    [archive], [mode], [controls], [toolbar] and [sidebar]. *)
Theorem buildShareUrl_archive_precedence (baseUrl : String.string)
  (s1 s2 : Share.ShareState) (options : Share.ShareOptions)
  (i1 i2 : bool) :
  Share.truthy (Share.archiveUrl s1) = true ->
  Share.archiveUrl s2 = Share.archiveUrl s1 ->
  buildShareUrl baseUrl s1 options i1 = buildShareUrl baseUrl s2 options i2
  /\ incl (map fst (share_params s1 options i1)) Share.archive_names
  /\ Share.get "archive" (share_params s1 options i1) = Share.archiveUrl s1.
Proof.
  intros Htruthy Hsame.
  assert (Hform : forall s i,
    Share.archiveUrl s = Share.archiveUrl s1 ->
    share_params s options i = share_params s1 options false).
  { intros s i Hs. unfold Share.share_params. rewrite Hs, Htruthy.
    rewrite Bool.andb_false_r, Bool.andb_false_l. reflexivity. }
  split; [|split].
  - unfold Share.buildShareUrl.
    rewrite (Hform s1 i1 eq_refl), (Hform s2 i2 Hsame). reflexivity.
  - rewrite (Hform s1 i1 eq_refl). unfold Share.share_params.
    rewrite Htruthy, Bool.andb_false_l.
    destruct (Share.archiveUrl s1) as [url|]; [|discriminate Htruthy].
    intros n Hn.
    repeat match type of Hn with
           | context [if ?c then _ else _] => destruct c
           end;
      repeat (apply names_of_set in Hn; destruct Hn as [->|Hn]);
      simpl in *; tauto.
  - rewrite (Hform s1 i1 eq_refl). unfold Share.share_params.
    rewrite Htruthy, Bool.andb_false_l.
    destruct (Share.archiveUrl s1) as [url|]; [|discriminate Htruthy].
    repeat match goal with
           | |- context [if ?c then _ else _] => destruct c
           end;
      repeat (rewrite get_set_other by discriminate);
      apply get_set_same.
Qed.

(** X23.  Whatever the state and the options, no parameter name occurs
    twice in the query of a share link, and [mode] is always there with
    the display mode of the options. *)
Theorem share_params_unique_with_mode (state : Share.ShareState)
  (options : Share.ShareOptions) (includeAlignment : bool) :
  NoDup (map fst (share_params state options includeAlignment))
  /\ Share.get "mode" (share_params state options includeAlignment)
     = Some (Share.displayMode options).
Proof.
  destruct includeAlignment.
  - rewrite share_params_alignment.
    destruct (Share.truthy (Share.archiveUrl state)).
    + split; [apply share_params_without_alignment_nodup
             |apply get_mode_without_alignment].
    + split.
      * apply nodup_addAlignmentParams,
          share_params_without_alignment_nodup.
      * unfold Share.addAlignmentParams.
        destruct (Share.splatTransform state),
          (Share.modelTransform state),
          (Share.pointcloudTransform state);
          repeat (rewrite get_add_transform by discriminate);
          apply get_mode_without_alignment.
  - split; [apply share_params_without_alignment_nodup
           |apply get_mode_without_alignment].
Qed.

(** X24.  Transforms that hold nothing to share (no offset, no turn, a
    scale that is absent or 1) leave the link as it is without the
    alignment data. *)
Theorem untouched_transforms_add_nothing (baseUrl : String.string)
  (state : Share.ShareState) (options : Share.ShareOptions) :
  Share.untouched (Share.splatTransform state) ->
  Share.untouched (Share.modelTransform state) ->
  Share.untouched (Share.pointcloudTransform state) ->
  buildShareUrl baseUrl state options true
  = buildShareUrl baseUrl state options false.
Proof.
  intros Hs Hm Hp. unfold Share.buildShareUrl.
  rewrite share_params_alignment.
  destruct (Share.truthy (Share.archiveUrl state)); [reflexivity|].
  unfold Share.addAlignmentParams.
  destruct (Share.splatTransform state) as [ts|];
    [rewrite (add_transform_untouched _ _ _ ts) by exact Hs|];
    (destruct (Share.modelTransform state) as [tm|];
     [rewrite (add_transform_untouched _ _ _ tm) by exact Hm|]);
    (destruct (Share.pointcloudTransform state) as [tp|];
     [rewrite (add_transform_untouched _ _ _ tp) by exact Hp|]);
    reflexivity.
Qed.

(** X25.  With the alignment data asked for and no archive, a splat that
    is moved off the origin is shared under [sp] with its three
    formatted coordinates; the model and point cloud blocks that run
    afterwards do not overwrite it. *)
Theorem moved_splat_is_shared (state : Share.ShareState)
  (options : Share.ShareOptions) (t : Share.Transform) :
  Share.truthy (Share.archiveUrl state) = false ->
  Share.splatTransform state = Some t ->
  x (Share.position t) <> 0 \/ y (Share.position t) <> 0
  \/ z (Share.position t) <> 0 ->
  Share.get "sp" (share_params state options true)
  = Some (Share.formatVec3 format4
            [x (Share.position t); y (Share.position t);
             z (Share.position t)]).
Proof.
  intros Harch Hsplat Hmoved.
  rewrite share_params_alignment, Harch.
  unfold Share.addAlignmentParams. rewrite Hsplat.
  assert (Hsp : forall l,
    Share.get "sp" (add_transform "sp" "sr" "ss" t l)
    = Some (Share.formatVec3 format4
              [x (Share.position t); y (Share.position t);
               z (Share.position t)])).
  { intros l. unfold Share.add_transform.
    assert (Hnz : Share.nonzero (x (Share.position t))
                  || Share.nonzero (y (Share.position t))
                  || Share.nonzero (z (Share.position t)) = true).
    { destruct Hmoved as [H|[H|H]]; rewrite (nonzero_of_neq _ H);
        rewrite ?Bool.orb_true_r; reflexivity. }
    rewrite Hnz.
    repeat match goal with
           | |- context [if ?c then _ else _] => destruct c
           | |- context [match ?c with Some _ => _ | None => _ end] =>
               destruct c
           end;
      repeat (rewrite get_set_other by discriminate);
      apply get_set_same. }
  destruct (Share.modelTransform state),
    (Share.pointcloudTransform state);
    repeat (rewrite get_add_transform by discriminate); apply Hsp.
Qed.

End ShareFacts.

Section ShareWitnesses.

Import String.StringSyntax.
Local Open Scope string_scope.

Lemma buildShareUrl_archive_precedence_witness :
  Share.truthy (Share.archiveUrl (Share.archive_only "a.a3d")) = true
  /\ Share.buildShareUrl (fun _ => "0") Share.plain_query "https://v.test/"
       (Share.archive_only "a.a3d") Share.default_options true
     = Share.buildShareUrl (fun _ => "0") Share.plain_query "https://v.test/"
         (Share.mkShareState (Some "a.a3d") (Some "s.ply") None None None
            None None None)
         Share.default_options false.
Proof.
  split; [reflexivity|].
  apply (buildShareUrl_archive_precedence (fun _ => "0") Share.plain_query
           "https://v.test/" (Share.archive_only "a.a3d")
           (Share.mkShareState (Some "a.a3d") (Some "s.ply") None None None
              None None None)
           Share.default_options true false eq_refl eq_refl).
Defined.

Lemma untouched_transforms_add_nothing_witness :
  Share.untouched (Some (Share.mkTransform origin origin (Some 1)))
  /\ Share.buildShareUrl (fun _ => "0") Share.plain_query "https://v.test/"
       (Share.mkShareState None (Some "s.ply") None None None
          (Some (Share.mkTransform origin origin (Some 1))) None None)
       Share.default_options true
     = Share.buildShareUrl (fun _ => "0") Share.plain_query "https://v.test/"
         (Share.mkShareState None (Some "s.ply") None None None
            (Some (Share.mkTransform origin origin (Some 1))) None None)
         Share.default_options false.
Proof.
  assert (Hu : Share.untouched
                 (Some (Share.mkTransform origin origin (Some 1)))).
  { simpl. repeat split; try reflexivity. right. reflexivity. }
  split; [exact Hu|].
  apply (untouched_transforms_add_nothing (fun _ => "0") Share.plain_query
           "https://v.test/"
           (Share.mkShareState None (Some "s.ply") None None None
              (Some (Share.mkTransform origin origin (Some 1))) None None)
           Share.default_options Hu I I).
Defined.

Lemma moved_splat_is_shared_witness :
  x (Share.position (Share.mkTransform (mkPoint3D 1 0 0) origin None)) <> 0
  /\ Share.get "sp"
       (Share.share_params (fun _ => "0")
          (Share.mkShareState None (Some "s.ply") None None None
             (Some (Share.mkTransform (mkPoint3D 1 0 0) origin None))
             None None)
          Share.default_options true)
     = Some (Share.formatVec3 (fun _ => "0") [1; 0; 0]).
Proof.
  assert (H1 : x (Share.position
                    (Share.mkTransform (mkPoint3D 1 0 0) origin None)) <> 0)
    by (simpl; lra).
  split; [exact H1|].
  apply (moved_splat_is_shared (fun _ => "0")
           (Share.mkShareState None (Some "s.ply") None None None
              (Some (Share.mkTransform (mkPoint3D 1 0 0) origin None))
              None None)
           Share.default_options
           (Share.mkTransform (mkPoint3D 1 0 0) origin None)
           eq_refl eq_refl (or_introl H1)).
Defined.

End ShareWitnesses.
